(** * MediaLLM: the safety gate between an LLM response and an ffmpeg process

    A shallow embedding of the command security validator
    ([processing/command_executor.py]), the retry handler
    ([processing/command_retry.py]), the JSON repair stage
    ([core/json_repair.py]), the probe-duration reader
    ([analysis/ffprobe_analyzer.py]), the CLI entry point ([main.py]) and the
    programmatic interface ([api.py]).

    Conventions of the embedding.
    - A Python [str] is a [string]; the characters are those of 7-bit ASCII.
      Python's Unicode-aware notions (whitespace, word characters, case
      folding) are modelled on that range; every other byte is an ordinary
      character that is neither whitespace, nor a word character, nor cased.
    - A compiled [re.Pattern] is a value of [Re.regex]; [Re.search] is the
      backtracking, leftmost-first search of Python's [re] module for the
      operators the sources use.
    - Effects (the filesystem, subprocesses, the LLM) are oracles over an
      explicit world that is threaded through the calls. *)

From stdpp Require Import base strings list gmap.
From Stdlib Require Import Ascii String ZArith Lia.

Open Scope string_scope.
Open Scope list_scope.

(** ** Python string operations *)

Module Py.

Definition code (c : ascii) : N := N_of_ascii c.

Definition in_range (lo hi : N) (c : ascii) : bool :=
  (lo <=? code c)%N && (code c <=? hi)%N.

(** [str.isspace] on one character: TAB..CR, FS..US and the space. *)
Definition isspace (c : ascii) : bool :=
  in_range 9 13 c || in_range 28 32 c.

Definition isdigit (c : ascii) : bool := in_range 48 57 c.
Definition isupper (c : ascii) : bool := in_range 65 90 c.
Definition islower (c : ascii) : bool := in_range 97 122 c.

(** The class [\w]: letters, digits and the underscore. *)
Definition isword (c : ascii) : bool :=
  isdigit c || isupper c || islower c || (code c =? 95)%N.

Definition lower_char (c : ascii) : ascii :=
  if isupper c then ascii_of_N (code c + 32) else c.

Fixpoint lower (s : string) : string :=
  match s with
  | "" => ""
  | String c t => String (lower_char c) (lower t)
  end.

Definition eqc (a b : ascii) : bool := (code a =? code b)%N.

(** [s.startswith(p)] *)
Fixpoint startswith (s p : string) {struct p} : bool :=
  match p, s with
  | "", _ => true
  | String a p', String b s' => eqc a b && startswith s' p'
  | String _ _, "" => false
  end.

Fixpoint rev_onto (s acc : string) : string :=
  match s with
  | "" => acc
  | String c t => rev_onto t (String c acc)
  end.

Definition rev (s : string) : string := rev_onto s "".

(** [s.endswith(p)] *)
Definition endswith (s p : string) : bool := startswith (rev s) (rev p).

(** [needle in hay] *)
Fixpoint contains (needle hay : string) : bool :=
  startswith hay needle ||
  match hay with
  | "" => false
  | String _ t => contains needle t
  end.

(** [sep.join(l)] *)
Fixpoint join (sep : string) (l : list string) : string :=
  match l with
  | [] => ""
  | [a] => a
  | a :: rest => a +:+ sep +:+ join sep rest
  end.

Fixpoint lstrip (s : string) : string :=
  match s with
  | "" => ""
  | String c t => if isspace c then lstrip t else s
  end.

Definition rstrip (s : string) : string := rev (lstrip (rev s)).

(** [s.strip()] *)
Definition strip (s : string) : string := rstrip (lstrip s).

(** [s.find(c)] and [s.rfind(c)] for a one-character needle: the index of
    the first (last) occurrence, or -1. *)
Fixpoint find (c : ascii) (s : string) : Z :=
  match s with
  | "" => (-1)%Z
  | String a t =>
      if eqc a c then 0%Z
      else let r := find c t in if (r =? -1)%Z then (-1)%Z else (r + 1)%Z
  end.

Fixpoint rfind (c : ascii) (s : string) : Z :=
  match s with
  | "" => (-1)%Z
  | String a t =>
      let r := rfind c t in
      if (r =? -1)%Z then (if eqc a c then 0%Z else (-1)%Z) else (r + 1)%Z
  end.

Fixpoint take (n : nat) (s : string) : string :=
  match n, s with
  | S n', String c t => String c (take n' t)
  | _, _ => ""
  end.

Fixpoint drop (n : nat) (s : string) : string :=
  match n, s with
  | S n', String _ t => drop n' t
  | _, _ => s
  end.

(** [s[i:j]] for [0 <= i], [0 <= j]. *)
Definition slice (s : string) (i j : Z) : string :=
  take (Z.to_nat (j - i)) (drop (Z.to_nat i) s).

(** [s.split(sep)] for a one-character separator. *)
Fixpoint split (sep : ascii) (s : string) : list string :=
  match s with
  | "" => [""]
  | String c t =>
      if eqc c sep then "" :: split sep t
      else match split sep t with
           | [] => [String c ""]
           | w :: ws => String c w :: ws
           end
  end.

(** Truthiness of a string: non-empty. *)
Definition nonempty (s : string) : bool :=
  match s with "" => false | _ => true end.

End Py.

(** ** The fragment of Python's [re] the sources use *)

Module Re.

(** Quantifiers are only ever applied to a single character class in the
    sources, so [RRep] takes a class. [RGroup] is the (single) capturing
    group of a pattern. *)
Inductive regex : Type :=
| REps
| RChar (p : ascii -> bool)
| RWordB
| REnd
| RSeq (r1 r2 : regex)
| RRep (greedy : bool) (lo : nat) (hi : option nat) (p : ascii -> bool)
| RGroup (r : regex).

(** A position in the subject: the character before it, the text after it,
    and the text captured by the group so far. *)
Record mstate : Type := MState {
  prev : option ascii;
  rest : string;
  grp : option string
}.

(** [\b]: exactly one side of the position is a word character. *)
Definition at_word_boundary (pv : option ascii) (s : string) : bool :=
  let before := match pv with Some c => Py.isword c | None => false end in
  let after := match s with String c _ => Py.isword c | "" => false end in
  xorb before after.

(** [$] without MULTILINE: at the end, or just before a final newline. *)
Definition at_end (s : string) : bool :=
  match s with
  | "" => true
  | String c "" => (Py.code c =? 10)%N
  | _ => false
  end.

Definition hi_allows (hi : option nat) : bool :=
  match hi with Some 0 => false | _ => true end.

Definition hi_pred (hi : option nat) : option nat :=
  match hi with Some n => Some (Nat.pred n) | None => None end.

(** A quantified class, with backtracking into the continuation [k]:
    the greedy form tries one more character first, the lazy form tries
    to stop first. *)
Fixpoint rep (greedy : bool) (p : ascii -> bool) (lo : nat) (hi : option nat)
    (pv : option ascii) (s : string)
    (k : option ascii -> string -> option mstate) {struct s} : option mstate :=
  let stop (_ : unit) := match lo with 0 => k pv s | S _ => None end in
  let more (_ : unit) :=
    match s with
    | String c t =>
        if hi_allows hi && p c
        then rep greedy p (Nat.pred lo) (hi_pred hi) (Some c) t k
        else None
    | "" => None
    end in
  if greedy
  then match more tt with Some r => Some r | None => stop tt end
  else match stop tt with Some r => Some r | None => more tt end.

Fixpoint rmatch (r : regex) (st : mstate)
    (k : mstate -> option mstate) {struct r} : option mstate :=
  match r with
  | REps => k st
  | RChar p =>
      match rest st with
      | String c t => if p c then k (MState (Some c) t (grp st)) else None
      | "" => None
      end
  | RWordB => if at_word_boundary (prev st) (rest st) then k st else None
  | REnd => if at_end (rest st) then k st else None
  | RSeq r1 r2 => rmatch r1 st (fun st' => rmatch r2 st' k)
  | RRep g lo hi p =>
      rep g p lo hi (prev st) (rest st)
        (fun pv s => k (MState pv s (grp st)))
  | RGroup r1 =>
      rmatch r1 st (fun st' =>
        k (MState (prev st') (rest st')
             (Some (Py.take (String.length (rest st) - String.length (rest st'))
                      (rest st)))))
  end.

(** A match of [r] starting exactly at the position [st]. *)
Definition match_at (r : regex) (pv : option ascii) (s : string) : option mstate :=
  rmatch r (MState pv s None) Some.

(** [pattern.search(s)]: the first start position, left to right, at which
    the pattern matches. The result is the state at the end of the match. *)
Fixpoint search_from (r : regex) (pv : option ascii) (s : string) : option mstate :=
  match match_at r pv s with
  | Some st => Some st
  | None =>
      match s with
      | "" => None
      | String c t => search_from r (Some c) t
      end
  end.

Definition search (r : regex) (s : string) : option mstate :=
  search_from r None s.

Definition matches (r : regex) (s : string) : bool :=
  match search r s with Some _ => true | None => false end.

(** Pattern builders. *)
Fixpoint seqs (l : list regex) : regex :=
  match l with
  | [] => REps
  | [r] => r
  | r :: rest => RSeq r (seqs rest)
  end.

Definition chr (c : ascii) : regex := RChar (Py.eqc c).
(** A literal character under IGNORECASE. *)
Definition chr_i (c : ascii) : regex :=
  RChar (fun x => Py.eqc (Py.lower_char x) (Py.lower_char c)).

Fixpoint lit (s : string) : regex :=
  match s with
  | "" => REps
  | String c "" => chr c
  | String c t => RSeq (chr c) (lit t)
  end.

Fixpoint lit_i (s : string) : regex :=
  match s with
  | "" => REps
  | String c "" => chr_i c
  | String c t => RSeq (chr_i c) (lit_i t)
  end.

Definition one_of (cs : string) : ascii -> bool :=
  fun x => Py.contains (String x "") cs.
Definition none_of (cs : string) : ascii -> bool :=
  fun x => negb (one_of cs x).
Definition any_char : ascii -> bool := fun _ => true.
Definition nonspace : ascii -> bool := fun x => negb (Py.isspace x).

Definition star (p : ascii -> bool) : regex := RRep true 0 None p.
Definition plus (p : ascii -> bool) : regex := RRep true 1 None p.
Definition opt (p : ascii -> bool) : regex := RRep true 0 (Some 1) p.
Definition lazy_star (p : ascii -> bool) : regex := RRep false 0 None p.

End Re.

(** ** [processing/command_executor.py] *)

Module CommandExecutor.
Import Re.

(** [_DANGEROUS_PATTERNS], in the order of the source. All but the three
    metacharacter patterns and the redirection pattern are compiled with
    [re.IGNORECASE]. *)
Definition az_i : ascii -> bool := fun x => Py.islower (Py.lower_char x).

Definition DANGEROUS_PATTERNS : list regex :=
  [ (* \brm\s+-rf?\b *)
    seqs [RWordB; lit_i "rm"; plus Py.isspace; lit_i "-r";
          RRep true 0 (Some 1) (fun x => Py.eqc (Py.lower_char x) "f"); RWordB];
    (* \brm\s+ *)
    seqs [RWordB; lit_i "rm"; plus Py.isspace];
    (* \bdel\s+/[sfq]\b *)
    seqs [RWordB; lit_i "del"; plus Py.isspace; chr "/";
          RChar (fun x => one_of "sfq" (Py.lower_char x)); RWordB];
    (* \bdel\s+ *)
    seqs [RWordB; lit_i "del"; plus Py.isspace];
    (* \bformat\s+[a-z]: *)
    seqs [RWordB; lit_i "format"; plus Py.isspace; RChar az_i; chr ":"];
    (* \bsystem\s*\( *)
    seqs [RWordB; lit_i "system"; star Py.isspace; chr "("];
    (* \bexec\s*\( *)
    seqs [RWordB; lit_i "exec"; star Py.isspace; chr "("];
    (* \beval\s*\( *)
    seqs [RWordB; lit_i "eval"; star Py.isspace; chr "("];
    (* [&|`] *)
    RChar (one_of "&|`");
    (* \$\( *)
    lit "$(";
    (* \$\{ *)
    lit "${";
    (* >\s*[/\\] *)
    seqs [chr ">"; star Py.isspace; RChar (one_of "/\")];
    (* \bsudo\b *)
    seqs [RWordB; lit_i "sudo"; RWordB];
    (* \bchmod\b *)
    seqs [RWordB; lit_i "chmod"; RWordB];
    (* \bchown\b *)
    seqs [RWordB; lit_i "chown"; RWordB];
    (* \bmkfs\b *)
    seqs [RWordB; lit_i "mkfs"; RWordB];
    (* \bdd\s+if= *)
    seqs [RWordB; lit_i "dd"; plus Py.isspace; lit_i "if="] ].

Definition FILTER_FLAGS : list string :=
  ["-vf"; "-af"; "-filter_complex"; "-filter:v"; "-filter:a"].

Definition VALID_EXECUTABLES : list string := ["ffmpeg"; "ffprobe"].

Definition is_filter_flag (arg : string) : bool :=
  existsb (String.eqb arg) FILTER_FLAGS.

(** The [while] loop of [_is_command_secure]: a filter flag that is not
    the last element is skipped together with the element after it. *)
Fixpoint non_filter_args (command : list string) : list string :=
  match command with
  | [] => []
  | arg :: rest =>
      match rest with
      | _ :: rest' =>
          if is_filter_flag arg then non_filter_args rest'
          else arg :: non_filter_args rest
      | [] => [arg]
      end
  end.

Definition valid_executable (command : list string) : bool :=
  match command with
  | [] => false
  | exe :: _ => existsb (Py.endswith exe) VALID_EXECUTABLES
  end.

Definition is_command_secure (command : list string) : bool :=
  if negb (valid_executable command) then false
  else
    let nfa := non_filter_args command in
    let cmd_str := Py.join " " nfa in
    if existsb (fun pattern => matches pattern cmd_str) DANGEROUS_PATTERNS
    then false
    else if existsb (Py.contains ";") nfa then false
    else true.

(** *** Running a batch of commands *)

(** The failure an [ExecError] reports; the message texts of the source are
    not modelled beyond the excerpt of the diagnostic stream they carry. *)
Inductive exec_failure : Type :=
| EmptyCommand
| ExecutableNotFound (executable : string)
| SecurityValidationFailed
| ProcessTimedOut (seconds : Z)
| ProcessFailed (stderr_excerpt : string).

Inductive exn : Type :=
| ExecError (failure : exec_failure)
| OSError.

(** What [subprocess.run(cmd, check=True, timeout=..., capture_output=True)]
    does: it returns with exit code 0, or raises. *)
Inductive run_outcome : Type :=
| RunCompleted
| RunTimeoutExpired
| RunCalledProcessError (stderr : string)
| RunOSError.

(** What the executor prints on its console. *)
Inductive console_event : Type :=
| PrintCancelledFileConflicts
| PrintStarting (total : nat)
| PrintExecuting (cmd_num total : nat)
| PrintCommandCompleted (cmd_num : nat)
| PrintCommandFailed (cmd_num : nat)
| PrintSummary (successful total : nat).

Definition not_cancellation (ev : console_event) : Prop :=
  ev <> PrintCancelledFileConflicts.

Definition DEFAULT_SUBPROCESS_TIMEOUT : Z := 300.

(** [str(Path(s))] for a POSIX path. The path keeps its root (one slash,
    or two where the text starts with exactly two) and the components that
    are neither empty nor a single dot, joined by one slash; a path with
    neither root nor component shows as a dot. A [Path] is represented by
    this text. *)
Definition path_root (s : string) : string :=
  match s with
  | String "/" (String "/" (String "/" _)) => "/"
  | String "/" (String "/" _) => "//"
  | String "/" _ => "/"
  | _ => ""
  end.

Definition path_parts (s : string) : list string :=
  List.filter (fun part => negb (String.eqb part "" || String.eqb part "."))
    (Py.split "/" s).

Definition path_text (s : string) : string :=
  let root := path_root s in
  let body := Py.join "/" (path_parts s) in
  if negb (Py.nonempty root) && negb (Py.nonempty body) then "."
  else root +:+ body.

(** [extract_output_path]: [Path(cmd[-1])] for a command of at least two
    elements. *)
Definition extract_output_path (cmd : list string) : option string :=
  if (List.length cmd <? 2)%nat then None
  else match last cmd with
       | Some output => Some (path_text output)
       | None => None
       end.

(** [check_overwrite_protection]: both parameters are ignored. *)
Definition check_overwrite_protection
    (_commands : list (list string)) (_assume_yes : bool) : bool := true.

Section Execution.
Context {World : Type}.
(** [Path(p).exists()] *)
Variable path_exists : World -> string -> bool.
(** [shutil.which(executable) is not None] *)
Variable which : World -> string -> bool.
Variable subprocess_run : World -> list string -> run_outcome * World.

(** [detect_overwrites]: a [Path] object is always truthy. *)
Definition detect_overwrites (w : World) (commands : list (list string)) : bool :=
  existsb (fun cmd =>
             match extract_output_path cmd with
             | Some p => path_exists w p
             | None => false
             end) commands.

(** [_validate_command]: [None] when the command may run. *)
Definition validate_command (w : World) (cmd : list string) : option exn :=
  match cmd with
  | [] => Some (ExecError EmptyCommand)
  | executable :: _ =>
      if negb (which w executable)
      then Some (ExecError (ExecutableNotFound executable))
      else if negb (is_command_secure cmd)
      then Some (ExecError SecurityValidationFailed)
      else None
  end.

(** [_execute_single_command], with the default timeout. *)
Definition execute_single_command (w : World) (cmd : list string)
    (cmd_num total_cmds : nat) : option exn * list console_event * World :=
  match validate_command w cmd with
  | Some e => (Some e, [], w)
  | None =>
      let effective_timeout := DEFAULT_SUBPROCESS_TIMEOUT in
      let '(out, w') := subprocess_run w cmd in
      let started := PrintExecuting cmd_num total_cmds in
      match out with
      | RunCompleted => (None, [started; PrintCommandCompleted cmd_num], w')
      | RunTimeoutExpired =>
          (Some (ExecError (ProcessTimedOut effective_timeout)), [started], w')
      | RunCalledProcessError stderr =>
          (Some (ExecError (ProcessFailed (Py.take 500 stderr))), [started], w')
      | RunOSError => (Some OSError, [started], w')
      end
  end.

(** The [for] loop of [_execute_commands]: [i] is the number of the next
    command. An [ExecError] is reported and raised again; any other
    exception leaves the loop as it is. *)
Fixpoint execute_loop (w : World) (cmds : list (list string))
    (i total successful : nat) : (nat + exn) * list console_event * World :=
  match cmds with
  | [] => (inl successful, [], w)
  | cmd :: rest =>
      let '(r, out, w1) := execute_single_command w cmd i total in
      match r with
      | None =>
          let '(r', out', w2) := execute_loop w1 rest (S i) total (S successful) in
          (r', out ++ out', w2)
      | Some (ExecError f) => (inr (ExecError f), out ++ [PrintCommandFailed i], w1)
      | Some e => (inr e, out, w1)
      end
  end.

(** [_execute_commands]: the exit code, or the exception raised. *)
Definition execute_commands (w : World) (commands : list (list string))
    (assume_yes : bool) : (Z + exn) * list console_event * World :=
  if negb (check_overwrite_protection commands assume_yes)
  then (inl 1%Z, [PrintCancelledFileConflicts], w)
  else
    let total_commands := List.length commands in
    let '(r, out, w') := execute_loop w commands 1 total_commands 0 in
    match r with
    | inl successful_commands =>
        (inl (if (successful_commands =? total_commands)%nat then 0%Z else 1%Z),
         PrintStarting total_commands :: out
           ++ [PrintSummary successful_commands total_commands], w')
    | inr e => (inr e, PrintStarting total_commands :: out, w')
    end.

End Execution.

End CommandExecutor.


(** *** Reading a command as plain arguments and flag/value pairs

    The loop of [_is_command_secure] reads a command from left to right as a
    sequence of plain arguments and of pairs made of a filter flag and the
    argument that follows it. The types below name that reading, so that
    statements can speak of the value of a filter flag. *)

Module FilterPairs.
Import CommandExecutor.

Inductive arg_item : Type :=
| Plain (arg : string)
| FilterPair (flag value : string).







(** The reading of an arbitrary command, following the loop. *)
Fixpoint parse (command : list string) : list arg_item :=
  match command with
  | [] => []
  | arg :: rest =>
      match rest with
      | v :: rest' =>
          if is_filter_flag arg then FilterPair arg v :: parse rest'
          else Plain arg :: parse rest
      | [] => [Plain arg]
      end
  end.

End FilterPairs.

(** ** [processing/command_retry.py] *)

Module CommandRetry.

Definition MAX_RETRY_ATTEMPTS : nat := 3.

Definition nl : string := String (ascii_of_nat 10) "".

(** What the quick validation run ([subprocess.run] without [check]) does. *)
Inductive quick_outcome : Type :=
| QuickExit (returncode : Z) (stderr : string)
| QuickTimeoutExpired
| QuickFileNotFound
| QuickOtherException.

(** What a call of [executor_func] does. Of an [ExecError] the handler
    reads only its text, [str(e)]. *)
Inductive executor_outcome : Type :=
| Returned (exit_code : Z)
| RaisedExecError (message : string)
| RaisedOther (name : string).

Inductive retry_result : Type :=
| Return (exit_code : Z) (commands : list (list string))
| RaiseExecError (message : string)
| RaiseOther (name : string).

(** The observable steps of a run, each with the number of its attempt. *)
Inductive event : Type :=
| EvValidate (attempt : nat) (cmd : list string) (is_valid : bool)
| EvRegenerate (attempt : nat) (error_message : string) (regenerated : bool)
| EvExecute (attempt : nat) (commands : list (list string)) (out : executor_outcome).

(** How the validation loop of one attempt ends. *)
Inductive loop_exit (Plan : Type) : Type :=
| LoopCompleted
| LoopBreak (new_commands : list (list string)) (new_plan : Plan)
| LoopReturn.
Arguments LoopCompleted {Plan}.
Arguments LoopBreak {Plan} new_commands new_plan.
Arguments LoopReturn {Plan}.

Definition skipped_input (input_path : string) : bool :=
  existsb (Py.startswith input_path) ["pipe:"; "http://"; "https://"; "-"].

(** [_build_quick_validation_cmd] *)
Fixpoint last_input_idx_from (i : Z) (cmd : list string) (acc : Z) : Z :=
  match cmd with
  | [] => acc
  | arg :: rest =>
      last_input_idx_from (i + 1) rest (if String.eqb arg "-i" then (i + 1)%Z else acc)
  end.

Definition build_quick_validation_cmd (cmd : list string) : option (list string) :=
  match cmd with
  | [] => None
  | exe :: _ =>
      if negb (String.eqb exe "ffmpeg") then None
      else
        let last_input_idx := last_input_idx_from 0 cmd (-1) in
        if ((0 <? last_input_idx) && (last_input_idx <? Z.of_nat (List.length cmd)))%Z
        then
          let k := Z.to_nat (last_input_idx + 1) in
          Some (take k cmd ++ ["-t"; "0.001"] ++ drop k cmd)
        else Some cmd
  end.

(** The diagnostic of a failed quick run: the first line of stderr that is
    not blank and does not start with a bracket, else its first 200
    characters. *)
Definition quick_error_message (stderr : string) : string :=
  let error_lines :=
    List.filter (fun line => Py.nonempty (Py.strip line) && negb (Py.startswith line "["))
      (Py.split (ascii_of_nat 10) stderr) in
  match error_lines with
  | line :: _ => line
  | [] => Py.take 200 stderr
  end.

(** [_extract_error_summary] *)
Definition error_patterns : list string :=
  ["Invalid data found"; "Unknown encoder"; "Unknown decoder"; "Encoder not found";
   "Decoder not found"; "No such file or directory"; "Permission denied";
   "Invalid argument"; "Unrecognized option"; "does not support";
   "codec not currently supported"; "Invalid option"; "Error while opening";
   "Output file"; "cannot be used together"].

Definition extract_error_summary (error_message : string) : string :=
  let lines := Py.split (ascii_of_nat 10) error_message in
  let relevant_lines :=
    omap (fun line =>
            let line_lower := Py.lower line in
            if existsb (fun pattern => Py.contains (Py.lower pattern) line_lower)
                 error_patterns
            then Some (Py.strip line)
            else if Py.contains "error" line_lower then Some (Py.strip line)
            else None) lines in
  match relevant_lines with
  | _ :: _ => Py.join nl (take 3 relevant_lines)
  | [] => Py.take 200 error_message
  end.

(** [_build_retry_prompt] *)
Definition build_retry_prompt (original_prompt error_message : string) : string :=
  original_prompt +:+ nl +:+ nl
  +:+ "IMPORTANT: The previous FFmpeg command failed with this error:" +:+ nl
  +:+ extract_error_summary error_message +:+ nl +:+ nl
  +:+ "Please generate a corrected command that avoids this error. "
  +:+ "Consider:" +:+ nl
  +:+ "- Check codec compatibility with the output format" +:+ nl
  +:+ "- Verify input file paths are correct" +:+ nl
  +:+ "- Ensure filter syntax is valid" +:+ nl
  +:+ "- Use appropriate codecs for the target container".

Section Handler.
Context {World Plan : Type}.
(** [Path(p).exists()] *)
Variable path_exists : World -> string -> bool.
(** The quick validation run. *)
Variable subprocess_run : World -> list string -> quick_outcome * World.
(** The LLM client followed by [dispatch_task] and [construct_operations],
    on the enhanced prompt: the new commands and plan, or [None] when any
    of them raises. *)
Variable llm_pipeline : World -> string -> option (list (list string) * Plan) * World.
Variable executor_func : World -> list (list string) -> executor_outcome * World.

(** [_check_input_files] *)
Fixpoint missing_files (w : World) (cmd : list string) : list string :=
  match cmd with
  | [] => []
  | arg :: rest =>
      match rest with
      | input_path :: rest' =>
          if String.eqb arg "-i"
          then (if negb (skipped_input input_path) && negb (path_exists w input_path)
                then [input_path] else [])
               ++ missing_files w rest'
          else missing_files w rest
      | [] => []
      end
  end.

Definition check_input_files (w : World) (cmd : list string) : string :=
  match missing_files w cmd with
  | [] => ""
  | missing => "Input file(s) not found: " +:+ Py.join ", " missing
  end.

(** [validate_ffmpeg_command]. The copy to which the source adds "-v error"
    is never read and is left out. *)
Definition validate_ffmpeg_command (w : World) (cmd : list string)
  : (bool * string) * World :=
  match cmd with
  | [] => ((false, "Command must start with ffmpeg or ffprobe"), w)
  | exe :: _ =>
      if negb (String.eqb exe "ffmpeg" || String.eqb exe "ffprobe")
      then ((false, "Command must start with ffmpeg or ffprobe"), w)
      else
        let input_check_errors := check_input_files w cmd in
        if Py.nonempty input_check_errors then ((false, input_check_errors), w)
        else
          match build_quick_validation_cmd cmd with
          | Some ((_ :: _) as quick_check_cmd) =>
              let '(out, w') := subprocess_run w quick_check_cmd in
              match out with
              | QuickExit returncode stderr =>
                  if negb (returncode =? 0)%Z
                  then ((false, "FFmpeg validation failed: "
                                +:+ quick_error_message stderr), w')
                  else ((true, ""), w')
              | QuickTimeoutExpired => ((true, ""), w')
              | QuickFileNotFound =>
                  ((false, "FFmpeg executable not found. Please install FFmpeg."), w')
              | QuickOtherException => ((true, ""), w')
              end
          | _ => ((true, ""), w)
          end
  end.

(** [_regenerate_commands] *)
Definition regenerate_commands (w : World) (original_prompt error_message : string)
  : option (list (list string) * Plan) * World :=
  llm_pipeline w (build_retry_prompt original_prompt error_message).

Variable original_prompt : string.
(** The [commands] argument, returned when regeneration fails during
    validation. *)
Variable commands : list (list string).

(** The inner [for] loop of one attempt over [current_commands]. A failed
    validation regenerates and leaves the loop only when the attempt is below
    the bound; otherwise the loop goes on to the next command. *)
Fixpoint validate_commands (attempt : nat) (cmds : list (list string)) (w : World)
  : loop_exit Plan * list event * World :=
  match cmds with
  | [] => (LoopCompleted, [], w)
  | cmd :: rest =>
      let '((is_valid, error_msg), w1) := validate_ffmpeg_command w cmd in
      if negb is_valid && (attempt <? MAX_RETRY_ATTEMPTS)%nat
      then
        let '(regen, w2) := regenerate_commands w1 original_prompt error_msg in
        match regen with
        | None =>
            (LoopReturn,
             [EvValidate attempt cmd false; EvRegenerate attempt error_msg false], w2)
        | Some (new_commands, new_plan) =>
            (LoopBreak new_commands new_plan,
             [EvValidate attempt cmd false; EvRegenerate attempt error_msg true], w2)
        end
      else
        let '(r, evs, w2) := validate_commands attempt rest w1 in
        (r, EvValidate attempt cmd is_valid :: evs, w2)
  end.

(** The outer [for attempt in range(1, MAX_RETRY_ATTEMPTS + 1)] loop. *)
Fixpoint attempt_loop (attempts : list nat)
    (current_commands : list (list string)) (current_plan : Plan) (w : World)
  : retry_result * list event * World :=
  match attempts with
  | [] => (Return 1 current_commands, [], w)
  | attempt :: later =>
      let '(exit, evs, w1) := validate_commands attempt current_commands w in
      match exit with
      | LoopReturn => (Return 1 commands, evs, w1)
      | LoopBreak new_commands new_plan =>
          let '(res, evs', w2) := attempt_loop later new_commands new_plan w1 in
          (res, evs ++ evs', w2)
      | LoopCompleted =>
          let '(out, w2) := executor_func w1 current_commands in
          let ev := EvExecute attempt current_commands out in
          match out with
          | Returned exit_code => (Return exit_code current_commands, evs ++ [ev], w2)
          | RaisedOther name => (RaiseOther name, evs ++ [ev], w2)
          | RaisedExecError last_error =>
              if (attempt <? MAX_RETRY_ATTEMPTS)%nat
              then
                let '(regen, w3) := regenerate_commands w2 original_prompt last_error in
                match regen with
                | None =>
                    (RaiseExecError last_error,
                     evs ++ [ev; EvRegenerate attempt last_error false], w3)
                | Some (new_commands, new_plan) =>
                    let '(res, evs', w4) :=
                      attempt_loop later new_commands new_plan w3 in
                    (res, evs ++ ev :: EvRegenerate attempt last_error true :: evs', w4)
                end
              else (RaiseExecError last_error, evs ++ [ev], w2)
          end
      end
  end.

(** [execute_with_retry]: the result, the steps taken, and the world left. *)
Definition execute_with_retry (plan : Plan) (w : World)
  : retry_result * list event * World :=
  attempt_loop (seq 1 MAX_RETRY_ATTEMPTS) commands plan w.

End Handler.

(** Reading a trace. *)
Definition attempt_of (ev : event) : nat :=
  match ev with
  | EvValidate a _ _ | EvRegenerate a _ _ | EvExecute a _ _ => a
  end.

Definition is_execution (ev : event) : bool :=
  match ev with EvExecute _ _ _ => true | _ => false end.

Definition executions (trace : list event) : list event :=
  List.filter is_execution trace.

Definition is_validation (ev : event) : bool :=
  match ev with EvValidate _ _ _ => true | _ => false end.

(** A step of the validation loop of attempt [a]: a validation, or a
    regeneration, which the loop asks for only below the bound. *)
Definition validation_step (a : nat) (ev : event) : Prop :=
  match ev with
  | EvValidate a' _ _ => a' = a
  | EvRegenerate a' _ _ => a' = a /\ a < MAX_RETRY_ATTEMPTS
  | EvExecute _ _ _ => False
  end.

(** The steps of a validation loop that ran to its end: below the bound
    every command of the plan passed. *)
Definition validated (a : nat) (cmds : list (list string)) (evs : list event) : Prop :=
  Forall (validation_step a) evs
  /\ (a < MAX_RETRY_ATTEMPTS -> evs = map (fun c => EvValidate a c true) cmds).

(** The traces of the attempt loop, attempt by attempt: [run_shape original
    attempts cmds res tr] relates the attempts left and the current commands
    to a result and a trace. *)
Inductive run_shape (original : list (list string))
  : list nat -> list (list string) -> retry_result -> list event -> Prop :=
| shape_exhausted cmds :
    run_shape original [] cmds (Return 1 cmds) []
| shape_regeneration_failed a later cmds evs :
    Forall (validation_step a) evs ->
    run_shape original (a :: later) cmds (Return 1 original) evs
| shape_regenerated a later cmds evs cmds' res tr :
    Forall (validation_step a) evs ->
    run_shape original later cmds' res tr ->
    run_shape original (a :: later) cmds res (evs ++ tr)
| shape_returned a later cmds evs exit_code :
    validated a cmds evs ->
    run_shape original (a :: later) cmds (Return exit_code cmds)
      (evs ++ [EvExecute a cmds (Returned exit_code)])
| shape_raised_other a later cmds evs name :
    validated a cmds evs ->
    run_shape original (a :: later) cmds (RaiseOther name)
      (evs ++ [EvExecute a cmds (RaisedOther name)])
| shape_raised_at_bound a later cmds evs msg :
    validated a cmds evs ->
    ~ a < MAX_RETRY_ATTEMPTS ->
    run_shape original (a :: later) cmds (RaiseExecError msg)
      (evs ++ [EvExecute a cmds (RaisedExecError msg)])
| shape_raised_no_regeneration a later cmds evs msg :
    validated a cmds evs ->
    a < MAX_RETRY_ATTEMPTS ->
    run_shape original (a :: later) cmds (RaiseExecError msg)
      (evs ++ [EvExecute a cmds (RaisedExecError msg); EvRegenerate a msg false])
| shape_retried a later cmds evs msg cmds' res tr :
    validated a cmds evs ->
    a < MAX_RETRY_ATTEMPTS ->
    run_shape original later cmds' res tr ->
    run_shape original (a :: later) cmds res
      (evs ++ EvExecute a cmds (RaisedExecError msg) :: EvRegenerate a msg true :: tr).

End CommandRetry.

(** ** [core/json_repair.py]: extracting the JSON text *)

Module JsonText.
Import Re.

(** The two [markdown_patterns], compiled with [re.IGNORECASE]; the class
    of their group is every character. *)
Definition MARKDOWN_PATTERNS : list regex :=
  [ seqs [lit_i "```json"; star Py.isspace; RGroup (lazy_star any_char);
          star Py.isspace; lit_i "```"];
    seqs [lit_i "```"; star Py.isspace; RGroup (lazy_star any_char);
          star Py.isspace; lit_i "```"] ].

(** [match.group(1)] *)
Definition group1 (m : mstate) : string :=
  match grp m with Some g => g | None => "" end.

(** The loop over the markdown patterns: the first pattern that matches
    with a group starting with a brace gives the result. *)
Fixpoint extract_markdown (patterns : list regex) (text : string) : option string :=
  match patterns with
  | [] => None
  | pattern :: later =>
      match search pattern text with
      | Some m =>
          let extracted := Py.strip (group1 m) in
          if Py.startswith extracted "{" then Some extracted
          else extract_markdown later text
      | None => extract_markdown later text
      end
  end.

(** The test of the brace strategy on the stripped text. *)
Definition brace_span (text : string) : option (Z * Z) :=
  let first_brace := Py.find "{" text in
  let last_brace := Py.rfind "}" text in
  if negb (first_brace =? -1)%Z && negb (last_brace =? -1)%Z
     && (first_brace <? last_brace)%Z
  then Some (first_brace, last_brace) else None.

Definition extract_json_from_text (text : string) : string :=
  if negb (Py.nonempty text) then text
  else
    let text := Py.strip text in
    if Py.startswith text "{" && Py.endswith text "}" then text
    else
      match extract_markdown MARKDOWN_PATTERNS text with
      | Some extracted => extracted
      | None =>
          match brace_span text with
          | Some (first_brace, last_brace) =>
              Py.slice text first_brace (last_brace + 1)
          | None => text
          end
      end.

(** A text holds a brace pair when a closing brace stands somewhere after
    its first opening brace. *)
Fixpoint after_first (c : ascii) (s : string) : option string :=
  match s with
  | "" => None
  | String a t => if Py.eqc a c then Some t else after_first c t
  end.

Definition has_brace_pair (text : string) : bool :=
  match after_first "{" text with
  | Some t => Py.contains "}" t
  | None => false
  end.

End JsonText.

(** ** JSON values, as [json.loads] builds them *)

Module Json.

(** A Python float: a NaN, an infinity, or sign, mantissa and binary
    exponent. Its arithmetic is not modelled. *)
Inductive float_val : Type :=
| FNan
| FInf (negative : bool)
| FFinite (negative : bool) (mantissa : N) (exponent : Z).

#[local] Set Warnings "-register-all".
Inductive value : Type :=
| JNull
| JBool (b : bool)
| JInt (z : Z)
| JFloat (f : float_val)
| JStr (s : string)
| JList (l : list value)
| JDict (d : gmap string value).
#[local] Set Warnings "register-all".

Abbreviation dict := (gmap string value).

(** Truthiness, [bool(v)]. *)
Definition truthy (v : value) : bool :=
  match v with
  | JNull => false
  | JBool b => b
  | JInt z => negb (z =? 0)%Z
  | JFloat (FFinite _ 0 _) => false
  | JFloat _ => true
  | JStr s => Py.nonempty s
  | JList l => match l with [] => false | _ => true end
  | JDict d => match map_to_list d with [] => false | _ => true end
  end.

(** Whether [str(v).strip()] is empty. The text of a value that is not a
    string ("None", "True", digits, brackets, ...) is never blank. *)
Definition str_is_blank (v : value) : bool :=
  match v with
  | JStr s => negb (Py.nonempty (Py.strip s))
  | _ => false
  end.

Definition is_list (v : option value) : bool :=
  match v with Some (JList _) => true | _ => false end.

End Json.

(** ** [analysis/ffprobe_analyzer.py] *)

Module FfprobeAnalyzer.
Import Json.

Definition MAX_FFPROBE_OUTPUT_SIZE : N := 1024 * 1024.

(** What [subprocess.run(..., check=True, text=True, timeout=...)] does. *)
Inductive probe_outcome : Type :=
| ProbeCompleted (stdout : string)
| ProbeTimeoutExpired
| ProbeCalledProcessError
| ProbeOSError.

(** The exceptions the body can raise besides those of the subprocess and
    of the JSON decoder. *)
Inductive py_exception : Type :=
| ValueError
| TypeError
| AttributeError
| OverflowError.

(** The float [float(v)] denotes; rounding is not modelled, so the result
    names the value it was converted from. *)
Inductive py_float : Type :=
| FloatOfBool (b : bool)
| FloatOfInt (z : Z)
| FloatOfFloat (f : float_val)
| FloatOfText (s : string).

Inductive duration_result : Type :=
| ReturnNone
| ReturnFloat (f : py_float)
| Raises (e : py_exception).

(** The syntax [float(str)] accepts: blanks around an optional sign and
    "inf", "infinity", "nan" (in any case) or a decimal number with
    optional fraction and exponent, single underscores between digits. *)
Fixpoint digits_tail (s : string) : string :=
  match s with
  | "" => ""
  | String c t =>
      if Py.isdigit c then digits_tail t
      else if Py.eqc c "_"
      then match t with
           | String d t' => if Py.isdigit d then digits_tail t' else s
           | "" => s
           end
      else s
  end.

Definition digitpart (s : string) : option string :=
  match s with
  | String c t => if Py.isdigit c then Some (digits_tail t) else None
  | "" => None
  end.

Definition skip_sign (s : string) : string :=
  match s with
  | String c t => if Py.eqc c "+" || Py.eqc c "-" then t else s
  | "" => s
  end.

(** The text left after an optional exponent; [None] for an exponent with
    no digits. *)
Definition after_exponent (s : string) : option string :=
  match s with
  | String c t => if Py.eqc (Py.lower_char c) "e" then digitpart (skip_sign t) else Some s
  | "" => Some s
  end.

Definition ends_here (s : option string) : bool :=
  match s with Some "" => true | _ => false end.

(** The blanks [float] skips around the numeral of an ASCII text: the
    space and TAB to CR. FS to US, which [str.strip] removes, are not
    among them. *)
Definition float_isspace (c : ascii) : bool :=
  Py.in_range 9 13 c || (Py.code c =? 32)%N.

Fixpoint skip_blanks (s : string) : string :=
  match s with
  | "" => ""
  | String c t => if float_isspace c then skip_blanks t else s
  end.

Definition float_strip (s : string) : string :=
  Py.rev (skip_blanks (Py.rev (skip_blanks s))).

Definition is_float_literal (s : string) : bool :=
  let body := skip_sign (float_strip s) in
  if existsb (String.eqb (Py.lower body)) ["inf"; "infinity"; "nan"] then true
  else
    match digitpart body with
    | Some r =>
        match r with
        | String c t =>
            if Py.eqc c "."
            then ends_here (after_exponent
                              (match digitpart t with Some r' => r' | None => t end))
            else ends_here (after_exponent r)
        | "" => true
        end
    | None =>
        match body with
        | String c t =>
            if Py.eqc c "."
            then match digitpart t with
                 | Some r' => ends_here (after_exponent r')
                 | None => false
                 end
            else false
        | "" => false
        end
    end.

(** [float(int)] overflows from 2^1024 - 2^970 on. *)
Definition int_fits_float (z : Z) : bool :=
  (Z.abs z <? 2 ^ 1024 - 2 ^ 970)%Z.

(** [float(v)] *)
Definition float_of (v : value) : py_float + py_exception :=
  match v with
  | JNull => inr TypeError
  | JBool b => inl (FloatOfBool b)
  | JInt z => if int_fits_float z then inl (FloatOfInt z) else inr OverflowError
  | JFloat f => inl (FloatOfFloat f)
  | JStr s => if is_float_literal s then inl (FloatOfText s) else inr ValueError
  | JList _ | JDict _ => inr TypeError
  end.

(** [v.get(key, default)]: only a dict has the method. *)
Definition get_or (v : value) (key : string) (default : value)
  : value + py_exception :=
  match v with
  | JDict d => inl (match d !! key with Some x => x | None => default end)
  | _ => inr AttributeError
  end.

Section Probe.
(** [json.loads]: [None] stands for [json.JSONDecodeError]. *)
Variable json_loads : string -> option value.

(** [_ffprobe_duration]. [ffprobe_found] is [shutil.which("ffprobe") is not
    None]; [outcome] is what running the probe did. The handlers catch the
    timeout, the decode error, the failed process and [OSError], and
    nothing else. *)
Definition ffprobe_duration (ffprobe_found : bool) (outcome : probe_outcome)
  : duration_result :=
  if negb ffprobe_found then ReturnNone
  else
    match outcome with
    | ProbeTimeoutExpired | ProbeCalledProcessError | ProbeOSError => ReturnNone
    | ProbeCompleted stdout =>
        if (MAX_FFPROBE_OUTPUT_SIZE <? N.of_nat (String.length stdout))%N
        then ReturnNone
        else
          match json_loads stdout with
          | None => ReturnNone
          | Some data =>
              match get_or data "format" (JDict ∅) with
              | inr e => Raises e
              | inl format =>
                  match get_or format "duration" JNull with
                  | inr e => Raises e
                  | inl JNull => ReturnNone
                  | inl dur =>
                      match float_of dur with
                      | inl f => ReturnFloat f
                      | inr e => Raises e
                      end
                  end
              end
          end
    end.

End Probe.

End FfprobeAnalyzer.

(** ** [core/json_repair.py]: repairing the parsed object *)

Module JsonRepair.
Import Re Json.

(** The workspace snapshot: the path strings of each category. *)
Record workspace : Type := Workspace {
  videos : list string;
  audios : list string;
  images : list string;
  subtitle_files : list string
}.

(** [re.sub(pattern, "", s)] for a pattern that cannot match the empty
    string: every match, left to right, is removed. *)
Fixpoint remove_matches_from (fuel : nat) (r : regex) (pv : option ascii) (s : string)
  : string :=
  match fuel with
  | 0 => s
  | S fuel' =>
      let keep_one :=
        match s with
        | "" => ""
        | String c t => String c (remove_matches_from fuel' r (Some c) t)
        end in
      match match_at r pv s with
      | Some m =>
          if (String.length (rest m) <? String.length s)%nat
          then remove_matches_from fuel' r (prev m) (rest m)
          else keep_one
      | None => keep_one
      end
  end.

Definition remove_matches (r : regex) (s : string) : string :=
  remove_matches_from (S (String.length s)) r None s.

(** [patterns_to_remove]: trailing " - text", " (text)", " # text",
    " // text" and " : text". *)
Definition PATTERNS_TO_REMOVE : list regex :=
  [ seqs [star Py.isspace; chr "-"; plus Py.isspace; plus (none_of "/\"); REnd];
    seqs [star Py.isspace; chr "("; plus (none_of ")"); chr ")";
          star Py.isspace; REnd];
    seqs [star Py.isspace; chr "#"; plus (none_of "/\"); REnd];
    seqs [star Py.isspace; lit "//"; plus (none_of "/\"); REnd];
    seqs [star Py.isspace; chr ":"; plus Py.isspace; plus (none_of "/\:"); REnd] ].

(** A dot and two to five word characters at the end. *)
Definition HAS_EXTENSION : regex :=
  seqs [chr "."; RRep true 2 (Some 5) Py.isword; REnd].

(** A run of non-blanks, a dot and two to five word characters. *)
Definition FILENAME_WITH_EXTENSION : regex :=
  RGroup (seqs [plus nonspace; chr "."; RRep true 2 (Some 5) Py.isword]).

(** [Path(p).name] for a POSIX path: the last component that is neither
    empty nor a single dot. *)
Definition path_name (p : string) : string :=
  match last (List.filter (fun part => negb (String.eqb part "" || String.eqb part "."))
                (Py.split "/" p)) with
  | Some name => name
  | None => ""
  end.

(** [_clean_path_string] *)
Definition clean_path_string (path_str : string) (ws : workspace) : string :=
  if negb (Py.nonempty path_str) then path_str
  else
    let original := path_str in
    let path_str := fold_left (fun s pattern => remove_matches pattern s)
                      PATTERNS_TO_REMOVE path_str in
    let path_str :=
      if negb (matches HAS_EXTENSION path_str)
      then match search FILENAME_WITH_EXTENSION original with
           | Some ext_match => JsonText.group1 ext_match
           | None => path_str
           end
      else path_str in
    let path_str_lower := Py.strip (Py.lower path_str) in
    let workspace_lists := [videos ws; audios ws; images ws; subtitle_files ws] in
    match List.find (fun ws_file_str =>
                       String.eqb path_str_lower (Py.lower (path_name ws_file_str))
                       || Py.contains path_str_lower (Py.lower ws_file_str))
            (List.concat workspace_lists) with
    | Some ws_file_str => ws_file_str
    | None => Py.strip path_str
    end.

(** [sanitize_path_values] *)
Definition sanitize_path_field (ws : workspace) (data : dict) (field : string) : dict :=
  match data !! field with
  | Some (JStr value) =>
      if Py.nonempty value
      then let cleaned := clean_path_string value ws in
           if negb (String.eqb cleaned value) then <[field := JStr cleaned]> data
           else data
      else data
  | _ => data
  end.

Definition sanitize_path_values (data : dict) (ws : workspace) : dict :=
  let data := fold_left (sanitize_path_field ws)
                ["output"; "subtitle_path"; "overlay_path"] data in
  match data !! "inputs" with
  | Some (JList inputs) =>
      <["inputs" :=
          JList (map (fun inp => match inp with
                                 | JStr s => JStr (clean_path_string s ws)
                                 | _ => inp
                                 end) inputs)]> data
  | _ => data
  end.

(** The first loop over the list fields. *)
Definition normalize_list_field (repaired : dict) (field : string) : dict :=
  match repaired !! field with
  | None | Some JNull => <[field := JList []]> repaired
  | Some (JList _) => repaired
  | Some v => <[field := JList (if truthy v then [v] else [])]> repaired
  end.

(** The second loop: blank entries leave [filters] and [extra_flags]. *)
Definition keeps (item : value) : bool := truthy item && negb (str_is_blank item).

Definition drop_blank_items (repaired : dict) (field : string) : dict :=
  match repaired !! field with
  | Some (JList items) => <[field := JList (List.filter keeps items)]> repaired
  | _ => repaired
  end.

Definition ACTIONS_NEEDING_INPUTS : list string :=
  ["convert"; "extract_audio"; "compress"; "format_convert"; "trim"; "segment";
   "thumbnail"; "frames"; "extract_frames"; "burn_subtitles"; "extract_subtitles";
   "remove_audio"; "overlay"].

Definition needs_inputs (action : option value) : bool :=
  match action with
  | Some (JStr a) => existsb (String.eqb a) ACTIONS_NEEDING_INPUTS
  | _ => false
  end.

Definition truthy_at (d : dict) (key : string) : bool :=
  match d !! key with Some v => truthy v | None => false end.

Section Repair.
(** The four functions of [core/action_inference.py], which is not among
    the sources. Each of the last three updates the object it is given;
    here it returns the updated object. *)
Variable infer_action_from_query : string -> value.
Variable infer_inputs_from_query : dict -> string -> workspace -> dict.
Variable infer_format_and_codec : dict -> string -> dict.
Variable fix_action_validation_issues : dict -> string -> dict.

(** [repair_json_for_schema] *)
Definition repair_json_for_schema (data : option dict) (user_query : string)
    (ws : workspace) : dict :=
  let data := match data with Some d => d | None => ∅ end in
  let repaired := data in
  let repaired := sanitize_path_values repaired ws in
  let repaired :=
    if negb (truthy_at repaired "action")
    then <["action" := infer_action_from_query user_query]> repaired
    else repaired in
  let repaired := fold_left normalize_list_field
                    ["inputs"; "filters"; "extra_flags"] repaired in
  let repaired := fold_left drop_blank_items ["filters"; "extra_flags"] repaired in
  let repaired :=
    if negb (truthy_at repaired "inputs") && needs_inputs (repaired !! "action")
    then infer_inputs_from_query repaired user_query ws
    else repaired in
  let repaired := infer_format_and_codec repaired user_query in
  fix_action_validation_issues repaired user_query.

End Repair.

(** Membership of the action enumeration: a non-empty name of the list. *)
Definition is_action (actions : list string) (v : option value) : bool :=
  match v with
  | Some (JStr a) => Py.nonempty a && existsb (String.eqb a) actions
  | _ => false
  end.

Definition truthy_opt (v : option value) : bool :=
  match v with Some x => truthy x | None => false end.

(** The action the response came with. *)
Definition given_action (data : option dict) : option value :=
  match data with Some d => d !! "action" | None => None end.

(** A list none of whose items the second loop would drop. *)
Definition blank_free (v : option value) : bool :=
  match v with
  | Some (JList items) => forallb keeps items
  | _ => false
  end.

(** The invariants the steps held by [json_repair.py] establish: the action
    is set, the three list fields are lists, and no blank entry is left in
    [filters] and [extra_flags]. *)
Definition repaired_invariants (d : dict) : bool :=
  truthy_at d "action" && is_list (d !! "inputs")
  && blank_free (d !! "filters") && blank_free (d !! "extra_flags").

(** A step from [d] to [d'] leaves no repaired invariant violated: the
    invariants hold of [d'] where they hold of [d], and an action that is a
    member of the enumeration is followed by one. *)
Definition keeps_invariants (actions : list string) (d d' : dict) : Prop :=
  repaired_invariants d = true ->
  repaired_invariants d' = true
  /\ (is_action actions (d !! "action") = true ->
      is_action actions (d' !! "action") = true).

(** Modelled from the spec: what the four functions of
    [core/action_inference.py], which is not under src/, do to the fields
    the repair establishes. The inferred action is a member of the closed
    enumeration (the keyword mapping ends in a fixed fallback action), and
    none of the three later steps leaves a previously repaired invariant
    violated. What else these steps do to the object, the action included,
    is left open. *)
Record inference_contract (actions : list string)
    (infer_action_from_query : string -> value)
    (infer_inputs_from_query : dict -> string -> workspace -> dict)
    (infer_format_and_codec : dict -> string -> dict)
    (fix_action_validation_issues : dict -> string -> dict) : Prop := {
  inferred_action_is_member :
    forall q, is_action actions (Some (infer_action_from_query q)) = true;
  input_inference_keeps_invariants :
    forall d q ws,
      keeps_invariants actions d (infer_inputs_from_query d q ws);
  format_inference_keeps_invariants :
    forall d q, keeps_invariants actions d (infer_format_and_codec d q);
  post_fix_keeps_invariants :
    forall d q, keeps_invariants actions d (fix_action_validation_issues d q)
}.

(** Modelled from the spec: the closed action enumeration
    ([utils/data_models.py] is not under src/), by the names the spec
    lists. *)
Definition SPEC_ACTIONS : list string :=
  ["convert"; "compress"; "extract_audio"; "trim"; "segment"; "thumbnail";
   "extract_frames"; "burn_subtitles"; "extract_subtitles"; "remove_audio";
   "overlay"; "format_convert"; "merge"].

End JsonRepair.

(** ** [main.py] *)

Module Main.

(** Modelled from the spec: the exception classes of [utils/exceptions.py],
    which is not under src/. Each error kind is a class of its own, directly
    under [MediaLLMError], itself an [Exception]; [Derived] is any further
    subclass of a class. The built-in classes stand where Python has them. *)
Inductive exc_class : Type :=
| BaseException
| KeyboardInterrupt
| SystemExit
| Exception
| OSError
| MediaLLMError
| SecurityError
| ValidationError
| ConfigError
| TranslationError
| ConstructionError
| ExecError
| Derived (name : string) (base : exc_class).

#[global] Instance exc_class_eq_dec : EqDecision exc_class.
Proof. solve_decision. Defined.

(** The class and its ancestors, nearest first. *)
Fixpoint mro (c : exc_class) : list exc_class :=
  c ::
  match c with
  | BaseException => []
  | KeyboardInterrupt | SystemExit | Exception => [BaseException]
  | OSError | MediaLLMError => [Exception; BaseException]
  | SecurityError | ValidationError | ConfigError | TranslationError
  | ConstructionError | ExecError => [MediaLLMError; Exception; BaseException]
  | Derived _ base => mro base
  end.

Definition issubclass (c h : exc_class) : bool :=
  existsb (fun a => bool_decide (a = h)) (mro c).

(** The [except] clauses of [main], in the order of the source, each with
    the code it passes to [sys.exit]. *)
Definition HANDLERS : list (exc_class * Z) :=
  [ (KeyboardInterrupt, 130); (SecurityError, 2); (ValidationError, 3);
    (ConfigError, 4); (TranslationError, 5); (ConstructionError, 6);
    (ExecError, 7); (MediaLLMError, 1); (OSError, 1); (Exception, 1) ]%Z.

(** What the body of the [try] does. *)
Inductive body_outcome : Type :=
| Completed
| Raised (c : exc_class).

Inductive main_result : Type :=
| Returns
| SysExit (exit_code : Z)
| Propagates (c : exc_class).

(** The first clause whose class the raised exception is an instance of. *)
Definition handler_for (c : exc_class) : option (exc_class * Z) :=
  List.find (fun h => issubclass c (fst h)) HANDLERS.

Definition main (body : body_outcome) : main_result :=
  match body with
  | Completed => Returns
  | Raised c =>
      match handler_for c with
      | Some (_, exit_code) => SysExit exit_code
      | None => Propagates c
      end
  end.

(** The error kinds with an exit code of their own. *)
Definition KIND_CODES : list (exc_class * Z) :=
  [ (SecurityError, 2); (ValidationError, 3); (ConfigError, 4);
    (TranslationError, 5); (ConstructionError, 6); (ExecError, 7);
    (KeyboardInterrupt, 130) ]%Z.

End Main.

(** ** Concrete commands and worlds used in the statements *)

Module Scenarios.

Definition baseline_command : list string :=
  ["ffmpeg"; "-i"; "input.mp4"; "-c:v"; "libx264"; "output.mp4"].

(** The semicolon and the shell metacharacters. *)
Definition shell_markers : list string := [";"; "&"; "|"; "`"; "$("; "${"].

(** The filenames of the word-boundary test: each holds the text of a
    dangerous word inside a longer word. *)
Definition embedded_word_filenames : list string :=
  ["arm.mp4"; "formatting.mp4"; "reformat.mp4"; "delete.mp4"; "systemd.mp4"].

(** A world in which every path exists and every executable is installed;
    it records the commands handed to [subprocess.run], latest first, and
    every process exits with code 0. *)
Definition recording_world : Type := list (list string).
Definition everything_exists (w : recording_world) (_ : string) : bool := true.
Definition run_and_record (w : recording_world) (cmd : list string)
  : CommandExecutor.run_outcome * recording_world :=
  (CommandExecutor.RunCompleted, cmd :: w).

(** A session in which the input file of the plan is missing and the LLM
    answers every retry with the same plan; the executor, when called,
    reports success. *)
Definition missing_input_commands : list (list string) :=
  [["ffmpeg"; "-i"; "missing.mp4"; "out.mp4"]].
Definition nothing_exists (_ : unit) (_ : string) : bool := false.
Definition quick_run_ok (w : unit) (_ : list string)
  : CommandRetry.quick_outcome * unit := (CommandRetry.QuickExit 0 "", w).
Definition same_plan_again (w : unit) (_ : string)
  : option (list (list string) * unit) * unit :=
  (Some (missing_input_commands, tt), w).
Definition executor_reports_success (w : unit) (_ : list (list string))
  : CommandRetry.executor_outcome * unit := (CommandRetry.Returned 0, w).

(** A session in which every execution fails with the same diagnostic. *)
Definition executor_fails (w : unit) (_ : list (list string))
  : CommandRetry.executor_outcome * unit :=
  (CommandRetry.RaisedExecError "Unknown encoder", w).
Definition everything_is_there (_ : unit) (_ : string) : bool := true.

(** A session over a world that counts the calls of the LLM: the first
    regeneration answers with a command that is not an ffmpeg command, the
    second yields nothing. *)
Definition counting_exists (_ : nat) (_ : string) : bool := true.
Definition counting_quick_run (w : nat) (_ : list string)
  : CommandRetry.quick_outcome * nat := (CommandRetry.QuickExit 0 "", w).
Definition answers_once (w : nat) (_ : string)
  : option (list (list string) * unit) * nat :=
  match w with
  | 0 => (Some ([["convert"; "in.mp4"; "out.mp4"]], tt), 1)
  | S _ => (None, S w)
  end.
Definition counting_executor_fails (w : nat) (_ : list (list string))
  : CommandRetry.executor_outcome * nat :=
  (CommandRetry.RaisedExecError "Unknown encoder", w).

(** Stand-ins for the functions of [core/action_inference.py]: the fallback
    action for every request, the first video of the workspace as the input,
    and no change of format, codec or parameters. *)
Definition always_convert (_ : string) : Json.value := Json.JStr "convert".
Definition first_video_as_input (d : Json.dict) (_ : string)
    (ws : JsonRepair.workspace) : Json.dict :=
  <["inputs" := Json.JList (map Json.JStr (take 1 (JsonRepair.videos ws)))]> d.
Definition no_change (d : Json.dict) (_ : string) : Json.dict := d.

(** A post-fix that settles every object on the fallback action. *)
Definition action_becomes_convert (d : Json.dict) (_ : string) : Json.dict :=
  <["action" := Json.JStr "convert"]> d.

Definition one_video_workspace : JsonRepair.workspace :=
  JsonRepair.Workspace ["video.mp4"] [] [] [].

(** A response whose action is outside the enumeration. *)
Definition unlisted_action_response : Json.dict :=
  {[ "action" := Json.JStr "explode" ]}.

(** A response with a null list, a scalar for a list and a blank filter. *)
Definition malformed_lists_response : Json.dict :=
  <["inputs" := Json.JNull]>
    (<["filters" := Json.JStr "   "]>
       (<["extra_flags" := Json.JList [Json.JStr "-an"; Json.JStr ""; Json.JStr " "]]> ∅)).

(** The output of a probe that reports no duration, and its parse. *)
Definition dq : string := String (ascii_of_nat 34) "".
Definition na_probe_stdout : string :=
  "{" +:+ dq +:+ "format" +:+ dq +:+ ": {" +:+ dq +:+ "duration" +:+ dq +:+ ": "
  +:+ dq +:+ "N/A" +:+ dq +:+ "}}".
Definition na_probe_data : Json.value :=
  Json.JDict {[ "format" := Json.JDict {[ "duration" := Json.JStr "N/A" ]} ]}.
Definition loads_na_probe (s : string) : option Json.value :=
  if String.eqb s na_probe_stdout then Some na_probe_data else None.

End Scenarios.

(** ** [processing/command_executor.py]: previewing and dispatching a run *)

Module ExecutorDispatch.
Import CommandExecutor.

(** [format_command] *)
Definition format_command (cmd : list string) : string := Py.join " " cmd.

(** A row of the preview table. The output column holds the text of the
    path that [extract_output_path] returns, or "N/A". *)
Record preview_row : Type := PreviewRow {
  row_number : nat;
  row_command : string;
  row_output : string;
  row_status : string
}.

(** What [run] prints, besides what the batch prints. *)
Inductive run_output : Type :=
| ShowNoCommandsToPreview
| ShowNoCommandsToExecute
| ShowPreview (rows : list preview_row)
| ShowDryRun
| ShowCancelledByUser
| ShowBatch (ev : console_event).

(** [_detect_command_changes] *)
Definition detect_command_changes (original_cmd modified_cmd : list string)
  : list string :=
  if existsb (String.eqb "-y") modified_cmd
     && negb (existsb (String.eqb "-y") original_cmd)
  then ["[yellow]Added -y[/yellow]"] else [].

Section Dispatch.
Context {World : Type}.
Variable path_exists : World -> string -> bool.
Variable which : World -> string -> bool.
Variable subprocess_run : World -> list string -> run_outcome * World.

(** [_populate_preview_table]: rows are numbered from [idx]. *)
Fixpoint preview_rows (w : World) (idx : nat) (commands : list (list string))
  : list preview_row :=
  match commands with
  | [] => []
  | cmd :: rest =>
      let output_path := extract_output_path cmd in
      let output_display :=
        match output_path with
        | Some p => p
        | None => "N/A"
        end in
      let status :=
        match output_path with
        | None => "New"
        | Some p => if negb (path_exists w p) then "New" else "Overwrite"
        end in
      PreviewRow idx (format_command cmd) output_display status
        :: preview_rows w (S idx) rest
  end.

(** [preview] *)
Definition preview (w : World) (commands : list (list string)) : list run_output :=
  match commands with
  | [] => [ShowNoCommandsToPreview]
  | _ => [ShowPreview (preview_rows w 1 commands)]
  end.

(** [run] *)
Definition run (w : World) (commands : list (list string))
    (confirm dry_run show_preview assume_yes : bool)
  : (Z + exn) * list run_output * World :=
  match commands with
  | [] => (inl 0%Z, [ShowNoCommandsToExecute], w)
  | _ =>
      let shown := if show_preview then preview w commands else [] in
      if dry_run then (inl 0%Z, shown ++ [ShowDryRun], w)
      else if negb confirm then (inl 0%Z, shown ++ [ShowCancelledByUser], w)
      else
        let '(r, out, w') := execute_commands which subprocess_run w commands assume_yes in
        (r, shown ++ map ShowBatch out, w')
  end.

End Dispatch.

(** A world that also keeps the list of the commands handed to
    [subprocess.run], oldest first. *)
Definition recording {World : Type}
    (subprocess_run : World -> list string -> run_outcome * World)
    (s : World * list (list string)) (cmd : list string)
  : run_outcome * (World * list (list string)) :=
  let '(out, w') := subprocess_run (fst s) cmd in
  (out, (w', snd s ++ [cmd])).

Definition on_world {World A : Type} (f : World -> A)
    (s : World * list (list string)) : A := f (fst s).

End ExecutorDispatch.

(** ** Parts of texts, counts of events and shapes of paths

    The notions the further properties below are stated with. *)

Module TextParts.

(** [x] is a contiguous part of [s]. *)
Definition part_of (x s : string) : Prop := exists pre post, s = pre +:+ x +:+ post.

(** The text after a position is an end of the text before it. *)
Definition end_of (t s : string) : Prop := exists x, s = x +:+ t.

(** [b] stands somewhere after an [a]. *)
Definition pair_in (a b : ascii) (s : string) : Prop :=
  exists pre mid post, s = pre +:+ String a (mid +:+ String b post).

(** The group of a state is a part of the subject [s], when it is set. *)
Definition group_in (s : string) (g : option string) : Prop :=
  match g with Some x => part_of x s | None => True end.

(** Every character of the text satisfies [P]. *)
Fixpoint all_chars (P : ascii -> bool) (s : string) : bool :=
  match s with
  | "" => true
  | String c t => P c && all_chars P t
  end.

(** Every character of the text is a lower-case letter. *)
Fixpoint all_lower (m : string) : bool :=
  match m with
  | "" => true
  | String c t => Py.islower c && all_lower t
  end.

(** The character before the position reached after reading [pre]. *)
Fixpoint prev_after (pv : option ascii) (pre : string) : option ascii :=
  match pre with
  | "" => pv
  | String c t => prev_after (Some c) t
  end.

End TextParts.

Module RetryCounts.
Import CommandRetry.

(** The requests for a new plan in a trace. *)
Definition is_regeneration (ev : event) : bool :=
  match ev with EvRegenerate _ _ _ => true | _ => false end.

Definition regenerations (trace : list event) : list event :=
  List.filter is_regeneration trace.

Definition below_bound (attempts : list nat) : nat :=
  List.length (List.filter (fun a => a <? MAX_RETRY_ATTEMPTS)%nat attempts).

End RetryCounts.

Module PathShapes.
Import Re Json JsonRepair.

(** A character of a plain file name: no blank, and none of the
    characters that open a trailing comment without a blank. *)
Definition plain_char (c : ascii) : bool :=
  negb (Py.isspace c) && none_of "(#/" c.

(** The lists of the workspace, in the order [_clean_path_string] walks
    them. *)
Definition workspace_files (ws : workspace) : list string :=
  videos ws ++ audios ws ++ images ws ++ subtitle_files ws.

(** The test [_clean_path_string] applies to each workspace file. *)
Definition resolves_to (path_str_lower ws_file_str : string) : bool :=
  String.eqb path_str_lower (Py.lower (path_name ws_file_str))
  || Py.contains path_str_lower (Py.lower ws_file_str).

(** What [sanitize_path_values] does to one item of [inputs]. *)
Definition clean_item (ws : workspace) (inp : value) : value :=
  match inp with
  | JStr s => JStr (clean_path_string s ws)
  | _ => inp
  end.

End PathShapes.

(** ** [api.py] *)

Module Api.

(** An exception raised by code outside [api.py], by what [api.py] asks of
    it: its text, its [error] attribute where it has one, and the class
    tests of the [except] clauses. *)
Record foreign : Type := ForeignExc {
  text : string;
  error_attr : option string;
  is_response_error : bool;
  is_connect_error : bool;
  is_timeout_exception : bool;
  is_import_error : bool;
  is_translation_error : bool;
  is_validation_error : bool;
  is_config_error : bool;
  is_exception : bool
}.

(** The exceptions that leave a method of [MediaLLM]: one that came from
    outside, or one the file raises itself, with the exception it was
    raised from. [UnboundLocalError] is what reading a local name that was
    never bound raises. *)
#[local] Set Warnings "-register-all".
Inductive exception : Type :=
| Foreign (e : foreign)
| NewValidationError (message : string)
| NewConfigError (message : string) (cause : exception)
| NewRuntimeError (message : string) (cause : option exception)
| NewUnboundLocalError (name : string) (context : exception).
#[local] Set Warnings "register-all".

(** The class tests of [generate_plan]. An exception the file raised
    itself is of the class it was built with; [RuntimeError] and
    [UnboundLocalError] are built-in subclasses of [Exception]. *)
Definition isinstance_translation (e : exception) : bool :=
  match e with Foreign f => is_translation_error f | _ => false end.

Definition isinstance_validation (e : exception) : bool :=
  match e with
  | Foreign f => is_validation_error f
  | NewValidationError _ => true
  | _ => false
  end.

Definition isinstance_config (e : exception) : bool :=
  match e with
  | Foreign f => is_config_error f
  | NewConfigError _ _ => true
  | _ => false
  end.

Definition isinstance_exception (e : exception) : bool :=
  match e with
  | Foreign f => is_exception f
  | _ => true
  end.

(** The calls that leave [api.py], each with whether it returned. *)
Inductive event (W : Type) : Type :=
| EvDiscover (cwd : string) (returned : bool)
| EvImport (returned : bool)
| EvAdapter (host model_name : string) (returned : bool)
| EvParse (request : string) (workspace : W) (timeout : Z) (returned : bool)
| EvDispatch (allowed_dirs : list string) (output_dir : option string) (returned : bool)
| EvConstruct (assume_yes : bool) (returned : bool).
Arguments EvDiscover {W}.
Arguments EvImport {W}.
Arguments EvAdapter {W}.
Arguments EvParse {W}.
Arguments EvDispatch {W}.
Arguments EvConstruct {W}.

(** The fields of a [MediaLLM] object. *)
Record media_llm (W L : Type) : Type := MediaLLM {
  working_dir : string;
  timeout : Z;
  workspace : option W;
  llm : option L;
  ollama_host : string;
  model_name : string
}.
Arguments MediaLLM {W L}.
Arguments working_dir {W L}.
Arguments timeout {W L}.
Arguments workspace {W L}.
Arguments llm {W L}.
Arguments ollama_host {W L}.
Arguments model_name {W L}.

(** A path or text argument that may be [None]: [x if x else default]. *)
Definition or_default (x : option string) (default : string) : string :=
  match x with
  | Some d => if Py.nonempty d then d else default
  | None => default
  end.

Definition truthy_path (x : option string) : option string :=
  match x with
  | Some d => if Py.nonempty d then Some d else None
  | None => None
  end.

Section Methods.
Context {World W L Intent Plan : Type}.

(** The object, the world outside and the calls made so far. *)
Definition state : Type := media_llm W L * World * list (event W).

(** A method: it returns or raises, and leaves a state. *)
Definition M (A : Type) : Type := state -> (A + exception) * state.

Definition ret {A : Type} (a : A) : M A := fun s => (inl a, s).
Definition raise {A : Type} (e : exception) : M A := fun s => (inr e, s).
Definition bind {A B : Type} (m : M A) (f : A -> M B) : M B :=
  fun s => match m s with
           | (inl a, s') => f a s'
           | (inr e, s') => (inr e, s')
           end.
Definition try_except {A : Type} (m : M A) (handler : exception -> M A) : M A :=
  fun s => match m s with
           | (inr e, s') => handler e s'
           | r => r
           end.

Local Notation "'let*' x ':=' m 'in' k" := (bind m (fun x => k))
  (at level 10, x name, m at level 100, k at level 200, only parsing).

Definition self : M (media_llm W L) := fun s => (inl (fst (fst s)), s).
Definition update (f : media_llm W L -> media_llm W L) : M unit :=
  fun '(obj, w, tr) => (inl tt, (f obj, w, tr)).

(** A call of a function of another module. *)
Definition call {A : Type} (f : World -> (A + foreign) * World)
    (ev : bool -> event W) : M A :=
  fun '(obj, w, tr) =>
    match f w with
    | (inl a, w') => (inl a, (obj, w', tr ++ [ev true]))
    | (inr e, w') => (inr (Foreign e), (obj, w', tr ++ [ev false]))
    end.

Variable discover_media : string -> World -> (W + foreign) * World.
(** [import ollama as ollama_module] *)
Variable import_ollama : World -> (unit + foreign) * World.
(** [LLM(OllamaAdapter(host=..., model_name=...))] *)
Variable new_llm : string -> string -> World -> (L + foreign) * World.
Variable parse_query : L -> string -> W -> Z -> World -> (Intent + foreign) * World.
Variable dispatch_task :
  Intent -> list string -> option string -> World -> (Plan + foreign) * World.
Variable construct_operations :
  Plan -> bool -> World -> (list (list string) + foreign) * World.
(** [str(e)] of the [UnboundLocalError]; its wording depends on the
    version of Python. *)
Variable unbound_local_text : string.

(** [str(e)] *)
Definition str_of (e : exception) : string :=
  match e with
  | Foreign f => text f
  | NewValidationError m | NewConfigError m _ | NewRuntimeError m _ => m
  | NewUnboundLocalError _ _ => unbound_local_text
  end.

(** [get_workspace] *)
Definition get_workspace : M W :=
  let* obj := self in
  match workspace obj with
  | None =>
      raise (NewRuntimeError
               ("Workspace not scanned. Call scan_workspace() first, or pass "
                +:+ "a workspace dict to the constructor.") None)
  | Some ws => ret ws
  end.

(** [scan_workspace] *)
Definition scan_workspace (directory : option string) : M W :=
  let* obj := self in
  let scan_dir := or_default directory (working_dir obj) in
  let* ws := call (discover_media scan_dir) (EvDiscover scan_dir) in
  let* _ := update (fun obj => MediaLLM (working_dir obj) (timeout obj) (Some ws)
                                 (llm obj) (ollama_host obj) (model_name obj)) in
  ret ws.

(** [_ensure_workspace] *)
Definition ensure_workspace : M W :=
  let* obj := self in
  match workspace obj with
  | None =>
      let* ws := call (discover_media (working_dir obj)) (EvDiscover (working_dir obj)) in
      let* _ := update (fun obj => MediaLLM (working_dir obj) (timeout obj) (Some ws)
                                     (llm obj) (ollama_host obj) (model_name obj)) in
      ret ws
  | Some ws => ret ws
  end.

(** The [except] clauses of [_initialize_llm], for an exception raised
    after [ollama_module] was bound. *)
Definition initialize_llm_handler (ollama_host model_name : string)
    (e : exception) : M L :=
  match e with
  | Foreign f =>
      if is_response_error f
      then let error_msg := match error_attr f with
                            | Some err => err
                            | None => text f
                            end in
           raise (NewConfigError
                    ("Ollama model error: " +:+ error_msg +:+ ". "
                     +:+ "Please verify the model is installed: ollama pull "
                     +:+ model_name) e)
      else if is_connect_error f
      then raise (NewConfigError
                    ("Cannot connect to Ollama at " +:+ ollama_host +:+ ". "
                     +:+ "Please ensure Ollama is running: ollama serve") e)
      else if is_timeout_exception f
      then raise (NewConfigError
                    ("Ollama connection timed out at " +:+ ollama_host +:+ ". "
                     +:+ "Please check your network connection and Ollama status.") e)
      else if is_import_error f
      then raise (NewConfigError
                    "Ollama package not installed. Please install it: pip install ollama"
                    e)
      else if is_exception f
      then raise (NewRuntimeError
                    ("Failed to initialize Ollama provider: " +:+ text f +:+ ". "
                     +:+ "Please ensure Ollama is running: ollama serve") (Some e))
      else raise e
  | _ => raise e
  end.

(** [_initialize_llm]. The import stands inside the [try]; where it raises,
    [ollama_module] is unbound when the first clause,
    [except ollama_module.ResponseError], is evaluated, and that raises
    [UnboundLocalError] in place of looking at the later clauses. *)
Definition initialize_llm (ollama_host model_name : string) : M L :=
  fun s =>
    match call import_ollama EvImport s with
    | (inr e, s') => (inr (NewUnboundLocalError "ollama_module" e), s')
    | (inl _, s') =>
        try_except (call (new_llm ollama_host model_name)
                      (EvAdapter ollama_host model_name))
          (initialize_llm_handler ollama_host model_name) s'
    end.

(** [_validate_request] *)
Definition validate_request (request : string) : M unit :=
  if negb (Py.nonempty request) || negb (Py.nonempty (Py.strip request))
  then raise (NewValidationError "Request cannot be empty")
  else if (10000 <? N.of_nat (String.length request))%N
  then raise (NewValidationError "Request too long (max 10000 characters)")
  else ret tt.

(** [_get_llm] *)
Definition get_llm : M L :=
  let* obj := self in
  match llm obj with
  | None =>
      let* l := initialize_llm (ollama_host obj) (model_name obj) in
      let* _ := update (fun obj => MediaLLM (working_dir obj) (timeout obj)
                                     (workspace obj) (Some l) (ollama_host obj)
                                     (model_name obj)) in
      ret l
  | Some l => ret l
  end.

(** The [except] clauses of [generate_plan]. *)
Definition generate_plan_handler (request : string) (e : exception) : M Plan :=
  if isinstance_translation e then raise e
  else if isinstance_validation e || isinstance_config e then raise e
  else if isinstance_exception e
  then raise (NewRuntimeError
                ("Failed to generate plan for request: '" +:+ Py.take 100 request
                 +:+ "...'. Error: " +:+ str_of e) (Some e))
  else raise e.

(** [generate_plan] *)
Definition generate_plan (request : string) (output_dir : option string) : M Plan :=
  let* _ := validate_request request in
  try_except
    (let* ws := ensure_workspace in
     let* l := get_llm in
     let* obj := self in
     let* intent := call (parse_query l request ws (timeout obj))
                      (EvParse request ws (timeout obj)) in
     let allowed_dirs := [working_dir obj] in
     call (dispatch_task intent allowed_dirs (truthy_path output_dir))
       (EvDispatch allowed_dirs (truthy_path output_dir)))
    (generate_plan_handler request).

(** [generate_commands] *)
Definition generate_commands (request : string) (assume_yes : bool)
    (output_dir : option string) : M (list (list string)) :=
  let* plan := generate_plan request output_dir in
  call (construct_operations plan assume_yes) (EvConstruct assume_yes).

(** A use of the object by a caller that goes on after an exception. *)
Inductive api_call : Type :=
| GeneratePlan (request : string) (output_dir : option string)
| GenerateCommands (request : string) (assume_yes : bool) (output_dir : option string)
| GetWorkspace
| WorkspaceProperty
| ScanWorkspace (directory : option string).

Definition perform (c : api_call) (s : state) : state :=
  match c with
  | GeneratePlan request output_dir => snd (generate_plan request output_dir s)
  | GenerateCommands request assume_yes output_dir =>
      snd (generate_commands request assume_yes output_dir s)
  | GetWorkspace => snd (get_workspace s)
  | WorkspaceProperty => snd (ensure_workspace s)
  | ScanWorkspace directory => snd (scan_workspace directory s)
  end.

Definition session (calls : list api_call) (s : state) : state :=
  fold_left (fun s c => perform c s) calls s.

Definition is_scan (c : api_call) : bool :=
  match c with ScanWorkspace _ => true | _ => false end.

(** The scans and the constructions of the model that returned, and the
    workspaces handed to the model. *)
Definition scans (tr : list (event W)) : list (event W) :=
  List.filter (fun ev => match ev with EvDiscover _ true => true | _ => false end) tr.

Definition constructions (tr : list (event W)) : list (event W) :=
  List.filter (fun ev => match ev with EvAdapter _ _ true => true | _ => false end) tr.

Fixpoint parsed_workspaces (tr : list (event W)) : list W :=
  match tr with
  | [] => []
  | EvParse _ ws _ _ :: later => ws :: parsed_workspaces later
  | _ :: later => parsed_workspaces later
  end.

(** What the caches and the calls made so far have to do with each
    other. *)
Definition workspace_cache_ok (s : state) : Prop :=
  let '(obj, _, tr) := s in
  match workspace obj with
  | None => scans tr = [] /\ parsed_workspaces tr = []
  | Some ws => List.length (scans tr) <= 1 /\ Forall (fun x => x = ws) (parsed_workspaces tr)
  end.

Definition llm_cache_ok (s : state) : Prop :=
  let '(obj, _, tr) := s in
  match llm obj with
  | None => constructions tr = []
  | Some _ => List.length (constructions tr) <= 1
  end.

(** What one use of the object, other than [scan_workspace], does to the
    caches, and which calls it adds. *)
Definition step_effect (s s' : state) : Prop :=
  let '(obj, _, tr) := s in
  let '(obj', _, tr') := s' in
  exists added,
    tr' = tr ++ added
    /\ match workspace obj with
       | Some ws =>
           workspace obj' = Some ws /\ scans added = []
           /\ Forall (fun x => x = ws) (parsed_workspaces added)
       | None =>
           (workspace obj' = None /\ scans added = [] /\ parsed_workspaces added = [])
           \/ (exists ws ev, workspace obj' = Some ws /\ scans added = [ev]
                            /\ Forall (fun x => x = ws) (parsed_workspaces added))
       end
    /\ match llm obj with
       | Some l => llm obj' = Some l /\ constructions added = []
       | None =>
           (llm obj' = None /\ constructions added = [])
           \/ (exists l ev, llm obj' = Some l /\ constructions added = [ev])
       end.

(** The request passes [_validate_request]. *)
Definition valid_request (request : string) : bool :=
  Py.nonempty (Py.strip request) && (N.of_nat (String.length request) <=? 10000)%N.

End Methods.

End Api.

(** Stand-ins for the functions [api.py] calls, to run its methods on. *)
Module ApiScenarios.
Import Api.

(** What [import ollama] raises where the package is not installed. *)
Definition module_not_found : foreign :=
  ForeignExc "No module named 'ollama'" None false false false true false false false true.

(** An [Exception] of no class the clauses name. *)
Definition broken_pipe : foreign :=
  ForeignExc "broken pipe" None false false false false false false false true.

Definition finds_one_video (cwd : string) (w : unit) : (list string + foreign) * unit :=
  (inl [cwd +:+ "/a.mp4"], w).
Definition import_works (w : unit) : (unit + foreign) * unit := (inl tt, w).
Definition import_fails (w : unit) : (unit + foreign) * unit := (inr module_not_found, w).
Definition model_named (host model_name : string) (w : unit) : (string + foreign) * unit :=
  (inl model_name, w).
Definition parse_echoes (l request : string) (ws : list string) (timeout : Z) (w : unit)
  : (string + foreign) * unit := (inl request, w).
Definition parse_breaks (l request : string) (ws : list string) (timeout : Z) (w : unit)
  : (string + foreign) * unit := (inr broken_pipe, w).
Definition dispatch_echoes (intent : string) (allowed_dirs : list string)
    (output_dir : option string) (w : unit) : (string + foreign) * unit :=
  (inl intent, w).
Definition one_command (plan : string) (assume_yes : bool) (w : unit)
  : (list (list string) + foreign) * unit :=
  (inl [["ffmpeg"; "-i"; "a.mp4"; "a.gif"]], w).

(** A fresh object, as [MediaLLM()] builds it in the directory "/media". *)
Definition fresh : media_llm (list string) string :=
  MediaLLM "/media" 60 None None "http://localhost:11434" "llama3.1:latest".

(** An object that was given its workspace. *)
Definition with_workspace : media_llm (list string) string :=
  MediaLLM "/media" 60 (Some ["/media/a.mp4"]) None
    "http://localhost:11434" "llama3.1:latest".

End ApiScenarios.

(** ** [analysis/ffprobe_analyzer.py]: the directory scan *)

Module MediaScan.
Import Json FfprobeAnalyzer.

(** One entry of the [info] list. *)
Record media_info : Type := MediaInfo {
  info_path : string;
  info_size : option Z;
  info_duration : option py_float
}.

(** The dictionary [discover_media_extended] returns. *)
Record scan : Type := Scan {
  scan_cwd : string;
  scan_videos : list string;
  scan_audios : list string;
  scan_images : list string;
  scan_info : list media_info
}.

Section Discover.
Variable json_loads : string -> option value.
(** [shutil.which("ffprobe") is not None] *)
Variable ffprobe_found : bool.
(** What running the probe on a path does. *)
Variable probe : string -> probe_outcome.
(** [p.suffix.lower()] *)
Variable suffix_lower : string -> string.
(** [p.stat().st_size if p.exists() else None] *)
Variable size_of : string -> option Z.
(** [MEDIA_EXTS], of [constants/media_formats.py]. *)
Variable video_exts audio_exts image_exts : list string.
(** [Path.cwd()] *)
Variable current_dir : string.

Definition has_ext (exts : list string) (p : string) : bool :=
  existsb (String.eqb (suffix_lower p)) exts.

(** The list comprehension that builds [info]: the first duration that
    raises ends it. *)
Fixpoint build_info (paths : list string) : list media_info + py_exception :=
  match paths with
  | [] => inl []
  | p :: later =>
      let size := size_of p in
      match ffprobe_duration json_loads ffprobe_found (probe p) with
      | Raises e => inr e
      | ReturnNone =>
          match build_info later with
          | inl infos => inl (MediaInfo p size None :: infos)
          | inr e => inr e
          end
      | ReturnFloat f =>
          match build_info later with
          | inl infos => inl (MediaInfo p size (Some f) :: infos)
          | inr e => inr e
          end
      end
  end.

(** [discover_media_extended]. [entries] is [base.iterdir()], each path
    with its [is_file()]. *)
Definition discover_media_extended (cwd : option string)
    (entries : list (string * bool)) : scan + py_exception :=
  let base := match cwd with Some c => c | None => current_dir end in
  let files := map fst (List.filter snd entries) in
  let videos := List.filter (has_ext video_exts) files in
  let audios := List.filter (has_ext audio_exts) files in
  let images := List.filter (has_ext image_exts) files in
  match build_info (videos ++ audios) with
  | inl info => inl (Scan base videos audios images info)
  | inr e => inr e
  end.

(** Reading the duration of the file raises. *)
Definition duration_raises (p : string) : bool :=
  match ffprobe_duration json_loads ffprobe_found (probe p) with
  | Raises _ => true
  | _ => false
  end.

End Discover.

End MediaScan.

(** Stand-ins to run the scan on. *)
Module MediaScanScenarios.
Import FfprobeAnalyzer.

(** The lower-cased text from the last dot on. *)
Definition from_last_dot (p : string) : string :=
  Py.lower (Py.drop (Z.to_nat (Py.rfind "." p)) p).

Definition na_probe (p : string) : probe_outcome :=
  ProbeCompleted Scenarios.na_probe_stdout.

Definition timed_out_probe (p : string) : probe_outcome := ProbeTimeoutExpired.

Definition no_size (p : string) : option Z := None.

Definition directory : list (string * bool) :=
  [("cover.png", true); ("clips", false); ("talk.MP4", true); ("song.mp3", true)].

End MediaScanScenarios.

(** ** The size of the retry prompt *)

Module PromptSize.

(** The length of the lines joined by a one-character separator, plus
    one. *)
Fixpoint weight (lines : list string) : nat :=
  match lines with
  | [] => 0
  | line :: later => S (String.length line) + weight later
  end.

(** The text [_build_retry_prompt] puts around the prompt and the
    summary. *)
Definition RETRY_PROMPT_FRAME : nat :=
  String.length (CommandRetry.build_retry_prompt "" "").

End PromptSize.

(** * Facts about the string operations and the matcher *)

Module PyFacts.

(** Membership in a list given by its elements. *)
Ltac in_list := vm_compute; repeat constructor.

Lemma eqc_true (a b : ascii) : Py.eqc a b = true <-> a = b.
Proof.
  unfold Py.eqc, Py.code. rewrite N.eqb_eq. split; [|by intros ->].
  intros H. rewrite <- (ascii_N_embedding a), <- (ascii_N_embedding b).
  by rewrite H.
Qed.

Lemma eqc_refl (a : ascii) : Py.eqc a a = true.
Proof. by apply eqc_true. Qed.

Lemma append_cons (x : ascii) (a b : string) :
  String x a +:+ b = String x (a +:+ b).
Proof. reflexivity. Qed.

Lemma append_nil_l (a : string) : "" +:+ a = a.
Proof. reflexivity. Qed.

Lemma append_assoc (a b c : string) : (a +:+ b) +:+ c = a +:+ (b +:+ c).
Proof.
  induction a as [|x a IH]; [done|]. by rewrite !append_cons, IH.
Qed.

Lemma append_nil_r (a : string) : a +:+ "" = a.
Proof.
  induction a as [|x a IH]; [done|]. by rewrite append_cons, IH.
Qed.

Lemma startswith_app (p t : string) : Py.startswith (p +:+ t) p = true.
Proof.
  induction p as [|a p IH]; [reflexivity|].
  rewrite append_cons. simpl. by rewrite eqc_refl, IH.
Qed.

Lemma startswith_inv (s p : string) :
  Py.startswith s p = true -> exists t, s = p +:+ t.
Proof.
  revert s. induction p as [|a p IH]; intros s H.
  - by exists s.
  - destruct s as [|b s]; [done|]. simpl in H.
    apply andb_true_iff in H as [Hab Hs].
    apply eqc_true in Hab as ->. destruct (IH _ Hs) as [t ->]. by exists t.
Qed.

Lemma contains_unfold (n h : string) :
  Py.contains n h =
  Py.startswith h n || match h with "" => false | String _ t => Py.contains n t end.
Proof. by destruct h. Qed.

Lemma contains_intro (pre n post : string) :
  Py.contains n (pre +:+ n +:+ post) = true.
Proof.
  induction pre as [|a pre IH].
  - rewrite append_nil_l, contains_unfold. by rewrite startswith_app.
  - rewrite append_cons, contains_unfold, IH. by rewrite orb_true_r.
Qed.

Lemma contains_inv (n h : string) :
  Py.contains n h = true -> exists pre post, h = pre +:+ n +:+ post.
Proof.
  induction h as [|a h IH]; rewrite contains_unfold; intros H.
  - rewrite orb_false_r in H. apply startswith_inv in H as [t ->].
    by exists "", t.
  - apply orb_true_iff in H as [H|H].
    + apply startswith_inv in H as [t Ht]. exists "", t. by rewrite Ht.
    + destruct (IH H) as (pre & post & ->). by exists (String a pre), post.
Qed.

Lemma join_cons (sep b c : string) (l : list string) :
  Py.join sep (b :: c :: l) = b +:+ sep +:+ Py.join sep (c :: l).
Proof. reflexivity. Qed.

Lemma join_elem (sep a : string) (l : list string) :
  a ∈ l -> exists pre post, Py.join sep l = pre +:+ a +:+ post.
Proof.
  induction l as [|b l IH]; intros Hin; [by apply elem_of_nil in Hin|].
  apply elem_of_cons in Hin as [->|Hin].
  - destruct l as [|c l].
    + exists "", "". by rewrite append_nil_r.
    + by exists "", (sep +:+ Py.join sep (c :: l)).
  - destruct (IH Hin) as (pre & post & E).
    destruct l as [|c l]; [by apply elem_of_nil in Hin|].
    exists (b +:+ sep +:+ pre), post.
    by rewrite join_cons, E, !append_assoc.
Qed.

Lemma contains_join (m a sep : string) (l : list string) :
  Py.contains m a = true -> a ∈ l -> Py.contains m (Py.join sep l) = true.
Proof.
  intros Hm Hin.
  apply contains_inv in Hm as (p1 & q1 & ->).
  destruct (join_elem sep _ _ Hin) as (p2 & q2 & ->).
  replace (p2 +:+ (p1 +:+ m +:+ q1) +:+ q2)
    with ((p2 +:+ p1) +:+ m +:+ (q1 +:+ q2)) by (by rewrite !append_assoc).
  apply contains_intro.
Qed.

End PyFacts.

Module ReFacts.
Import Re PyFacts.

Lemma search_from_app (r : regex) (pre s : string) (pv : option ascii) :
  (forall pv', is_Some (match_at r pv' s)) ->
  is_Some (search_from r pv (pre +:+ s)).
Proof.
  intros H. revert pv. induction pre as [|a pre IH]; intros pv.
  - rewrite append_nil_l. destruct (H pv) as [st Hst].
    destruct s; simpl; rewrite Hst; by eexists.
  - rewrite append_cons. simpl.
    destruct (match_at r pv (String a (pre +:+ s))); [by eexists|]. apply IH.
Qed.

Lemma rmatch_chr (c : ascii) (pv : option ascii) (t : string) g k :
  rmatch (chr c) (MState pv (String c t) g) k = k (MState (Some c) t g).
Proof. simpl. by rewrite eqc_refl. Qed.

Lemma rmatch_lit (m : string) :
  forall pv t g k, exists pv',
    rmatch (lit m) (MState pv (m +:+ t) g) k = k (MState pv' t g).
Proof.
  induction m as [|c m IH]; intros pv t g k.
  - by exists pv.
  - destruct m as [|d m].
    + exists (Some c). apply rmatch_chr.
    + destruct (IH (Some c) t g k) as [pv' E]. exists pv'.
      change (lit (String c (String d m))) with (RSeq (chr c) (lit (String d m))).
      change (rmatch (RSeq (chr c) (lit (String d m)))
                (MState pv (String c (String d m) +:+ t) g) k)
        with (rmatch (chr c) (MState pv (String c (String d m +:+ t)) g)
                (fun st' => rmatch (lit (String d m)) st' k)).
      by rewrite rmatch_chr.
Qed.

(** A literal pattern finds every occurrence of its text. *)
Lemma matches_lit (m s : string) :
  Py.contains m s = true -> matches (lit m) s = true.
Proof.
  intros H. apply contains_inv in H as (pre & post & ->).
  unfold matches, search.
  destruct (search_from_app (lit m) pre (m +:+ post) None) as [st ->]; [|done].
  intros pv. unfold match_at.
  destruct (rmatch_lit m pv post None Some) as [pv' ->]. by eexists.
Qed.

(** A one-character class finds every occurrence of each of its members. *)
Lemma matches_char (p : ascii -> bool) (c : ascii) (s : string) :
  p c = true -> Py.contains (String c "") s = true -> matches (RChar p) s = true.
Proof.
  intros Hp H. apply contains_inv in H as (pre & post & ->).
  unfold matches, search.
  destruct (search_from_app (RChar p) pre (String c "" +:+ post) None) as [st ->];
    [|done].
  intros pv. unfold match_at. simpl. rewrite Hp. by eexists.
Qed.

End ReFacts.

(** * The command security validator *)

Module ExecutorSpec.
Import Re CommandExecutor FilterPairs Scenarios PyFacts ReFacts.

Lemma dangerous_pattern_rejects (command : list string) (p : regex) :
  In p DANGEROUS_PATTERNS ->
  matches p (Py.join " " (non_filter_args command)) = true ->
  is_command_secure command = false.
Proof.
  intros Hin Hm. unfold is_command_secure.
  destruct (negb (valid_executable command)); [done|]. cbv zeta.
  assert (existsb (fun pattern => matches pattern (Py.join " " (non_filter_args command)))
            DANGEROUS_PATTERNS = true) as ->; [|done].
  apply existsb_exists. by exists p.
Qed.

Lemma semicolon_rejects (command : list string) (arg : string) :
  arg ∈ non_filter_args command -> Py.contains ";" arg = true ->
  is_command_secure command = false.
Proof.
  intros Hin Hc. unfold is_command_secure.
  destruct (negb (valid_executable command)); [done|]. cbv zeta.
  destruct (existsb _ DANGEROUS_PATTERNS); [done|].
  assert (existsb (Py.contains ";") (non_filter_args command) = true) as ->; [|done].
  apply existsb_exists. exists arg. split; [|done]. by apply list_elem_of_In.
Qed.

Lemma metachar_rejects (command : list string) (arg : string) (c : ascii) :
  one_of "&|`" c = true ->
  arg ∈ non_filter_args command -> Py.contains (String c "") arg = true ->
  is_command_secure command = false.
Proof.
  intros Hc Hin Hm.
  apply (dangerous_pattern_rejects command (RChar (one_of "&|`"))).
  - unfold DANGEROUS_PATTERNS. do 8 right. by left.
  - apply (matches_char _ c); [done|]. by apply (contains_join _ arg).
Qed.

Lemma substitution_rejects (command : list string) (arg m : string) :
  In (lit m) DANGEROUS_PATTERNS ->
  arg ∈ non_filter_args command -> Py.contains m arg = true ->
  is_command_secure command = false.
Proof.
  intros Hp Hin Hm.
  apply (dangerous_pattern_rejects command (lit m)); [done|].
  apply matches_lit. by apply (contains_join _ arg).
Qed.

(** C1. [_is_command_secure] returns False for every argument list whose
    first element does not end with "ffmpeg" or "ffprobe" (the empty list
    included); it returns False for every list in which an argument that
    the loop does not skip contains a semicolon or one of the shell
    metacharacters; and it returns True for the baseline command. *)
Theorem is_command_secure_rejects_and_accepts :
  (forall command : list string,
      (forall exe, head command = Some exe ->
         Py.endswith exe "ffmpeg" = false /\ Py.endswith exe "ffprobe" = false) ->
      is_command_secure command = false)
  /\ (forall (command : list string) (arg m : string),
         arg ∈ non_filter_args command -> m ∈ shell_markers ->
         Py.contains m arg = true ->
         is_command_secure command = false)
  /\ is_command_secure baseline_command = true.
Proof.
  split; [|split].
  - intros command H. unfold is_command_secure.
    destruct command as [|exe rest]; [done|].
    destruct (H exe eq_refl) as [H1 H2]. simpl. by rewrite H1, H2.
  - intros command arg m Hin Hm Hc. unfold shell_markers in Hm.
    repeat (apply elem_of_cons in Hm as [->|Hm]).
    + by apply (semicolon_rejects command arg).
    + by apply (metachar_rejects command arg "&").
    + by apply (metachar_rejects command arg "|").
    + by apply (metachar_rejects command arg "`").
    + apply (substitution_rejects command arg "$("); [|done..].
      unfold DANGEROUS_PATTERNS. do 9 right. by left.
    + apply (substitution_rejects command arg "${"); [|done..].
      unfold DANGEROUS_PATTERNS. do 10 right. by left.
    + by apply elem_of_nil in Hm.
  - by vm_compute.
Qed.

Lemma is_command_secure_rejects_and_accepts_witness :
  is_command_secure ["bash"; "-c"; "echo test"] = false
  /\ is_command_secure ["ffmpeg"; "-i"; "a.mp4"; "out.mp4;reboot"] = false
  /\ is_command_secure ["ffmpeg"; "-i"; "$(cat /etc/passwd)"; "out.mp4"] = false.
Proof.
  split; [|split].
  - apply (proj1 is_command_secure_rejects_and_accepts).
    intros exe [= <-]. by vm_compute.
  - apply (proj1 (proj2 is_command_secure_rejects_and_accepts)
             _ "out.mp4;reboot" ";"); [in_list | in_list | by vm_compute].
  - apply (proj1 (proj2 is_command_secure_rejects_and_accepts)
             _ "$(cat /etc/passwd)" "$("); [in_list | in_list | by vm_compute].
Defined.

(** C2. A dangerous token inside a longer word does not cause rejection:
    [_is_command_secure] returns True for ["ffmpeg", "-i", X, "out.mp4"]
    for X any of arm.mp4, formatting.mp4, reformat.mp4, delete.mp4 and
    systemd.mp4, and none of the dangerous patterns fires on the joined
    command. *)
Theorem embedded_words_are_accepted (X : string) :
  X ∈ embedded_word_filenames ->
  is_command_secure ["ffmpeg"; "-i"; X; "out.mp4"] = true
  /\ forall pattern, In pattern DANGEROUS_PATTERNS ->
       matches pattern (Py.join " " ["ffmpeg"; "-i"; X; "out.mp4"]) = false.
Proof.
  intros HX.
  assert (is_command_secure ["ffmpeg"; "-i"; X; "out.mp4"] = true) as Hsec.
  { unfold embedded_word_filenames in HX.
    repeat (apply elem_of_cons in HX as [->|HX]);
      [by vm_compute .. | by apply elem_of_nil in HX]. }
  split; [done|].
  intros pattern Hin.
  destruct (matches pattern _) eqn:E; [|done].
  assert (non_filter_args ["ffmpeg"; "-i"; X; "out.mp4"] = ["ffmpeg"; "-i"; X; "out.mp4"])
    as Hnfa.
  { unfold embedded_word_filenames in HX.
    repeat (apply elem_of_cons in HX as [->|HX]);
      [by vm_compute .. | by apply elem_of_nil in HX]. }
  rewrite <- Hnfa in E.
  by rewrite (dangerous_pattern_rejects _ pattern Hin E) in Hsec.
Qed.

Lemma embedded_words_are_accepted_witness :
  is_command_secure ["ffmpeg"; "-i"; "formatting.mp4"; "out.mp4"] = true.
Proof.
  apply (embedded_words_are_accepted "formatting.mp4"). in_list.
Defined.

(** *** The exemption of filter values *)









(** A filter flag that is itself the value of the flag before it starts no
    pair: the argument after it is a plain argument. *)
Example filter_flag_as_value_starts_no_pair :
  parse ["ffmpeg"; "-vf"; "-vf"; "a;b"; "out.mp4"]
  = [Plain "ffmpeg"; FilterPair "-vf" "-vf"; Plain "a;b"; Plain "out.mp4"]
  /\ is_command_secure ["ffmpeg"; "-vf"; "-vf"; "a;b"; "out.mp4"] = false.
Proof. by vm_compute. Qed.

(** *** Overwrite protection *)

Lemma execute_single_command_prints {World : Type}
    (which : World -> string -> bool)
    (subprocess_run : World -> list string -> run_outcome * World)
    (w : World) (cmd : list string) (i total : nat) :
  Forall not_cancellation
    (execute_single_command which subprocess_run w cmd i total).1.2.
Proof.
  unfold execute_single_command.
  destruct (validate_command which w cmd); [constructor|].
  destruct (subprocess_run w cmd) as [[| | |] w']; simpl;
    repeat constructor; done.
Qed.

Lemma execute_loop_prints {World : Type}
    (which : World -> string -> bool)
    (subprocess_run : World -> list string -> run_outcome * World)
    (cmds : list (list string)) :
  forall (w : World) (i total successful : nat),
    Forall not_cancellation
      (execute_loop which subprocess_run w cmds i total successful).1.2.
Proof.
  induction cmds as [|cmd rest IH]; intros w i total successful; simpl.
  - constructor.
  - pose proof (execute_single_command_prints which subprocess_run w cmd i total) as H1.
    destruct (execute_single_command which subprocess_run w cmd i total)
      as [[r out] w1]; simpl in H1.
    destruct r as [[f|]|].
    + simpl. apply Forall_app. split; [done|]. repeat constructor; done.
    + done.
    + specialize (IH w1 (S i) total (S successful)).
      destruct (execute_loop which subprocess_run w1 rest (S i) total (S successful))
        as [[r' out'] w2]; simpl in *. by apply Forall_app.
Qed.

(** C10. [check_overwrite_protection] returns True for every list of
    commands and every value of assume_yes, so [_execute_commands] never
    takes its "cancelled due to file conflicts" branch: its result is that
    of the batch loop and its console never shows the cancellation. An
    output file that exists does not block the run, even where
    [detect_overwrites] reports that it would be overwritten. *)
Theorem overwrite_protection_never_blocks :
  (forall (commands : list (list string)) (assume_yes : bool),
      check_overwrite_protection commands assume_yes = true)
  /\ (forall (World : Type) (which : World -> string -> bool)
         (subprocess_run : World -> list string -> run_outcome * World)
         (w : World) (commands : list (list string)) (assume_yes : bool),
         let run := execute_commands which subprocess_run w commands assume_yes in
         (PrintCancelledFileConflicts ∉ snd (fst run))
         /\ head (snd (fst run)) = Some (PrintStarting (List.length commands))
         /\ run = execute_commands which subprocess_run w commands (negb assume_yes))
  /\ (detect_overwrites everything_exists [] [baseline_command] = true
      /\ execute_commands everything_exists run_and_record [] [baseline_command] false
         = (inl 0%Z,
            [PrintStarting 1; PrintExecuting 1 1; PrintCommandCompleted 1;
             PrintSummary 1 1],
            [baseline_command])).
Proof.
  split; [done|]. split; [|by vm_compute].
  intros World which subprocess_run w commands assume_yes run. subst run.
  unfold execute_commands. simpl negb. cbv iota zeta.
  pose proof (execute_loop_prints which subprocess_run commands w 1
                (List.length commands) 0) as H.
  destruct (execute_loop which subprocess_run w commands 1 (List.length commands) 0)
    as [[r out] w']; simpl in H.
  assert (forall l : list console_event,
             Forall not_cancellation l -> PrintCancelledFileConflicts ∉ l) as Hno.
  { intros l Hl Hin. by apply (proj1 (Forall_forall _ _) Hl _ Hin). }
  destruct r as [n|e]; simpl; (split; [|done]); apply Hno;
    repeat first [apply Forall_cons; split; [done|] | apply Forall_app; split];
    try done; repeat constructor; done.
Qed.

End ExecutorSpec.

(** * The retry handler *)

Module RetrySpec.
Import CommandRetry Scenarios.

Section Run.
Context {World Plan : Type}.
Variable path_exists : World -> string -> bool.
Variable subprocess_run : World -> list string -> quick_outcome * World.
Variable llm_pipeline : World -> string -> option (list (list string) * Plan) * World.
Variable executor_func : World -> list (list string) -> executor_outcome * World.
Variable original_prompt : string.
Variable commands : list (list string).

Local Abbreviation validate :=
  (validate_commands path_exists subprocess_run llm_pipeline original_prompt).
Local Abbreviation loop :=
  (attempt_loop path_exists subprocess_run llm_pipeline executor_func
     original_prompt commands).

Lemma validate_commands_steps (a : nat) (cmds : list (list string)) :
  forall w : World, Forall (validation_step a) (validate a cmds w).1.2.
Proof.
  induction cmds as [|cmd rest IH]; intros w; simpl; [constructor|].
  destruct (validate_ffmpeg_command path_exists subprocess_run w cmd)
    as [[is_valid msg] w1].
  destruct (negb is_valid && (a <? MAX_RETRY_ATTEMPTS)%nat) eqn:E.
  - apply andb_true_iff in E as [_ E]. apply Nat.ltb_lt in E.
    destruct (regenerate_commands llm_pipeline w1 original_prompt msg)
      as [[[c p]|] w2]; simpl;
      (constructor; [done|]; constructor; [by split|]; constructor).
  - specialize (IH w1). destruct (validate a rest w1) as [[r evs] w2].
    simpl in *. by constructor.
Qed.

Lemma validate_commands_completed (a : nat) (cmds : list (list string)) :
  forall w : World,
    a < MAX_RETRY_ATTEMPTS ->
    (validate a cmds w).1.1 = LoopCompleted ->
    (validate a cmds w).1.2 = map (fun c => EvValidate a c true) cmds.
Proof.
  induction cmds as [|cmd rest IH]; intros w Ha; simpl; [done|].
  destruct (validate_ffmpeg_command path_exists subprocess_run w cmd)
    as [[is_valid msg] w1].
  apply Nat.ltb_lt in Ha as Hb. rewrite Hb, andb_true_r.
  destruct is_valid; simpl.
  - specialize (IH w1 Ha). destruct (validate a rest w1) as [[r evs] w2].
    simpl in *. intros Hr. by rewrite (IH Hr).
  - by destruct (regenerate_commands llm_pipeline w1 original_prompt msg)
      as [[[c p]|] w2].
Qed.

Lemma validate_commands_validated (a : nat) (cmds : list (list string)) (w : World) :
  (validate a cmds w).1.1 = LoopCompleted ->
  validated a cmds (validate a cmds w).1.2.
Proof.
  intros H. split; [apply validate_commands_steps|].
  intros Ha. by apply validate_commands_completed.
Qed.

(** Every run of the loop has one of the shapes of [run_shape]. *)
Lemma attempt_loop_shape (attempts : list nat) :
  forall (cmds : list (list string)) (plan : Plan) (w : World),
    run_shape commands attempts cmds
      (loop attempts cmds plan w).1.1 (loop attempts cmds plan w).1.2.
Proof.
  induction attempts as [|a later IH]; intros cmds plan w; simpl; [constructor|].
  pose proof (validate_commands_steps a cmds w) as Hsteps.
  pose proof (validate_commands_validated a cmds w) as Hval.
  destruct (validate a cmds w) as [[exit evs] w1]. simpl in Hsteps, Hval.
  destruct exit as [|cmds' plan'|].
  - specialize (Hval eq_refl).
    destruct (executor_func w1 cmds) as [[code|msg|name] w2]; simpl.
    + by constructor.
    + destruct (a <? MAX_RETRY_ATTEMPTS)%nat eqn:E.
      * apply Nat.ltb_lt in E.
        destruct (regenerate_commands llm_pipeline w2 original_prompt msg)
          as [[[cmds' plan']|] w3].
        -- specialize (IH cmds' plan' w3).
           destruct (loop later cmds' plan' w3) as [[res tr] w4]. simpl in *.
           by eapply shape_retried.
        -- simpl. by constructor.
      * apply Nat.ltb_ge in E. simpl. constructor; [done|lia].
    + by constructor.
  - specialize (IH cmds' plan' w1).
    destruct (loop later cmds' plan' w1) as [[res tr] w2]. simpl in *.
    by eapply shape_regenerated.
  - simpl. by constructor.
Qed.

End Run.

(** *** What the shape of a run says about its trace *)

Ltac shape_induction :=
  induction 1 as
    [ c0
    | a0 l0 c0 evs Hv
    | a0 l0 c0 evs c1 r0 t0 Hv Hs IH
    | a0 l0 c0 evs code [Hv Hc]
    | a0 l0 c0 evs name [Hv Hc]
    | a0 l0 c0 evs msg [Hv Hc] Hn
    | a0 l0 c0 evs msg [Hv Hc] Hl
    | a0 l0 c0 evs msg c1 r0 t0 [Hv Hc] Hl Hs IH ].

Lemma validation_step_inv (a : nat) (ev : event) :
  validation_step a ev ->
  attempt_of ev = a /\ is_execution ev = false
  /\ (forall a' m b, ev = EvRegenerate a' m b -> a' < MAX_RETRY_ATTEMPTS).
Proof.
  destruct ev as [a' c v|a' m b|a' c o]; simpl; [intros ->|intros [-> H]|done].
  - by repeat split.
  - repeat split. by intros ? ? ? [= -> _ _].
Qed.

Lemma executions_app (l1 l2 : list event) :
  executions (l1 ++ l2) = executions l1 ++ executions l2.
Proof. apply List.filter_app. Qed.

Lemma executions_validation (a : nat) (evs : list event) :
  Forall (validation_step a) evs -> executions evs = [].
Proof.
  induction 1 as [|ev evs H _ IH]; [done|].
  unfold executions in *. simpl.
  destruct (validation_step_inv _ _ H) as (_ & -> & _). done.
Qed.

Lemma shape_attempts original attempts cmds res tr :
  run_shape original attempts cmds res tr ->
  Forall (fun ev => attempt_of ev ∈ attempts) tr.
Proof.
  assert (forall a later evs, Forall (validation_step a) evs ->
            Forall (fun ev => attempt_of ev ∈ a :: later) evs) as Hevs.
  { intros a later evs H. eapply Forall_impl; [exact H|].
    intros ev Hev. destruct (validation_step_inv _ _ Hev) as (-> & _).
    apply elem_of_cons. by left. }
  assert (forall a later t, Forall (fun ev => attempt_of ev ∈ later) t ->
            Forall (fun ev => attempt_of ev ∈ a :: later) t) as Hlater.
  { intros a later t H. eapply Forall_impl; [exact H|].
    intros ev Hev. apply elem_of_cons. by right. }
  assert (forall (a : nat) later, a ∈ a :: later) as Hhere.
  { intros. apply elem_of_cons. by left. }
  shape_induction;
    repeat first [apply Forall_nil_2
                 | apply Forall_app; split
                 | apply Forall_cons; split];
    simpl; auto.
Qed.

Lemma shape_executions original attempts cmds res tr :
  run_shape original attempts cmds res tr ->
  List.length (executions tr) <= List.length attempts.
Proof.
  shape_induction;
    rewrite ?executions_app, ?(executions_validation a0 evs) by done;
    simpl; lia.
Qed.

Lemma shape_regenerations original attempts cmds res tr :
  run_shape original attempts cmds res tr ->
  forall a m b, EvRegenerate a m b ∈ tr -> a < MAX_RETRY_ATTEMPTS.
Proof.
  assert (forall a0 evs a m b, Forall (validation_step a0) evs ->
            EvRegenerate a m b ∈ evs -> a < MAX_RETRY_ATTEMPTS) as Hevs.
  { intros a0 evs a m b H Hin.
    pose proof (proj1 (Forall_forall _ _) H _ Hin) as Hev.
    destruct (validation_step_inv _ _ Hev) as (_ & _ & Hr). by eapply Hr. }
  shape_induction;
    intros a' m b Hin;
    repeat first [apply elem_of_app in Hin as [Hin|Hin]
                 | apply elem_of_cons in Hin as [Hin|Hin]
                 | apply elem_of_nil in Hin];
    simplify_eq; try done; eauto.
Qed.

Lemma split_after_prefix {A : Type} (Q : A -> Prop) (evs l pre post : list A) (x : A) :
  Forall Q evs -> ~ Q x -> evs ++ l = pre ++ x :: post ->
  exists mid, pre = evs ++ mid /\ l = mid ++ x :: post.
Proof.
  intros H Hx. revert pre. induction H as [|e evs He _ IH]; intros pre E.
  - by exists pre.
  - destruct pre as [|p pre]; simpl in E; simplify_eq; [done|].
    destruct (IH pre) as (mid & -> & ->); [done|]. by exists mid.
Qed.

Lemma execution_not_validation (a a' : nat) cs out :
  ~ validation_step a (EvExecute a' cs out).
Proof. by intros []. Qed.

(** An [ExecError] raised at the bound, or followed by a regeneration that
    yields nothing, ends the run and is its result. *)
Lemma shape_raise_propagates original attempts cmds res tr :
  run_shape original attempts cmds res tr ->
  forall pre a cs msg post,
    tr = pre ++ EvExecute a cs (RaisedExecError msg) :: post ->
    (~ a < MAX_RETRY_ATTEMPTS -> post = [] /\ res = RaiseExecError msg)
    /\ (forall m post', post = EvRegenerate a m false :: post' ->
          post' = [] /\ res = RaiseExecError msg).
Proof.
  shape_induction;
    intros pre a' cs' msg' post E.
  - by destruct pre.
  - rewrite <- (app_nil_r evs) in E.
    eapply split_after_prefix in E as (mid & _ & E);
      [|done|apply execution_not_validation].
    by destruct mid.
  - eapply split_after_prefix in E as (mid & _ & E);
      [|done|apply execution_not_validation].
    by eapply IH.
  - eapply split_after_prefix in E as (mid & _ & E);
      [|done|apply execution_not_validation].
    destruct mid as [|? [|? ?]]; simplify_eq/=.
  - eapply split_after_prefix in E as (mid & _ & E);
      [|done|apply execution_not_validation].
    destruct mid as [|? [|? ?]]; simplify_eq/=.
  - eapply split_after_prefix in E as (mid & _ & E);
      [|done|apply execution_not_validation].
    destruct mid as [|? [|? ?]]; simplify_eq/=. by split.
  - eapply split_after_prefix in E as (mid & _ & E);
      [|done|apply execution_not_validation].
    destruct mid as [|? [|? [|? ?]]]; simplify_eq/=.
    split; [done|]. by intros ? ? [= <- <-].
  - eapply split_after_prefix in E as (mid & _ & E);
      [|done|apply execution_not_validation].
    destruct mid as [|? [|? mid]]; simplify_eq/=.
    + split; [done|]. by intros ? ? [=].
    + by eapply IH.
Qed.

(** Below the bound, an execution comes right after the successful
    validation of every command of the plan it runs. *)
Lemma shape_execution_validated original attempts cmds res tr :
  run_shape original attempts cmds res tr ->
  forall pre a cs out post,
    tr = pre ++ EvExecute a cs out :: post ->
    a < MAX_RETRY_ATTEMPTS ->
    exists pre', pre = pre' ++ map (fun c => EvValidate a c true) cs.
Proof.
  shape_induction; intros pre a' cs' out' post E Ha.
  - by destruct pre.
  - rewrite <- (app_nil_r evs) in E.
    eapply split_after_prefix in E as (mid & _ & E);
      [|done|apply execution_not_validation].
    by destruct mid.
  - eapply split_after_prefix in E as (mid & -> & E);
      [|done|apply execution_not_validation].
    destruct (IH _ _ _ _ _ E Ha) as [pre' ->].
    exists (evs ++ pre'). by rewrite app_assoc.
  - eapply split_after_prefix in E as (mid & -> & E);
      [|done|apply execution_not_validation].
    destruct mid as [|? [|? ?]]; simplify_eq/=.
    exists []. by rewrite app_nil_r, (Hc Ha).
  - eapply split_after_prefix in E as (mid & -> & E);
      [|done|apply execution_not_validation].
    destruct mid as [|? [|? ?]]; simplify_eq/=.
    exists []. by rewrite app_nil_r, (Hc Ha).
  - eapply split_after_prefix in E as (mid & -> & E);
      [|done|apply execution_not_validation].
    destruct mid as [|? [|? ?]]; simplify_eq/=. done.
  - eapply split_after_prefix in E as (mid & -> & E);
      [|done|apply execution_not_validation].
    destruct mid as [|? [|? [|? ?]]]; simplify_eq/=.
    exists []. by rewrite app_nil_r, (Hc Ha).
  - eapply split_after_prefix in E as (mid & -> & E);
      [|done|apply execution_not_validation].
    destruct mid as [|e1 [|e2 mid]]; simplify_eq/=.
    + exists []. by rewrite app_nil_r, (Hc Ha).
    + destruct (IH _ _ _ _ _ eq_refl Ha) as [pre' ->].
      exists (evs ++ EvExecute a0 c0 (RaisedExecError msg)
                :: EvRegenerate a0 msg true :: pre').
      by rewrite <- app_assoc.
Qed.

(** *** A regeneration that yields nothing after a validation failure *)

Section FailedRegeneration.
Context {World Plan : Type}.
Variable path_exists : World -> string -> bool.
Variable subprocess_run : World -> list string -> quick_outcome * World.
Variable llm_pipeline : World -> string -> option (list (list string) * Plan) * World.
Variable executor_func : World -> list (list string) -> executor_outcome * World.
Variable original_prompt : string.
Variable commands : list (list string).

Local Abbreviation validate :=
  (validate_commands path_exists subprocess_run llm_pipeline original_prompt).
Local Abbreviation loop :=
  (attempt_loop path_exists subprocess_run llm_pipeline executor_func
     original_prompt commands).

(** The trace of a validation loop: validations, closed by a failed
    validation and the regeneration it asked for where the loop was left. *)
Lemma validate_commands_form (a : nat) (cmds : list (list string)) :
  forall w : World,
    exists vs,
      Forall (fun ev => is_validation ev = true) vs
      /\ match (validate a cmds w).1.1 with
         | LoopCompleted => (validate a cmds w).1.2 = vs
         | LoopBreak _ _ =>
             exists c m, (validate a cmds w).1.2
                         = vs ++ [EvValidate a c false; EvRegenerate a m true]
         | LoopReturn =>
             exists c m, (validate a cmds w).1.2
                         = vs ++ [EvValidate a c false; EvRegenerate a m false]
         end.
Proof.
  induction cmds as [|cmd rest IH]; intros w; simpl; [by exists []|].
  destruct (validate_ffmpeg_command path_exists subprocess_run w cmd)
    as [[is_valid msg] w1].
  destruct (negb is_valid && (a <? MAX_RETRY_ATTEMPTS)%nat) eqn:E.
  - apply andb_true_iff in E as [E _]. apply negb_true_iff in E as ->.
    destruct (regenerate_commands llm_pipeline w1 original_prompt msg)
      as [[[c p]|] w2]; simpl; exists []; (split; [constructor|]); by exists cmd, msg.
  - destruct (IH w1) as (vs & Hvs & H).
    destruct (validate a rest w1) as [[r evs] w2]. simpl in *.
    exists (EvValidate a cmd is_valid :: vs). split; [by constructor|].
    destruct r as [|c p|]; [by rewrite H| |]; destruct H as (c' & m & ->); by exists c', m.
Qed.

(** Where a failed regeneration stands in a trace that starts with
    validations. *)
Lemma failed_regeneration_position (vs rest pre post : list event)
    (x : event) (a : nat) (m : string) :
  Forall (fun ev => is_validation ev = true) vs ->
  vs ++ rest = pre ++ x :: EvRegenerate a m false :: post ->
  (exists mid, rest = mid ++ x :: EvRegenerate a m false :: post)
  \/ (vs = pre ++ [x] /\ rest = EvRegenerate a m false :: post).
Proof.
  intros H. revert pre. induction H as [|v vs Hv Hvs IH]; intros pre E.
  - left. by exists pre.
  - destruct pre as [|p pre]; simpl in E; injection E as -> E.
    + destruct vs as [|v' vs]; simpl in E; [right; by subst rest|].
      injection E as -> _. by inversion Hvs.
    + destruct (IH pre E) as [?|[-> ->]]; [by left|by right].
Qed.

Lemma attempt_loop_failed_regeneration (attempts : list nat) :
  forall (cmds : list (list string)) (plan : Plan) (w : World) pre a c m post,
    (loop attempts cmds plan w).1.2
    = pre ++ EvValidate a c false :: EvRegenerate a m false :: post ->
    post = [] /\ (loop attempts cmds plan w).1.1 = Return 1 commands.
Proof.
  induction attempts as [|a0 later IH]; intros cmds plan w pre a c m post; simpl.
  { by destruct pre. }
  destruct (validate_commands_form a0 cmds w) as (vs & Hvs & Hform).
  destruct (validate a0 cmds w) as [[exit evs] w1]. simpl in Hform.
  destruct exit as [|cmds' plan'|].
  - subst evs.
    destruct (executor_func w1 cmds) as [[code|msg|name] w2]; simpl.
    + intros E. apply failed_regeneration_position in E as [[mid E]|[_ E]]; [|done|done].
      destruct mid as [|? [|? ?]]; simplify_eq/=.
    + destruct (a0 <? MAX_RETRY_ATTEMPTS)%nat.
      * destruct (regenerate_commands llm_pipeline w2 original_prompt msg)
          as [[[cmds' plan']|] w3].
        -- specialize (IH cmds' plan' w3).
           destruct (loop later cmds' plan' w3) as [[res tr] w4]. simpl in *.
           intros E. apply failed_regeneration_position in E as [[mid E]|[_ E]];
             [|done|done].
           destruct mid as [|e1 [|e2 mid]]; simplify_eq/=. by eapply IH.
        -- simpl. intros E.
           apply failed_regeneration_position in E as [[mid E]|[_ E]]; [|done|done].
           destruct mid as [|? [|? [|? ?]]]; simplify_eq/=.
      * simpl. intros E.
        apply failed_regeneration_position in E as [[mid E]|[_ E]]; [|done|done].
        destruct mid as [|? [|? ?]]; simplify_eq/=.
    + intros E. apply failed_regeneration_position in E as [[mid E]|[_ E]]; [|done|done].
      destruct mid as [|? [|? ?]]; simplify_eq/=.
  - destruct Hform as (c' & m' & ->).
    specialize (IH cmds' plan' w1).
    destruct (loop later cmds' plan' w1) as [[res tr] w2]. simpl in *.
    rewrite <- app_assoc. intros E.
    apply failed_regeneration_position in E as [[mid E]|[_ E]]; [|done|done].
    destruct mid as [|e1 [|e2 mid]]; simplify_eq/=. by eapply IH.
  - destruct Hform as (c' & m' & ->). simpl. intros E.
    apply failed_regeneration_position in E as [[mid E]|[_ E]]; [|done|done].
    destruct mid as [|e1 [|e2 [|e3 mid]]]; simplify_eq/=. done.
Qed.

End FailedRegeneration.

(** C5. [execute_with_retry] makes at most MAX_RETRY_ATTEMPTS = 3 attempts:
    every step of a run belongs to an attempt numbered 1 to 3 and the
    executor is called at most three times. The LLM is asked to regenerate
    only in an attempt strictly below the bound. An [ExecError] raised by
    the executor in the final attempt ends the run and is raised to the
    caller, and so is an [ExecError] directly after which regeneration
    yields nothing. A regeneration that yields nothing after a validation
    failure ends the run as well, but with exit code 1 and the commands the
    run was called with, whatever the executor raised in earlier attempts. *)
Theorem retry_is_bounded_and_propagates
    {World Plan : Type}
    (path_exists : World -> string -> bool)
    (subprocess_run : World -> list string -> quick_outcome * World)
    (llm_pipeline : World -> string -> option (list (list string) * Plan) * World)
    (executor_func : World -> list (list string) -> executor_outcome * World)
    (original_prompt : string) (commands : list (list string))
    (plan : Plan) (w : World) :
  let run := execute_with_retry path_exists subprocess_run llm_pipeline
               executor_func original_prompt commands plan w in
  let res := fst (fst run) in
  let trace := snd (fst run) in
  MAX_RETRY_ATTEMPTS = 3
  /\ Forall (fun ev => 1 <= attempt_of ev <= MAX_RETRY_ATTEMPTS) trace
  /\ List.length (executions trace) <= MAX_RETRY_ATTEMPTS
  /\ (forall a m b, EvRegenerate a m b ∈ trace -> a < MAX_RETRY_ATTEMPTS)
  /\ (forall pre cs msg post,
        trace = pre ++ EvExecute MAX_RETRY_ATTEMPTS cs (RaisedExecError msg) :: post ->
        post = [] /\ res = RaiseExecError msg)
  /\ (forall pre a cs msg m post,
        trace = pre ++ EvExecute a cs (RaisedExecError msg)
                  :: EvRegenerate a m false :: post ->
        post = [] /\ res = RaiseExecError msg)
  /\ (forall pre a cmd m post,
        trace = pre ++ EvValidate a cmd false :: EvRegenerate a m false :: post ->
        post = [] /\ res = Return 1 commands).
Proof.
  intros run res trace.
  pose proof (attempt_loop_shape path_exists subprocess_run llm_pipeline
                executor_func original_prompt commands
                (seq 1 MAX_RETRY_ATTEMPTS) commands plan w) as Hshape.
  fold (execute_with_retry path_exists subprocess_run llm_pipeline
          executor_func original_prompt commands plan w) in Hshape.
  fold run in Hshape. fold res trace in Hshape.
  split; [done|]. split; [|split; [|split; [|split; [|split]]]].
  - eapply Forall_impl; [exact (shape_attempts _ _ _ _ _ Hshape)|].
    intros ev Hin. apply elem_of_seq in Hin. unfold MAX_RETRY_ATTEMPTS in *. lia.
  - pose proof (shape_executions _ _ _ _ _ Hshape) as H.
    by rewrite length_seq in H.
  - exact (shape_regenerations _ _ _ _ _ Hshape).
  - intros pre cs msg post E.
    destruct (shape_raise_propagates _ _ _ _ _ Hshape _ _ _ _ _ E) as [H _].
    apply H. lia.
  - intros pre a cs msg m post E.
    destruct (shape_raise_propagates _ _ _ _ _ Hshape _ _ _ _ _ E) as [_ H].
    by eapply H.
  - intros pre a cmd m post E.
    exact (attempt_loop_failed_regeneration path_exists subprocess_run llm_pipeline
             executor_func original_prompt commands (seq 1 MAX_RETRY_ATTEMPTS)
             commands plan w pre a cmd m post E).
Qed.

Lemma retry_is_bounded_and_propagates_witness :
  fst (fst (execute_with_retry everything_is_there quick_run_ok same_plan_again
              executor_fails "convert" missing_input_commands tt tt))
  = RaiseExecError "Unknown encoder".
Proof.
  pose proof (retry_is_bounded_and_propagates everything_is_there quick_run_ok
                same_plan_again executor_fails "convert" missing_input_commands tt tt)
    as (_ & _ & _ & _ & H & _).
  apply (H [EvValidate 1 ["ffmpeg"; "-i"; "missing.mp4"; "out.mp4"] true;
            EvExecute 1 missing_input_commands (RaisedExecError "Unknown encoder");
            EvRegenerate 1 "Unknown encoder" true;
            EvValidate 2 ["ffmpeg"; "-i"; "missing.mp4"; "out.mp4"] true;
            EvExecute 2 missing_input_commands (RaisedExecError "Unknown encoder");
            EvRegenerate 2 "Unknown encoder" true;
            EvValidate 3 ["ffmpeg"; "-i"; "missing.mp4"; "out.mp4"] true]
           missing_input_commands "Unknown encoder" []).
  by vm_compute.
Defined.

(** C5, as the claim states it, fails where regeneration yields nothing
    after a validation failure. The executor raises an [ExecError] in
    attempt 1; the regenerated plan fails validation in attempt 2 and the
    LLM then returns nothing: the run returns exit code 1 with the commands
    it was called with, and the [ExecError] of attempt 1 is not raised. *)
Lemma failed_regeneration_swallows_the_exec_error :
  execute_with_retry counting_exists counting_quick_run answers_once
    counting_executor_fails "convert" missing_input_commands tt 0
  = (Return 1 missing_input_commands,
     [EvValidate 1 ["ffmpeg"; "-i"; "missing.mp4"; "out.mp4"] true;
      EvExecute 1 missing_input_commands (RaisedExecError "Unknown encoder");
      EvRegenerate 1 "Unknown encoder" true;
      EvValidate 2 ["convert"; "in.mp4"; "out.mp4"] false;
      EvRegenerate 2 "Command must start with ffmpeg or ffprobe" false],
     2).
Proof. by vm_compute. Qed.

(** *** Validation before execution *)

(** In every attempt below the bound, the executor runs a plan only after
    each of its commands passed [validate_ffmpeg_command] in that attempt. *)
Theorem execution_below_bound_is_validated
    {World Plan : Type}
    (path_exists : World -> string -> bool)
    (subprocess_run : World -> list string -> quick_outcome * World)
    (llm_pipeline : World -> string -> option (list (list string) * Plan) * World)
    (executor_func : World -> list (list string) -> executor_outcome * World)
    (original_prompt : string) (commands : list (list string))
    (plan : Plan) (w : World) :
  let trace := snd (fst (execute_with_retry path_exists subprocess_run llm_pipeline
                           executor_func original_prompt commands plan w)) in
  forall pre a cs out post,
    trace = pre ++ EvExecute a cs out :: post ->
    a < MAX_RETRY_ATTEMPTS ->
    exists pre', pre = pre' ++ map (fun c => EvValidate a c true) cs.
Proof.
  intros trace.
  exact (shape_execution_validated _ _ _ _ _
           (attempt_loop_shape path_exists subprocess_run llm_pipeline
              executor_func original_prompt commands
              (seq 1 MAX_RETRY_ATTEMPTS) commands plan w)).
Qed.

Lemma execution_below_bound_is_validated_witness :
  exists pre',
    [EvValidate 1 ["ffmpeg"; "-i"; "missing.mp4"; "out.mp4"] true]
    = pre' ++ map (fun c => EvValidate 1 c true) missing_input_commands.
Proof.
  apply (execution_below_bound_is_validated everything_is_there quick_run_ok
           same_plan_again executor_fails "convert" missing_input_commands tt tt
           _ 1 missing_input_commands (RaisedExecError "Unknown encoder")
           [EvRegenerate 1 "Unknown encoder" true;
            EvValidate 2 ["ffmpeg"; "-i"; "missing.mp4"; "out.mp4"] true;
            EvExecute 2 missing_input_commands (RaisedExecError "Unknown encoder");
            EvRegenerate 2 "Unknown encoder" true;
            EvValidate 3 ["ffmpeg"; "-i"; "missing.mp4"; "out.mp4"] true;
            EvExecute 3 missing_input_commands (RaisedExecError "Unknown encoder")]);
    [by vm_compute | unfold MAX_RETRY_ATTEMPTS; lia].
Defined.

(** C4, at its failing input. The input file of the only command is
    missing in all three attempts and the LLM returns the same plan twice.
    In the final attempt the command fails validation, the loop does not
    leave, and the executor is called with the plan. *)
Theorem final_attempt_executes_unvalidated :
  execute_with_retry nothing_exists quick_run_ok same_plan_again
    executor_reports_success "convert" missing_input_commands tt tt
  = (Return 0 missing_input_commands,
     [EvValidate 1 ["ffmpeg"; "-i"; "missing.mp4"; "out.mp4"] false;
      EvRegenerate 1 "Input file(s) not found: missing.mp4" true;
      EvValidate 2 ["ffmpeg"; "-i"; "missing.mp4"; "out.mp4"] false;
      EvRegenerate 2 "Input file(s) not found: missing.mp4" true;
      EvValidate 3 ["ffmpeg"; "-i"; "missing.mp4"; "out.mp4"] false;
      EvExecute 3 missing_input_commands (Returned 0)],
     tt).
Proof. by vm_compute. Qed.

End RetrySpec.

(** * Extracting the JSON text of a response *)

Module JsonTextSpec.
Import JsonText PyFacts.

Lemma rev_onto_app (s acc : string) : Py.rev_onto s acc = Py.rev s +:+ acc.
Proof.
  unfold Py.rev. revert acc. induction s as [|c s IH]; intros acc; [done|].
  simpl. rewrite (IH (String c acc)), (IH (String c "")).
  by rewrite append_assoc.
Qed.

Lemma rev_cons (c : ascii) (s : string) : Py.rev (String c s) = Py.rev s +:+ String c "".
Proof. unfold Py.rev at 1. simpl. apply rev_onto_app. Qed.

Lemma rev_app (a b : string) : Py.rev (a +:+ b) = Py.rev b +:+ Py.rev a.
Proof.
  induction a as [|c a IH].
  - by rewrite append_nil_l, append_nil_r.
  - by rewrite append_cons, !rev_cons, IH, append_assoc.
Qed.

Lemma rev_involutive (s : string) : Py.rev (Py.rev s) = s.
Proof.
  induction s as [|c s IH]; [done|].
  by rewrite rev_cons, rev_app, IH.
Qed.

Lemma lstrip_suffix (s : string) : exists l, s = l +:+ Py.lstrip s.
Proof.
  induction s as [|c s [l IH]]; [by exists ""|]. simpl.
  destruct (Py.isspace c); [|by exists ""].
  exists (String c l). by rewrite append_cons, <- IH.
Qed.

(** Stripping removes a prefix and a suffix. *)
Lemma strip_inside (s : string) : exists l r, s = l +:+ Py.strip s +:+ r.
Proof.
  destruct (lstrip_suffix s) as [l Hl].
  destruct (lstrip_suffix (Py.rev (Py.lstrip s))) as [r Hr].
  exists l, (Py.rev r). unfold Py.strip, Py.rstrip.
  rewrite <- rev_app, <- Hr, rev_involutive. exact Hl.
Qed.

Lemma find_spec (c : ascii) (s : string) :
  Py.find c s <> (-1)%Z ->
  exists pre post, s = pre +:+ String c post
                   /\ Z.of_nat (String.length pre) = Py.find c s.
Proof.
  induction s as [|a s IH]; simpl; [done|].
  destruct (Py.eqc a c) eqn:E.
  - apply eqc_true in E as ->. intros _. by exists "", s.
  - destruct (Py.find c s =? -1)%Z eqn:F; [done|]. intros _.
    apply Z.eqb_neq in F. destruct (IH F) as (pre & post & -> & Hlen).
    exists (String a pre), post. split; [done|]. simpl String.length. lia.
Qed.

Lemma rfind_spec (c : ascii) (s : string) :
  Py.rfind c s <> (-1)%Z ->
  exists pre post, s = pre +:+ String c post
                   /\ Z.of_nat (String.length pre) = Py.rfind c s.
Proof.
  induction s as [|a s IH]; simpl; [done|].
  destruct (Py.rfind c s =? -1)%Z eqn:F.
  - destruct (Py.eqc a c) eqn:E; [|done].
    apply eqc_true in E as ->. intros _. by exists "", s.
  - intros _. apply Z.eqb_neq in F. destruct (IH F) as (pre & post & -> & Hlen).
    exists (String a pre), post. split; [done|]. simpl String.length. lia.
Qed.

Lemma append_split (p1 p2 r1 r2 : string) (a b : ascii) :
  p1 +:+ String a r1 = p2 +:+ String b r2 ->
  String.length p1 < String.length p2 ->
  exists mid, r1 = mid +:+ String b r2.
Proof.
  revert p2. induction p1 as [|x p1 IH]; intros p2 E Hlen.
  - destruct p2 as [|y p2]; simpl in Hlen; [lia|].
    rewrite append_nil_l, append_cons in E. injection E as -> ->. by exists p2.
  - destruct p2 as [|y p2]; simpl in Hlen; [lia|].
    rewrite !append_cons in E. injection E as -> E.
    apply (IH p2 E). lia.
Qed.

Lemma after_first_app (c : ascii) (pre post : string) :
  exists p, after_first c (pre +:+ String c post) = Some (p +:+ post).
Proof.
  induction pre as [|a pre [p IH]].
  - exists "". rewrite append_nil_l. simpl. by rewrite eqc_refl.
  - rewrite append_cons. simpl. destruct (Py.eqc a c).
    + exists (pre +:+ String c ""). by rewrite append_assoc.
    + by exists p.
Qed.

Lemma after_first_inv (c : ascii) (s t : string) :
  after_first c s = Some t -> exists pre, s = pre +:+ String c t.
Proof.
  induction s as [|a s IH]; simpl; [done|].
  destruct (Py.eqc a c) eqn:E.
  - apply eqc_true in E as ->. intros [= ->]. by exists "".
  - intros H. destruct (IH H) as [pre ->]. by exists (String a pre).
Qed.

(** [has_brace_pair] says what its name says. *)
Lemma has_brace_pair_spec (text : string) :
  has_brace_pair text = true <->
  exists pre mid post, text = pre +:+ "{" +:+ mid +:+ "}" +:+ post.
Proof.
  unfold has_brace_pair. split.
  - destruct (after_first "{" text) as [t|] eqn:E; [|done]. intros H.
    apply after_first_inv in E as [pre ->].
    apply contains_inv in H as (mid & post & ->). by exists pre, mid, post.
  - intros (pre & mid & post & ->).
    destruct (after_first_app "{" pre (mid +:+ "}" +:+ post)) as [p Hp].
    change (pre +:+ "{" +:+ mid +:+ "}" +:+ post)
      with (pre +:+ String "{" (mid +:+ "}" +:+ post)).
    rewrite Hp, <- append_assoc. apply contains_intro.
Qed.

(** When the brace strategy applies to the stripped text, the text holds a
    brace pair. *)
Lemma brace_span_has_pair (text : string) :
  is_Some (brace_span (Py.strip text)) -> has_brace_pair text = true.
Proof.
  unfold brace_span. cbv zeta. intros [span H].
  destruct (negb (Py.find "{" (Py.strip text) =? -1)%Z
            && negb (Py.rfind "}" (Py.strip text) =? -1)%Z
            && (Py.find "{" (Py.strip text) <? Py.rfind "}" (Py.strip text))%Z) eqn:E;
    [clear H|done].
  apply andb_true_iff in E as [E Hlt]. apply andb_true_iff in E as [Hf Hr].
  apply negb_true_iff, Z.eqb_neq in Hf, Hr. apply Z.ltb_lt in Hlt.
  destruct (find_spec _ _ Hf) as (p1 & r1 & E1 & L1).
  destruct (rfind_spec _ _ Hr) as (p2 & r2 & E2 & L2).
  destruct (append_split p1 p2 r1 r2 "{" "}") as [mid ->]; [congruence|lia|].
  destruct (strip_inside text) as (l & r & Htext).
  apply has_brace_pair_spec. exists (l +:+ p1), mid, (r2 +:+ r).
  rewrite Htext at 1. rewrite E1.
  change (String "{" (mid +:+ String "}" r2)) with ("{" +:+ mid +:+ "}" +:+ r2).
  by rewrite !append_assoc.
Qed.

(** A text that neither starts nor ends with whitespace is its own strip. *)
Lemma lstrip_id (s : string) :
  (forall c t, s = String c t -> Py.isspace c = false) -> Py.lstrip s = s.
Proof.
  destruct s as [|c t]; [done|]. intros H. simpl. by rewrite (H c t eq_refl).
Qed.

Lemma strip_id (s : string) :
  (forall c t, s = String c t -> Py.isspace c = false) ->
  (forall c t, Py.rev s = String c t -> Py.isspace c = false) ->
  Py.strip s = s.
Proof.
  intros H1 H2. unfold Py.strip, Py.rstrip.
  by rewrite (lstrip_id s H1), (lstrip_id _ H2), rev_involutive.
Qed.

(** C7, as the code has it. When both strategies fail (no markdown block
    whose content starts with a brace, and no closing brace after the first
    opening brace), [extract_json_from_text] returns the text with its
    leading and trailing whitespace stripped; the text comes back unchanged
    when it neither starts nor ends with whitespace. *)
Theorem extract_json_falls_back_to_stripped_text (text : string) :
  extract_markdown MARKDOWN_PATTERNS (Py.strip text) = None ->
  has_brace_pair text = false ->
  extract_json_from_text text = Py.strip text
  /\ ((forall c t, text = String c t -> Py.isspace c = false) ->
      (forall c t, Py.rev text = String c t -> Py.isspace c = false) ->
      extract_json_from_text text = text).
Proof.
  intros Hmd Hbr.
  assert (extract_json_from_text text = Py.strip text) as Hres.
  { unfold extract_json_from_text.
    destruct text as [|c t]; [done|]. simpl negb. cbv iota zeta.
    destruct (Py.startswith _ "{" && Py.endswith _ "}"); [done|].
    rewrite Hmd.
    destruct (brace_span (Py.strip (String c t))) as [[i j]|] eqn:E; [|done].
    rewrite brace_span_has_pair in Hbr; [done|]. rewrite E. by eexists. }
  split; [done|]. intros H1 H2. by rewrite Hres, strip_id.
Qed.

Lemma extract_json_falls_back_to_stripped_text_witness :
  extract_json_from_text "  no json here } {  " = "no json here } {".
Proof.
  apply (extract_json_falls_back_to_stripped_text "  no json here } {  ");
    by vm_compute.
Defined.

(** C7, as the claim states it, fails: a text with a leading blank on which
    both strategies fail does not come back unchanged. *)
Lemma extract_json_changes_raw_text :
  extract_markdown MARKDOWN_PATTERNS (Py.strip " x") = None
  /\ has_brace_pair " x" = false
  /\ extract_json_from_text " x" = "x"
  /\ String.eqb (extract_json_from_text " x") " x" = false.
Proof. by vm_compute. Qed.

End JsonTextSpec.

(** * Repairing the parsed object *)

Module JsonRepairSpec.
Import Json JsonRepair.

Ltac other_key := intros ?; discriminate.

Lemma sanitize_path_field_other (ws : workspace) (d : dict) (f k : string) :
  k <> f -> sanitize_path_field ws d f !! k = d !! k.
Proof.
  intros Hk. unfold sanitize_path_field.
  destruct (d !! f) as [[| | | |value| |]|]; try done.
  destruct (Py.nonempty value); [|done].
  destruct (negb _); [|done]. by rewrite lookup_insert_ne.
Qed.

Lemma sanitize_path_values_other (d : dict) (ws : workspace) (k : string) :
  k <> "output" -> k <> "subtitle_path" -> k <> "overlay_path" -> k <> "inputs" ->
  sanitize_path_values d ws !! k = d !! k.
Proof.
  intros H1 H2 H3 H4. unfold sanitize_path_values. simpl fold_left.
  set (d3 := sanitize_path_field ws _ "overlay_path").
  assert (d3 !! k = d !! k) as <-.
  { subst d3. by rewrite !sanitize_path_field_other. }
  destruct (d3 !! "inputs") as [[| | | | |l|]|]; try done.
  by rewrite lookup_insert_ne.
Qed.

Lemma normalize_list_field_other (d : dict) (f k : string) :
  k <> f -> normalize_list_field d f !! k = d !! k.
Proof.
  intros Hk. unfold normalize_list_field.
  destruct (d !! f) as [[| | | | | |]|]; try done; by rewrite lookup_insert_ne.
Qed.

Lemma normalize_list_field_same (d : dict) (f : string) :
  is_list (normalize_list_field d f !! f) = true.
Proof.
  unfold normalize_list_field.
  destruct (d !! f) as [[| | | | | |]|] eqn:E;
    rewrite ?lookup_insert_eq; try done. by rewrite E.
Qed.

Lemma drop_blank_items_other (d : dict) (f k : string) :
  k <> f -> drop_blank_items d f !! k = d !! k.
Proof.
  intros Hk. unfold drop_blank_items.
  destruct (d !! f) as [[| | | | |l|]|]; try done. by rewrite lookup_insert_ne.
Qed.

Lemma drop_blank_items_same (d : dict) (f : string) :
  is_list (d !! f) = true ->
  exists l, drop_blank_items d f !! f = Some (JList l)
            /\ Forall (fun item => keeps item = true) l.
Proof.
  unfold drop_blank_items.
  destruct (d !! f) as [[| | | | |l|]|] eqn:E; try done. intros _.
  exists (List.filter keeps l). rewrite lookup_insert_eq. split; [done|].
  apply Forall_forall. intros x Hx.
  apply list_elem_of_In, List.filter_In in Hx. tauto.
Qed.

(** The object after the four steps that the sources hold: sanitising the
    paths, defaulting the action, normalising the lists, dropping blanks. *)
Lemma repaired_fields_before_inference
    (infer_action : string -> value) (d : dict) (q : string) (ws : workspace) :
  let r1 := sanitize_path_values d ws in
  let r2 := if negb (truthy_at r1 "action")
            then <["action" := infer_action q]> r1 else r1 in
  let r3 := fold_left normalize_list_field ["inputs"; "filters"; "extra_flags"] r2 in
  let r4 := fold_left drop_blank_items ["filters"; "extra_flags"] r3 in
  r4 !! "action"
    = (if truthy_at d "action" then d !! "action" else Some (infer_action q))
  /\ is_list (r4 !! "inputs") = true
  /\ (exists l, r4 !! "filters" = Some (JList l)
                /\ Forall (fun item => keeps item = true) l)
  /\ (exists l, r4 !! "extra_flags" = Some (JList l)
                /\ Forall (fun item => keeps item = true) l).
Proof.
  intros r1 r2 r3 r4.
  assert (r2 !! "action"
          = if truthy_at d "action" then d !! "action" else Some (infer_action q))
    as Haction.
  { subst r2. unfold truthy_at.
    assert (r1 !! "action" = d !! "action") as ->
      by (apply sanitize_path_values_other; other_key).
    destruct (d !! "action") as [v|] eqn:E; simpl.
    - destruct (truthy v); simpl; [|by rewrite lookup_insert_eq].
      subst r1. rewrite sanitize_path_values_other by other_key. done.
    - by rewrite lookup_insert_eq. }
  subst r4 r3. simpl fold_left.
  set (n1 := normalize_list_field r2 "inputs").
  set (n2 := normalize_list_field n1 "filters").
  set (n3 := normalize_list_field n2 "extra_flags").
  set (b1 := drop_blank_items n3 "filters").
  assert (is_list (n3 !! "inputs") = true) as Hin.
  { subst n3 n2. rewrite !normalize_list_field_other by other_key.
    apply normalize_list_field_same. }
  assert (is_list (n3 !! "filters") = true) as Hfi.
  { subst n3. rewrite normalize_list_field_other by other_key.
    apply normalize_list_field_same. }
  assert (is_list (n3 !! "extra_flags") = true) as Hex
    by apply normalize_list_field_same.
  split; [|split; [|split]].
  - subst b1 n3 n2 n1.
    rewrite !drop_blank_items_other by other_key.
    by rewrite !normalize_list_field_other by other_key.
  - subst b1. by rewrite !drop_blank_items_other by other_key.
  - rewrite drop_blank_items_other by other_key. subst b1.
    by apply drop_blank_items_same.
  - apply drop_blank_items_same. subst b1.
    by rewrite drop_blank_items_other by other_key.
Qed.

Lemma is_action_truthy (actions : list string) (v : option value) :
  is_action actions v = true -> truthy_opt v = true.
Proof.
  destruct v as [[| | | |a| |]|]; try done. simpl.
  by intros [H _]%andb_true_iff.
Qed.

Lemma blank_free_list (v : option value) :
  blank_free v = true ->
  exists l, v = Some (JList l) /\ Forall (fun item => keeps item = true) l.
Proof.
  destruct v as [[| | | | |l|]|]; try done. simpl. intros H.
  exists l. split; [done|]. apply Forall_forall. intros x Hx.
  apply list_elem_of_In in Hx. by apply (proj1 (forallb_forall _ _) H).
Qed.

Lemma list_blank_free (v : option value) (l : list value) :
  v = Some (JList l) -> Forall (fun item => keeps item = true) l ->
  blank_free v = true.
Proof.
  intros -> H. simpl. apply forallb_forall. intros x Hx.
  apply list_elem_of_In in Hx. by apply (proj1 (Forall_forall _ _) H).
Qed.

Lemma repaired_invariants_fields (d : dict) :
  repaired_invariants d = true ->
  truthy_at d "action" = true
  /\ is_list (d !! "inputs") = true
  /\ (exists l, d !! "filters" = Some (JList l)
                /\ Forall (fun item => keeps item = true) l)
  /\ (exists l, d !! "extra_flags" = Some (JList l)
                /\ Forall (fun item => keeps item = true) l).
Proof.
  unfold repaired_invariants.
  intros [[[Ha Hi]%andb_true_iff Hf]%andb_true_iff He]%andb_true_iff.
  split; [done|]. split; [done|]. split; by apply blank_free_list.
Qed.

(** The invariants of the result, and its action where the action that
    enters the inference is a member of the enumeration, for functions of
    [core/action_inference.py] that meet the contract. *)
Lemma repair_invariants (actions : list string)
    (infer_action : string -> value)
    (infer_inputs : dict -> string -> workspace -> dict)
    (infer_format fix_issues : dict -> string -> dict)
    (data : option dict) (q : string) (ws : workspace) :
  inference_contract actions infer_action infer_inputs infer_format fix_issues ->
  let r := repair_json_for_schema infer_action infer_inputs infer_format
             fix_issues data q ws in
  repaired_invariants r = true
  /\ (truthy_opt (given_action data) = false
      \/ is_action actions (given_action data) = true ->
      is_action actions (r !! "action") = true).
Proof.
  intros [Hact Hinp Hfmt Hfix] r. subst r. unfold repair_json_for_schema.
  set (d := match data with Some d => d | None => ∅ end).
  assert (given_action data = d !! "action") as ->.
  { subst d. by destruct data. }
  change (truthy_opt (d !! "action")) with (truthy_at d "action").
  destruct (repaired_fields_before_inference infer_action d q ws)
    as (Ha & Hi & (lf & Hf & Hlf) & (le & He & Hle)).
  cbv zeta in Ha, Hi, Hf, He. cbv zeta.
  set (r4 := fold_left drop_blank_items ["filters"; "extra_flags"] _) in *.
  assert (truthy_at d "action" = false \/ is_action actions (d !! "action") = true ->
          is_action actions (r4 !! "action") = true) as Hm4.
  { rewrite Ha. intros [->| H]; [apply Hact|].
    destruct (truthy_at d "action"); [done|apply Hact]. }
  assert (repaired_invariants r4 = true) as H4.
  { unfold repaired_invariants.
    rewrite Hi, (list_blank_free _ _ Hf Hlf), (list_blank_free _ _ He Hle).
    rewrite !andb_true_r. unfold truthy_at at 1. rewrite Ha.
    destruct (truthy_at d "action") eqn:E; [exact E|].
    exact (is_action_truthy actions _ (Hact q)). }
  set (r5 := if negb (truthy_at r4 "inputs") && needs_inputs (r4 !! "action")
             then infer_inputs r4 q ws else r4).
  assert (keeps_invariants actions r4 r5) as H45.
  { subst r5. destruct (_ && _); [apply Hinp|]. by intros ?. }
  destruct (H45 H4) as [H5 Hm5].
  destruct (Hfmt r5 q H5) as [H6 Hm6].
  destruct (Hfix (infer_format r5 q) q H6) as [H7 Hm7].
  split; [exact H7|]. intros H. by apply Hm7, Hm6, Hm5, Hm4.
Qed.

(** C6, as the sources and the contract of the inference steps give it.
    For every parsed response (None, or an object with missing fields, null
    list fields or a scalar where a list is expected) the result holds a
    truthy action, and that action is a member of the enumeration where the
    response carries no truthy action or carries a member already. Its
    [inputs], [filters] and [extra_flags] are lists, and no falsy or blank
    element is left in [filters] and [extra_flags]. The repair is a total
    function: it raises on no such input. *)
Theorem repair_establishes_schema_fields (actions : list string)
    (infer_action : string -> value)
    (infer_inputs : dict -> string -> workspace -> dict)
    (infer_format fix_issues : dict -> string -> dict)
    (data : option dict) (q : string) (ws : workspace) :
  inference_contract actions infer_action infer_inputs infer_format fix_issues ->
  let r := repair_json_for_schema infer_action infer_inputs infer_format
             fix_issues data q ws in
  truthy_at r "action" = true
  /\ (truthy_opt (given_action data) = false
      \/ is_action actions (given_action data) = true ->
      is_action actions (r !! "action") = true)
  /\ is_list (r !! "inputs") = true
  /\ (exists l, r !! "filters" = Some (JList l)
                /\ Forall (fun item => keeps item = true) l)
  /\ (exists l, r !! "extra_flags" = Some (JList l)
                /\ Forall (fun item => keeps item = true) l).
Proof.
  intros Hc r.
  destruct (repair_invariants actions infer_action infer_inputs infer_format
              fix_issues data q ws Hc) as [Hinv Hm].
  fold r in Hinv, Hm.
  destruct (repaired_invariants_fields r Hinv) as (Ha & Hi & Hf & He).
  done.
Qed.

Lemma first_video_as_input_keeps (actions : list string) (d : dict) (q : string)
    (ws : workspace) :
  keeps_invariants actions d (Scenarios.first_video_as_input d q ws).
Proof.
  unfold keeps_invariants, repaired_invariants, truthy_at,
    Scenarios.first_video_as_input.
  rewrite lookup_insert_eq, !lookup_insert_ne by done. simpl.
  intros [[[Ha _]%andb_true_iff Hf]%andb_true_iff He]%andb_true_iff.
  by rewrite Ha, Hf, He.
Qed.

Lemma stand_ins_meet_contract :
  inference_contract SPEC_ACTIONS Scenarios.always_convert
    Scenarios.first_video_as_input Scenarios.no_change Scenarios.no_change.
Proof.
  split; [done| |by intros d q H..].
  intros d q ws. apply first_video_as_input_keeps.
Qed.

Lemma repair_establishes_schema_fields_witness :
  let r := repair_json_for_schema Scenarios.always_convert
             Scenarios.first_video_as_input Scenarios.no_change Scenarios.no_change
             (Some Scenarios.malformed_lists_response) "make it smaller"
             Scenarios.one_video_workspace in
  is_action SPEC_ACTIONS (r !! "action") = true
  /\ is_list (r !! "inputs") = true.
Proof.
  pose proof (repair_establishes_schema_fields SPEC_ACTIONS
                Scenarios.always_convert Scenarios.first_video_as_input
                Scenarios.no_change Scenarios.no_change
                (Some Scenarios.malformed_lists_response) "make it smaller"
                Scenarios.one_video_workspace stand_ins_meet_contract)
    as (_ & Hm & Hi & _).
  split; [apply Hm; left; by vm_compute | exact Hi].
Defined.

(** C6, as the claim states it, fails. The code under src/ replaces the
    action only where it is absent or falsy, so an action outside the
    enumeration reaches the inference steps as it came; with functions of
    [core/action_inference.py] that meet the contract and leave the action
    alone, the stand-ins, it is the action of the result. *)
Lemma repair_keeps_unlisted_action :
  inference_contract SPEC_ACTIONS Scenarios.always_convert
    Scenarios.first_video_as_input Scenarios.no_change Scenarios.no_change
  /\ repair_json_for_schema Scenarios.always_convert
       Scenarios.first_video_as_input Scenarios.no_change Scenarios.no_change
       (Some Scenarios.unlisted_action_response) "explode video.mp4"
       Scenarios.one_video_workspace !! "action"
     = Some (JStr "explode")
  /\ is_action SPEC_ACTIONS (Some (JStr "explode")) = false.
Proof.
  split; [exact stand_ins_meet_contract|]. split; by vm_compute.
Qed.

(** The contract leaves the action of the result open: a post-fix that
    settles on the fallback action meets it as well, and with it the same
    response comes back as a convert. *)
Example post_fix_may_replace_the_action :
  inference_contract SPEC_ACTIONS Scenarios.always_convert
    Scenarios.first_video_as_input Scenarios.no_change
    Scenarios.action_becomes_convert
  /\ repair_json_for_schema Scenarios.always_convert
       Scenarios.first_video_as_input Scenarios.no_change
       Scenarios.action_becomes_convert
       (Some Scenarios.unlisted_action_response) "explode video.mp4"
       Scenarios.one_video_workspace !! "action"
     = Some (JStr "convert").
Proof.
  split; [|by vm_compute].
  split; [done| |by intros d q H|].
  - intros d q ws. apply first_video_as_input_keeps.
  - intros d q. unfold keeps_invariants, repaired_invariants, truthy_at,
      Scenarios.action_becomes_convert.
    rewrite lookup_insert_eq, !lookup_insert_ne by done. simpl.
    intros [[[_ Hi]%andb_true_iff Hf]%andb_true_iff He]%andb_true_iff.
    by rewrite Hi, Hf, He.
Qed.

End JsonRepairSpec.

(** * The probe-duration reader *)

Module FfprobeSpec.
Import Json FfprobeAnalyzer.

(** Where the probe output is an object without a duration (no "format"
    key, or a "format" object with no "duration" key or a null one), the
    reader returns None. *)
Theorem absent_duration_returns_none
    (json_loads : string -> option value) (stdout : string) (d : dict) :
  json_loads stdout = Some (JDict d) ->
  (d !! "format" = None
   \/ exists f, d !! "format" = Some (JDict f)
                /\ (f !! "duration" = None \/ f !! "duration" = Some JNull)) ->
  ffprobe_duration json_loads true (ProbeCompleted stdout) = ReturnNone.
Proof.
  intros Hd H. unfold ffprobe_duration. simpl negb. cbv iota.
  destruct (_ <? _)%N; [done|]. rewrite Hd. unfold get_or.
  destruct H as [H|(f & Hf & [H|H])].
  - by rewrite H, lookup_empty.
  - by rewrite Hf, H.
  - by rewrite Hf, H.
Qed.

Lemma absent_duration_returns_none_witness :
  ffprobe_duration (fun _ => Some (JDict {[ "format" := JDict ∅ ]})) true
    (ProbeCompleted "{}") = ReturnNone.
Proof.
  apply (absent_duration_returns_none _ "{}" {[ "format" := JDict ∅ ]}); [done|].
  right. exists ∅. split; [by vm_compute|]. by left.
Defined.

(** A duration that is a string [float] does not accept raises ValueError,
    which no handler of the reader catches. *)
Theorem non_numeric_duration_raises
    (json_loads : string -> option value) (stdout s : string) (d f : dict) :
  (N.of_nat (String.length stdout) <= MAX_FFPROBE_OUTPUT_SIZE)%N ->
  json_loads stdout = Some (JDict d) ->
  d !! "format" = Some (JDict f) ->
  f !! "duration" = Some (JStr s) ->
  is_float_literal s = false ->
  ffprobe_duration json_loads true (ProbeCompleted stdout) = Raises ValueError.
Proof.
  intros Hsize Hd Hf Hs Hlit. unfold ffprobe_duration. simpl negb. cbv iota.
  apply N.ltb_ge in Hsize. rewrite Hsize, Hd. unfold get_or.
  rewrite Hf, Hs. simpl. by rewrite Hlit.
Qed.

Lemma non_numeric_duration_raises_witness :
  ffprobe_duration Scenarios.loads_na_probe true
    (ProbeCompleted Scenarios.na_probe_stdout) = Raises ValueError.
Proof.
  apply (non_numeric_duration_raises _ _ "N/A"
           {[ "format" := JDict {[ "duration" := JStr "N/A" ]} ]}
           {[ "duration" := JStr "N/A" ]}); by vm_compute.
Defined.

(** [float] strips blanks, tabs and line breaks around the text, yet not
    the separators FS to US, which [str.strip] takes for whitespace. *)
Example float_keeps_separators :
  is_float_literal " 1.5 " = true
  /\ is_float_literal (String (ascii_of_nat 28) "1.5") = false
  /\ Py.strip (String (ascii_of_nat 28) "1.5") = "1.5".
Proof. by vm_compute. Qed.

(** C8, at its failing input. The probe prints a duration of "N/A";
    [float("N/A")] raises ValueError and the reader lets it through. *)
Theorem na_duration_raises_value_error :
  Scenarios.na_probe_stdout
  = String "{" (Scenarios.dq +:+ "format" +:+ Scenarios.dq +:+ ": {"
                +:+ Scenarios.dq +:+ "duration" +:+ Scenarios.dq +:+ ": "
                +:+ Scenarios.dq +:+ "N/A" +:+ Scenarios.dq +:+ "}}")
  /\ ffprobe_duration Scenarios.loads_na_probe true
       (ProbeCompleted Scenarios.na_probe_stdout) = Raises ValueError.
Proof. by vm_compute. Qed.

End FfprobeSpec.

(** * The exit codes of the entry point *)

Module MainSpec.
Import Main.

Lemma issubclass_derived (name : string) (base h : exc_class) :
  (forall n b, h <> Derived n b) ->
  issubclass (Derived name base) h = issubclass base h.
Proof.
  intros Hh. unfold issubclass. simpl.
  rewrite bool_decide_eq_false_2; [done|]. intros E. by eapply Hh.
Qed.

Lemma handler_for_derived (name : string) (base : exc_class) :
  handler_for (Derived name base) = handler_for base.
Proof.
  unfold handler_for, HANDLERS. simpl.
  by rewrite !issubclass_derived by done.
Qed.

Lemma main_derived (name : string) (base : exc_class) (exit_code : Z) :
  main (Raised base) = SysExit exit_code ->
  main (Raised (Derived name base)) = SysExit exit_code.
Proof.
  unfold main. rewrite handler_for_derived.
  by destruct (handler_for base) as [[h c]|].
Qed.

Lemma issubclass_derived_inv (name : string) (base h : exc_class) :
  (forall n b, h <> Derived n b) ->
  issubclass (Derived name base) h = true -> issubclass base h = true.
Proof. intros Hh. by rewrite issubclass_derived. Qed.

(** An instance of a kind exits with the code of the kind. *)
Lemma kind_exit_code (kind : exc_class) (exit_code : Z) (c : exc_class) :
  (kind, exit_code) ∈ KIND_CODES ->
  issubclass c kind = true -> main (Raised c) = SysExit exit_code.
Proof.
  intros Hk. induction c as [| | | | | | | | | | | |name base IH]; intros Hc.
  13: { apply main_derived, IH.
        apply (issubclass_derived_inv name); [|done].
        unfold KIND_CODES in Hk.
        repeat (apply elem_of_cons in Hk as [[= -> ->]|Hk]; [done|]).
        by apply elem_of_nil in Hk. }
  all: unfold KIND_CODES in Hk;
    repeat (apply elem_of_cons in Hk as [[= -> ->]|Hk];
            [by vm_compute in Hc |- *|]);
    by apply elem_of_nil in Hk.
Qed.

(** Every other instance of [Exception] exits with code 1. *)
Lemma other_exit_code (c : exc_class) :
  issubclass c Exception = true ->
  (forall kind exit_code, (kind, exit_code) ∈ KIND_CODES -> issubclass c kind = false) ->
  main (Raised c) = SysExit 1.
Proof.
  induction c as [| | | | | | | | | | | |name base IH]; intros He Hk.
  13: { apply main_derived, IH.
        - by apply (issubclass_derived_inv name).
        - intros kind code Hin. rewrite <- (Hk kind code Hin).
          symmetry. apply issubclass_derived.
          unfold KIND_CODES in Hin.
          repeat (apply elem_of_cons in Hin as [[= -> ->]|Hin]; [done|]).
          by apply elem_of_nil in Hin. }
  all: try (by vm_compute in He |- *).
  all: match goal with
       | |- main (Raised ?k) = _ =>
           assert (exists code, (k, code) ∈ KIND_CODES) as [code Hin]
             by (eexists; unfold KIND_CODES; repeat constructor);
           specialize (Hk k code Hin); by vm_compute in Hk
       end.
Qed.

(** C9. [main] maps each raised error kind to its process exit code:
    SecurityError 2, ValidationError 3, ConfigError 4, TranslationError 5,
    ConstructionError 6, ExecError 7, KeyboardInterrupt 130, and every other
    MediaLLMError or other exception 1. *)
Theorem main_exit_codes :
  main (Raised SecurityError) = SysExit 2
  /\ main (Raised ValidationError) = SysExit 3
  /\ main (Raised ConfigError) = SysExit 4
  /\ main (Raised TranslationError) = SysExit 5
  /\ main (Raised ConstructionError) = SysExit 6
  /\ main (Raised ExecError) = SysExit 7
  /\ main (Raised KeyboardInterrupt) = SysExit 130
  /\ main (Raised MediaLLMError) = SysExit 1
  /\ main (Raised OSError) = SysExit 1
  /\ main (Raised Exception) = SysExit 1
  /\ (forall kind exit_code c,
        (kind, exit_code) ∈ KIND_CODES -> issubclass c kind = true ->
        main (Raised c) = SysExit exit_code)
  /\ (forall c,
        issubclass c Exception = true ->
        (forall kind exit_code,
            (kind, exit_code) ∈ KIND_CODES -> issubclass c kind = false) ->
        main (Raised c) = SysExit 1).
Proof.
  repeat (split; [by vm_compute|]).
  split; [exact kind_exit_code | exact other_exit_code].
Qed.

Lemma main_exit_codes_witness :
  main (Raised (Derived "ParseError" TranslationError)) = SysExit 5
  /\ main (Raised (Derived "ValueError" Exception)) = SysExit 1.
Proof.
  destruct main_exit_codes as (_ & _ & _ & _ & _ & _ & _ & _ & _ & _ & Hk & Ho).
  split.
  - apply (Hk TranslationError); [repeat constructor | by vm_compute].
  - apply Ho; [by vm_compute|].
    intros kind code Hin. unfold KIND_CODES in Hin.
    repeat (apply elem_of_cons in Hin as [[= -> ->]|Hin]; [by vm_compute|]).
    by apply elem_of_nil in Hin.
Defined.

End MainSpec.

(** * Further properties of the sources *)

Module MoreFacts.
Import PyFacts JsonTextSpec.

Lemma endswith_spec (s p : string) :
  Py.endswith s p = true <-> exists pre, s = pre +:+ p.
Proof.
  unfold Py.endswith. split.
  - intros H. apply startswith_inv in H as [t Ht]. exists (Py.rev t).
    by rewrite <- (rev_involutive s), Ht, rev_app, rev_involutive.
  - intros [pre ->]. rewrite rev_app. apply startswith_app.
Qed.

Lemma append_length (a b : string) :
  String.length (a +:+ b) = String.length a + String.length b.
Proof.
  induction a as [|c a IH]; [done|]. rewrite append_cons. simpl. by rewrite IH.
Qed.

Lemma eqc_sym (a b : ascii) : Py.eqc a b = Py.eqc b a.
Proof. apply N.eqb_sym. Qed.

End MoreFacts.

(** ** The executor: what runs, what is shown, what is refused *)

Module ExecutorMoreSpec.
Import Re CommandExecutor ExecutorDispatch TextParts PyFacts ReFacts JsonTextSpec MoreFacts.

(** *** What reaches [subprocess.run] *)

Lemma validate_command_secure {World : Type} (which : World -> string -> bool)
    (w : World) (cmd : list string) :
  validate_command which w cmd = None -> is_command_secure cmd = true.
Proof.
  unfold validate_command. destruct cmd as [|exe rest]; [done|].
  destruct (negb (which w exe)); [done|].
  by destruct (is_command_secure (exe :: rest)).
Qed.

Lemma execute_single_recorded {World : Type} (which : World -> string -> bool)
    (subprocess_run : World -> list string -> run_outcome * World)
    (w : World) (calls : list (list string)) (cmd : list string) (i total : nat) :
  let run := execute_single_command (on_world which) (recording subprocess_run)
               (w, calls) cmd i total in
  (snd (snd run) = calls /\ fst (fst run) <> None)
  \/ (snd (snd run) = calls ++ [cmd] /\ is_command_secure cmd = true).
Proof.
  unfold execute_single_command.
  destruct (validate_command (on_world which) (w, calls) cmd) as [e|] eqn:Ev.
  - by left.
  - apply validate_command_secure in Ev. right.
    unfold recording. cbn [fst snd].
    by destruct (subprocess_run w cmd) as [[| |stderr|] w1].
Qed.

Lemma execute_loop_recorded {World : Type} (which : World -> string -> bool)
    (subprocess_run : World -> list string -> run_outcome * World)
    (cmds : list (list string)) :
  forall (s : World * list (list string)) (i total successful : nat),
    let run := execute_loop (on_world which) (recording subprocess_run)
                 s cmds i total successful in
    exists n,
      snd (snd run) = snd s ++ take n cmds
      /\ Forall (fun c => is_command_secure c = true) (take n cmds)
      /\ (forall k, fst (fst run) = inl k ->
            n = List.length cmds /\ k = successful + List.length cmds).
Proof.
  induction cmds as [|cmd rest IH]; intros [w calls] i total successful; simpl.
  - exists 0. rewrite app_nil_r. split; [done|]. split; [constructor|].
    intros k [= <-]. split; lia.
  - pose proof (execute_single_recorded which subprocess_run w calls cmd i total) as H1.
    destruct (execute_single_command (on_world which) (recording subprocess_run)
                (w, calls) cmd i total) as [[r out] [w1 calls1]].
    simpl in H1. destruct r as [e|].
    + assert (exists n, calls1 = calls ++ take n (cmd :: rest)
                /\ Forall (fun c => is_command_secure c = true) (take n (cmd :: rest)))
        as (n & Hc & Hs).
      { destruct H1 as [[-> _]|[-> Hsec]].
        - exists 0. by rewrite app_nil_r.
        - exists 1. simpl. rewrite take_0. split; [done|]. by repeat constructor. }
      exists n. destruct e; simpl; (split; [done|split; [done|done]]).
    + destruct H1 as [[_ H1]|[-> Hsec]]; [done|].
      specialize (IH (w1, calls ++ [cmd]) (S i) total (S successful)).
      simpl in IH. destruct IH as (n & Hc & Hs & Hk).
      destruct (execute_loop (on_world which) (recording subprocess_run)
                  (w1, calls ++ [cmd]) rest (S i) total (S successful))
        as [[r out'] [w2 calls2]]. simpl in *.
      exists (S n). rewrite Hc, <- app_assoc. simpl.
      split; [done|]. split; [by constructor|].
      intros k Hr. destruct (Hk k Hr) as [-> ->]. split; lia.
Qed.

(** Recording the calls does not change what the batch does. *)
Lemma execute_loop_recording_faithful {World : Type} (which : World -> string -> bool)
    (subprocess_run : World -> list string -> run_outcome * World)
    (cmds : list (list string)) :
  forall (s : World * list (list string)) (i total successful : nat),
    let rec := execute_loop (on_world which) (recording subprocess_run)
                 s cmds i total successful in
    let plain := execute_loop which subprocess_run (fst s) cmds i total successful in
    fst rec = fst plain /\ fst (snd rec) = snd plain.
Proof.
  induction cmds as [|cmd rest IH]; intros [w calls] i total successful; simpl;
    [done|].
  unfold execute_single_command, on_world. cbn [fst snd].
  destruct (validate_command which w cmd) as [e|] eqn:Ev.
  - assert (validate_command (fun s : World * list (list string) => which (fst s))
              (w, calls) cmd = Some e) as ->.
    { unfold validate_command in *. by destruct cmd. }
    by destruct e.
  - assert (validate_command (fun s : World * list (list string) => which (fst s))
              (w, calls) cmd = None) as ->.
    { unfold validate_command in *. by destruct cmd. }
    unfold recording. cbn [fst snd].
    destruct (subprocess_run w cmd) as [[| |stderr|] w1]; simpl; try done.
    specialize (IH (w1, calls ++ [cmd]) (S i) total (S successful)).
    simpl in IH. unfold on_world, recording in IH.
    destruct (execute_loop _ _ (w1, calls ++ [cmd]) rest (S i) total (S successful))
      as [[r out'] [w2 calls2]].
    destruct (execute_loop which subprocess_run w1 rest (S i) total (S successful))
      as [[r' out''] w2'].
    simpl in *. destruct IH as [[= -> ->] ->]. done.
Qed.

(** The commands handed to [subprocess.run] by [_execute_commands] are an
    initial part of the plan, in plan order; each of them passed
    [_is_command_secure]; when the call returns an exit code instead of
    raising, every command of the plan has run and the code is 0. *)
Theorem subprocess_runs_only_secure_commands {World : Type}
    (which : World -> string -> bool)
    (subprocess_run : World -> list string -> run_outcome * World)
    (w : World) (commands : list (list string)) (assume_yes : bool) :
  let rec := execute_commands (on_world which) (recording subprocess_run)
               (w, []) commands assume_yes in
  let plain := execute_commands which subprocess_run w commands assume_yes in
  let calls := snd (snd rec) in
  fst rec = fst plain /\ fst (snd rec) = snd plain
  /\ (exists n, calls = take n commands)
  /\ Forall (fun c => is_command_secure c = true) calls
  /\ (forall code, fst (fst rec) = inl code -> code = 0%Z /\ calls = commands).
Proof.
  unfold execute_commands. simpl negb. cbv iota zeta.
  pose proof (execute_loop_recorded which subprocess_run commands (w, []) 1
                (List.length commands) 0) as (n & Hc & Hs & Hk).
  pose proof (execute_loop_recording_faithful which subprocess_run commands (w, []) 1
                (List.length commands) 0) as [Hf1 Hf2].
  simpl in Hc, Hk, Hf1, Hf2.
  destruct (execute_loop (on_world which) (recording subprocess_run) (w, [])
              commands 1 (List.length commands) 0) as [[r out] [w1 calls]].
  destruct (execute_loop which subprocess_run w commands 1 (List.length commands) 0)
    as [[r' out'] w1'].
  simpl in *. injection Hf1 as <- <-. subst w1' calls.
  destruct r as [k|e]; simpl.
  - destruct (Hk k eq_refl) as [-> ->]. rewrite Nat.eqb_refl, firstn_all in *.
    split; [done|]. split; [done|]. split; [|split; [done|]].
    + exists (List.length commands). by rewrite firstn_all.
    + by intros c [= <-].
  - split; [done|]. split; [done|]. split; [by exists n|]. by split.
Qed.

(** *** The preview and the overwrite detection *)

Lemma extract_output_path_last (cmd : list string) :
  extract_output_path cmd
  = if (List.length cmd <? 2)%nat then None
    else Some (path_text (List.last cmd "")).
Proof.
  unfold extract_output_path. destruct (List.length cmd <? 2)%nat eqn:E; [done|].
  destruct (last cmd) as [output|] eqn:L.
  - apply last_Some in L as [pre ->]. by rewrite List.last_last.
  - apply last_None in L as ->. done.
Qed.

(** The preview has one row per command, numbered from 1 in plan order and
    showing the command joined by blanks. The output column shows the last
    argument as [Path] writes it (repeated slashes and single dots gone), or
    "N/A" for a command of fewer than two arguments. [detect_overwrites]
    reports an overwrite exactly when some row of the preview has the status
    "Overwrite". *)
Theorem preview_agrees_with_detect_overwrites {World : Type}
    (path_exists : World -> string -> bool) (w : World)
    (commands : list (list string)) :
  let rows := preview_rows path_exists w 1 commands in
  map row_number rows = seq 1 (List.length commands)
  /\ map row_command rows = map format_command commands
  /\ map row_output rows
     = map (fun cmd => if (List.length cmd <? 2)%nat then "N/A"
                       else path_text (List.last cmd "")) commands
  /\ map row_output
       (preview_rows path_exists w 1
          [["ffmpeg"; "-i"; "in.mp4"; "./clips//out.mp4"]; ["ffmpeg"]])
     = ["clips/out.mp4"; "N/A"]
  /\ detect_overwrites path_exists w commands
     = existsb (fun row => String.eqb (row_status row) "Overwrite") rows.
Proof.
  assert (forall idx,
            let rows := preview_rows path_exists w idx commands in
            map row_number rows = seq idx (List.length commands)
            /\ map row_command rows = map format_command commands
            /\ map row_output rows
               = map (fun cmd => if (List.length cmd <? 2)%nat then "N/A"
                                 else path_text (List.last cmd "")) commands
            /\ detect_overwrites path_exists w commands
               = existsb (fun row => String.eqb (row_status row) "Overwrite") rows)
    as H.
  { induction commands as [|cmd rest IH]; intros idx; [done|].
    destruct (IH (S idx)) as (H1 & H2 & H3 & H4). simpl.
    rewrite H1, H2, H3. split; [done|]. split; [done|]. split.
    - f_equal. rewrite extract_output_path_last.
      by destruct (List.length cmd <? 2)%nat.
    - unfold detect_overwrites in *. simpl. rewrite H4. f_equal.
      destruct (extract_output_path cmd) as [p|]; [|done].
      by destruct (path_exists w p). }
  destruct (H 1) as (H1 & H2 & H3 & H4).
  split; [done|]. split; [done|]. split; [done|]. split; [|done].
  by vm_compute.
Qed.

(** *** The executable test *)

(** [_is_command_secure] takes the first argument for an allowed executable
    exactly when its text ends with "ffmpeg" or "ffprobe", whatever stands
    before: a directory, or the rest of another program name. *)
Theorem valid_executable_is_a_suffix_test (command : list string) :
  valid_executable command = true <->
  exists pre exe rest,
    command = (pre +:+ exe) :: rest /\ (exe = "ffmpeg" \/ exe = "ffprobe").
Proof.
  unfold valid_executable. destruct command as [|first rest].
  - split; [done|]. by intros (pre & exe & r & [=] & _).
  - simpl. rewrite orb_false_r, orb_true_iff, !endswith_spec. split.
    + intros [[pre ->]|[pre ->]]; exists pre; eauto.
    + intros (pre & exe & r & [= -> ->] & [->| ->]); eauto.
Qed.

(** *** Privileged commands as arguments of their own *)

Lemma prev_after_app (pv : option ascii) (a b : string) :
  prev_after pv (a +:+ b) = prev_after (prev_after pv a) b.
Proof.
  revert pv. induction a as [|c a IH]; intros pv; [done|].
  rewrite append_cons. simpl. apply IH.
Qed.

Lemma search_from_prev (r : regex) (pre s : string) (pv : option ascii) :
  is_Some (match_at r (prev_after pv pre) s) ->
  is_Some (search_from r pv (pre +:+ s)).
Proof.
  revert pv. induction pre as [|a pre IH]; intros pv H.
  - rewrite append_nil_l. simpl in H. destruct H as [st Hst].
    destruct s; simpl; rewrite Hst; by eexists.
  - rewrite append_cons. simpl.
    destruct (match_at r pv (String a (pre +:+ s))); [by eexists|]. by apply IH.
Qed.

Lemma rmatch_lit_i (m : string) :
  forall a pv t g k,
    Py.lower a = Py.lower m ->
    rmatch (lit_i m) (MState pv (a +:+ t) g) k = k (MState (prev_after pv a) t g).
Proof.
  induction m as [|c m IH]; intros a pv t g k H.
  - destruct a; [done|discriminate].
  - destruct a as [|x a]; [discriminate|]. simpl in H. injection H as Hx Ha.
    assert (rmatch (chr_i c) (MState pv (String x (a +:+ t)) g)
              (fun st' => rmatch (lit_i m) st' k)
            = rmatch (lit_i m) (MState (Some x) (a +:+ t) g) k) as Hstep.
    { simpl. by rewrite Hx, eqc_refl. }
    rewrite append_cons. destruct m as [|d m].
    + destruct a; [|discriminate]. simpl. by rewrite Hx, eqc_refl.
    + change (lit_i (String c (String d m)))
        with (RSeq (chr_i c) (lit_i (String d m))).
      change (rmatch (RSeq (chr_i c) (lit_i (String d m)))
                (MState pv (String x (a +:+ t)) g) k)
        with (rmatch (chr_i c) (MState pv (String x (a +:+ t)) g)
                (fun st' => rmatch (lit_i (String d m)) st' k)).
      rewrite Hstep. exact (IH a (Some x) t g k Ha).
Qed.

Lemma lower_letter_is_word (x : ascii) :
  Py.islower (Py.lower_char x) = true -> Py.isword x = true.
Proof.
  unfold Py.lower_char, Py.isword. destruct (Py.isupper x) eqn:E.
  - intros _. by rewrite orb_true_r.
  - intros ->. by rewrite orb_true_r.
Qed.

Lemma lower_word_first (a m : string) (t : string) :
  Py.lower a = m -> all_lower m = true -> m <> "" ->
  exists x a', a = String x a' /\ Py.isword x = true.
Proof.
  intros <- Hm Hne. destruct a as [|x a]; [done|]. exists x, a. split; [done|].
  simpl in Hm. apply andb_true_iff in Hm as [Hx _]. by apply lower_letter_is_word.
Qed.

Lemma lower_word_last (a : string) :
  forall pv, all_lower (Py.lower a) = true -> a <> "" ->
    exists y, prev_after pv a = Some y /\ Py.isword y = true.
Proof.
  induction a as [|x a IH]; intros pv Hm Hne; [done|].
  simpl in Hm. apply andb_true_iff in Hm as [Hx Ha]. simpl.
  destruct a as [|x' a'].
  - exists x. split; [done|]. by apply lower_letter_is_word.
  - by apply IH.
Qed.

Lemma join_elem_sep (sep a : string) (l : list string) :
  a ∈ l ->
  exists pre post,
    Py.join sep l = pre +:+ a +:+ post
    /\ (pre = "" \/ exists p, pre = p +:+ sep)
    /\ (post = "" \/ exists q, post = sep +:+ q).
Proof.
  induction l as [|b l IH]; intros Hin; [by apply elem_of_nil in Hin|].
  apply elem_of_cons in Hin as [->|Hin].
  - destruct l as [|c l].
    + exists "", "". rewrite append_nil_r. by repeat split; left.
    + exists "", (sep +:+ Py.join sep (c :: l)). repeat split; [by left|].
      right. by eexists.
  - destruct (IH Hin) as (pre & post & E & Hpre & Hpost).
    destruct l as [|c l]; [by apply elem_of_nil in Hin|].
    exists (b +:+ sep +:+ pre), post.
    rewrite join_cons, E, !append_assoc. repeat split; [|done].
    right. destruct Hpre as [->|[p ->]].
    + exists b. by rewrite append_nil_r.
    + exists (b +:+ sep +:+ p). by rewrite !append_assoc.
Qed.

(** A pattern [\bword\b] under IGNORECASE finds an argument that is the
    word, in any letter case, in the joined command. *)
Lemma whole_word_matches (m a : string) (l : list string) :
  all_lower m = true -> m <> "" -> Py.lower a = m -> a ∈ l ->
  matches (seqs [RWordB; lit_i m; RWordB]) (Py.join " " l) = true.
Proof.
  intros Hm Hne Ha Hin.
  destruct (join_elem_sep " " a l Hin) as (pre & post & -> & Hpre & Hpost).
  unfold matches, search.
  destruct (search_from_prev (seqs [RWordB; lit_i m; RWordB]) pre (a +:+ post) None)
    as [st ->]; [|done].
  assert (Py.lower m = m) as Hmm.
  { clear -Hm. induction m as [|c m IH]; [done|]. simpl in *.
    apply andb_true_iff in Hm as [Hc Hm]. rewrite (IH Hm). f_equal.
    unfold Py.lower_char.
    destruct (Py.isupper c) eqn:E; [|done].
    unfold Py.islower, Py.isupper, Py.in_range in *.
    apply andb_true_iff in Hc as [H1 H2]. apply andb_true_iff in E as [H3 H4].
    apply N.leb_le in H1, H2, H3, H4. lia. }
  assert (prev_after None pre = None \/ prev_after None pre = Some " "%char) as Hpv.
  { destruct Hpre as [->|[p ->]]; [by left|right]. by rewrite prev_after_app. }
  destruct (lower_word_first a m post Ha Hm Hne) as (x & a' & Hax & Hx).
  destruct (lower_word_last a (prev_after None pre)) as (y & Hy & Hyw).
  { by rewrite Ha. } { by rewrite Hax. }
  change (seqs [RWordB; lit_i m; RWordB]) with (RSeq RWordB (RSeq (lit_i m) RWordB)).
  unfold match_at.
  change (rmatch (RSeq RWordB (RSeq (lit_i m) RWordB))
            (MState (prev_after None pre) (a +:+ post) None) Some)
    with (if at_word_boundary (prev_after None pre) (a +:+ post)
          then rmatch (lit_i m) (MState (prev_after None pre) (a +:+ post) None)
                 (fun st' => rmatch RWordB st' Some)
          else None).
  assert (at_word_boundary (prev_after None pre) (a +:+ post) = true) as ->.
  { rewrite Hax, append_cons. unfold at_word_boundary. rewrite Hx.
    by destruct Hpv as [-> | ->]. }
  rewrite rmatch_lit_i by (by rewrite Ha, Hmm). rewrite Hy. simpl.
  assert (at_word_boundary (Some y) post = true) as ->; [|by eexists].
  unfold at_word_boundary. rewrite Hyw.
  by destruct Hpost as [->|[q ->]].
Qed.

(** An argument that is "sudo", "chmod", "chown" or "mkfs" in any letter
    case, and that is not the value of a filter flag, makes
    [_is_command_secure] reject the command. *)
Theorem privileged_command_argument_rejects (command : list string) (arg m : string) :
  m ∈ ["sudo"; "chmod"; "chown"; "mkfs"] ->
  arg ∈ non_filter_args command ->
  Py.lower arg = m ->
  is_command_secure command = false.
Proof.
  intros Hm Hin Ha.
  apply (ExecutorSpec.dangerous_pattern_rejects command (seqs [RWordB; lit_i m; RWordB])).
  - unfold DANGEROUS_PATTERNS.
    repeat (apply elem_of_cons in Hm as [->|Hm]).
    + do 12 right. by left.
    + do 13 right. by left.
    + do 14 right. by left.
    + do 15 right. by left.
    + by apply elem_of_nil in Hm.
  - apply (whole_word_matches m arg); try done.
    + repeat (apply elem_of_cons in Hm as [->|Hm]); try done.
      by apply elem_of_nil in Hm.
    + intros ->. repeat (apply elem_of_cons in Hm as [Hm|Hm]; [done|]).
      by apply elem_of_nil in Hm.
Qed.

Lemma privileged_command_argument_rejects_witness :
  is_command_secure ["ffmpeg"; "-i"; "test.mp4"; "SuDo"; "reboot"] = false.
Proof.
  apply (privileged_command_argument_rejects _ "SuDo" "sudo");
    [in_list | in_list | by vm_compute].
Defined.

End ExecutorMoreSpec.

(** ** The retry handler: validation and the shape of a run *)

Module RetryMoreSpec.
Import CommandExecutor CommandRetry RetryCounts PyFacts RetrySpec MoreFacts.

(** *** The quick validation command *)

Lemma last_input_idx_none (cmd : list string) :
  forall i acc, "-i" ∉ cmd -> last_input_idx_from i cmd acc = acc.
Proof.
  induction cmd as [|a cmd IH]; intros i acc H; [done|]. simpl.
  apply not_elem_of_cons in H as [Ha H].
  destruct (String.eqb_spec a "-i") as [->|_]; [done|]. by apply IH.
Qed.

Lemma last_input_idx_last (pre post : list string) :
  forall i acc, "-i" ∉ post ->
    last_input_idx_from i (pre ++ "-i" :: post) acc
    = (i + Z.of_nat (List.length pre) + 1)%Z.
Proof.
  induction pre as [|a pre IH]; intros i acc H; simpl.
  - rewrite last_input_idx_none by done. lia.
  - rewrite IH by done. lia.
Qed.

Lemma quick_validation_cmd_inserts (pre : list string) (p : string)
    (post : list string) :
  head (pre ++ "-i" :: p :: post) = Some "ffmpeg" ->
  "-i" ∉ p :: post ->
  build_quick_validation_cmd (pre ++ "-i" :: p :: post)
  = Some (pre ++ "-i" :: p :: "-t" :: "0.001" :: post).
Proof.
  intros Hhead Hlast. unfold build_quick_validation_cmd.
  destruct (pre ++ "-i" :: p :: post) as [|exe rest] eqn:E; [done|].
  injection Hhead as ->. simpl negb. cbv iota zeta. rewrite <- E. clear E rest.
  rewrite last_input_idx_last by done.
  replace (0 + Z.of_nat (List.length pre) + 1)%Z
    with (Z.of_nat (List.length pre) + 1)%Z by lia.
  assert ((0 <? Z.of_nat (List.length pre) + 1)%Z
          && (Z.of_nat (List.length pre) + 1
              <? Z.of_nat (List.length (pre ++ "-i" :: p :: post)))%Z = true) as ->.
  { apply andb_true_iff. split; apply Z.ltb_lt; [lia|].
    rewrite length_app. simpl. lia. }
  replace (Z.to_nat (Z.of_nat (List.length pre) + 1 + 1))
    with (List.length (pre ++ ["-i"; p])) by (rewrite length_app; simpl; lia).
  replace (pre ++ "-i" :: p :: post) with ((pre ++ ["-i"; p]) ++ post)
    by (by rewrite <- app_assoc).
  rewrite take_app_length, drop_app_length. by rewrite <- !app_assoc.
Qed.

Lemma quick_validation_cmd_unchanged (cmd : list string) :
  head cmd = Some "ffmpeg" ->
  "-i" ∉ cmd \/ (exists pre, cmd = pre ++ ["-i"]) ->
  build_quick_validation_cmd cmd = Some cmd.
Proof.
  intros Hhead H. unfold build_quick_validation_cmd.
  destruct cmd as [|exe rest] eqn:E; [done|].
  injection Hhead as ->. simpl negb. cbv iota zeta. rewrite <- E in *. clear E rest.
  destruct H as [H|[pre ->]].
  - rewrite last_input_idx_none by done. done.
  - rewrite last_input_idx_last by apply not_elem_of_nil.
    rewrite length_app. simpl List.length.
    assert ((0 + Z.of_nat (List.length pre) + 1
             <? Z.of_nat (List.length pre + 1))%Z = false) as ->
      by (apply Z.ltb_ge; lia).
    by rewrite andb_false_r.
Qed.

(** [_build_quick_validation_cmd] gives nothing unless the command starts
    with "ffmpeg". For a command that starts with "ffmpeg": when an argument
    follows the last "-i", the result is the command with "-t 0.001" put
    right after that argument and nothing else changed; when the command
    holds no "-i", or its last "-i" is its last argument, the result is the
    command itself. These are all the results there are. *)
Theorem quick_validation_cmd_shape (cmd : list string) :
  (build_quick_validation_cmd cmd = None <-> head cmd <> Some "ffmpeg")
  /\ (head cmd = Some "ffmpeg" ->
      (forall pre p post,
          cmd = pre ++ "-i" :: p :: post -> "-i" ∉ p :: post ->
          build_quick_validation_cmd cmd
          = Some (pre ++ "-i" :: p :: "-t" :: "0.001" :: post))
      /\ ("-i" ∉ cmd -> build_quick_validation_cmd cmd = Some cmd)
      /\ (forall pre, cmd = pre ++ ["-i"] ->
            build_quick_validation_cmd cmd = Some cmd))
  /\ (forall q, build_quick_validation_cmd cmd = Some q ->
        q = cmd
        \/ exists pre p post,
             cmd = pre ++ "-i" :: p :: post
             /\ ("-i" ∉ p :: post)
             /\ q = pre ++ "-i" :: p :: "-t" :: "0.001" :: post).
Proof.
  assert (build_quick_validation_cmd cmd = None <-> head cmd <> Some "ffmpeg") as Hnone.
  { unfold build_quick_validation_cmd. destruct cmd as [|exe rest]; [done|].
    destruct (String.eqb_spec exe "ffmpeg") as [->|Hne]; simpl negb; cbv iota.
    - split; [by destruct (_ && _) | by intros []].
    - split; [intros _ [=]; done | done]. }
  split; [exact Hnone|]. split.
  - intros Hhead. split; [|split].
    + intros pre p post -> Hlast. by apply quick_validation_cmd_inserts.
    + intros H. apply quick_validation_cmd_unchanged; auto.
    + intros pre E. apply quick_validation_cmd_unchanged; eauto.
  - intros q Hq.
    assert (head cmd = Some "ffmpeg") as Hhead.
    { destruct (decide (head cmd = Some "ffmpeg")) as [|Hne]; [done|].
      apply Hnone in Hne. congruence. }
    destruct (decide ("-i" ∈ cmd)) as [Hin|Hnotin].
    + apply list_elem_of_split_r in Hin as (pre & post & E & Hpost).
      destruct post as [|p post].
      * left. rewrite quick_validation_cmd_unchanged in Hq; eauto. congruence.
      * right. exists pre, p, post. split; [done|]. split; [done|].
        subst cmd. rewrite quick_validation_cmd_inserts in Hq by done. congruence.
    + left. rewrite quick_validation_cmd_unchanged in Hq by auto. congruence.
Qed.

Lemma quick_validation_cmd_shape_witness :
  build_quick_validation_cmd ["ffmpeg"; "-i"; "in.mp4"; "-vf"; "scale=640:-1"; "out.mp4"]
  = Some ["ffmpeg"; "-i"; "in.mp4"; "-t"; "0.001"; "-vf"; "scale=640:-1"; "out.mp4"].
Proof.
  destruct (quick_validation_cmd_shape
              ["ffmpeg"; "-i"; "in.mp4"; "-vf"; "scale=640:-1"; "out.mp4"])
    as (_ & H & _).
  destruct (H eq_refl) as (Hins & _).
  apply (Hins ["ffmpeg"] "in.mp4" ["-vf"; "scale=640:-1"; "out.mp4"]); [done|].
  intros Hin. repeat (apply elem_of_cons in Hin as [Hin|Hin]; [discriminate|]).
  by apply elem_of_nil in Hin.
Defined.

(** *** What a passed validation says *)

Lemma missing_files_first_input {World : Type}
    (path_exists : World -> string -> bool) (w : World)
    (pre : list string) (p : string) (post : list string) :
  "-i" ∉ pre ->
  missing_files path_exists w (pre ++ "-i" :: p :: post)
  = (if negb (skipped_input p) && negb (path_exists w p) then [p] else [])
    ++ missing_files path_exists w post.
Proof.
  induction pre as [|a pre IH]; intros H; [done|].
  apply not_elem_of_cons in H as [Ha H].
  change ((a :: pre) ++ "-i" :: p :: post) with (a :: (pre ++ "-i" :: p :: post)).
  destruct (pre ++ "-i" :: p :: post) as [|b rest] eqn:E.
  { by destruct pre. }
  change (missing_files path_exists w (a :: b :: rest))
    with (if String.eqb a "-i"
          then (if negb (skipped_input b) && negb (path_exists w b) then [b] else [])
               ++ missing_files path_exists w rest
          else missing_files path_exists w (b :: rest)).
  destruct (String.eqb_spec a "-i") as [->|_]; [done|]. by apply IH.
Qed.

Lemma check_input_files_empty {World : Type}
    (path_exists : World -> string -> bool) (w : World) (cmd : list string) :
  Py.nonempty (check_input_files path_exists w cmd) = false ->
  missing_files path_exists w cmd = [].
Proof.
  unfold check_input_files. by destruct (missing_files path_exists w cmd).
Qed.

(** A command that passes [validate_ffmpeg_command] starts with exactly
    "ffmpeg" or "ffprobe", so [_is_command_secure] takes its executable for
    an allowed one; none of its input files is missing, and the path after
    its first "-i" is a pipe, a URL, an option, or a file that exists. *)
Theorem passed_validation_facts {World : Type}
    (path_exists : World -> string -> bool)
    (subprocess_run : World -> list string -> quick_outcome * World)
    (w : World) (cmd : list string) :
  fst (fst (validate_ffmpeg_command path_exists subprocess_run w cmd)) = true ->
  (head cmd = Some "ffmpeg" \/ head cmd = Some "ffprobe")
  /\ valid_executable cmd = true
  /\ missing_files path_exists w cmd = []
  /\ (forall pre p post,
        cmd = pre ++ "-i" :: p :: post -> "-i" ∉ pre ->
        skipped_input p = true \/ path_exists w p = true).
Proof.
  unfold validate_ffmpeg_command. destruct cmd as [|exe rest]; [done|].
  destruct (String.eqb_spec exe "ffmpeg") as [->|H1];
    [|destruct (String.eqb_spec exe "ffprobe") as [->|H2]; [|done]];
    simpl negb; cbv iota zeta;
    (destruct (Py.nonempty (check_input_files _ _ _)) eqn:Hc; [done|]);
    intros _; apply check_input_files_empty in Hc;
    (split; [auto|]); (split; [by vm_compute|]); (split; [done|]);
    intros pre p post E Hpre; rewrite E, missing_files_first_input in Hc by done;
    destruct (skipped_input p); [by left| |by left|];
    destruct (path_exists w p); [by right|done|by right|done].
Qed.

Lemma passed_validation_facts_witness :
  valid_executable ["ffprobe"; "-i"; "pipe:0"] = true.
Proof.
  apply (passed_validation_facts Scenarios.nothing_exists Scenarios.quick_run_ok tt).
  by vm_compute.
Defined.

(** [validate_ffmpeg_command] is stricter than the executable test of
    [_is_command_secure]: a first argument that ends with "ffmpeg" or
    "ffprobe" but has text before it, such as an absolute path, passes that
    test and fails validation, before any file is looked up or any process
    is started. *)
Theorem path_qualified_executable_fails_validation {World : Type}
    (path_exists : World -> string -> bool)
    (subprocess_run : World -> list string -> quick_outcome * World)
    (w : World) (pre exe : string) (rest : list string) :
  exe ∈ ["ffmpeg"; "ffprobe"] -> pre <> "" ->
  valid_executable ((pre +:+ exe) :: rest) = true
  /\ validate_ffmpeg_command path_exists subprocess_run w ((pre +:+ exe) :: rest)
     = ((false, "Command must start with ffmpeg or ffprobe"), w).
Proof.
  intros Hexe Hpre. split.
  - unfold valid_executable. simpl.
    repeat (apply elem_of_cons in Hexe as [->|Hexe]).
    + by rewrite (proj2 (endswith_spec _ "ffmpeg")) by eauto.
    + rewrite (proj2 (endswith_spec _ "ffprobe")) by eauto.
      by rewrite orb_true_r.
    + by apply elem_of_nil in Hexe.
  - unfold validate_ffmpeg_command.
    assert (pre +:+ exe <> "ffmpeg" /\ pre +:+ exe <> "ffprobe") as [H1 H2].
    { destruct pre as [|c [|d pre]]; [done| |].
      - repeat (apply elem_of_cons in Hexe as [->|Hexe]); try done.
        by apply elem_of_nil in Hexe.
      - split; intros E; apply (f_equal String.length) in E;
          rewrite append_length in E;
          repeat (apply elem_of_cons in Hexe as [->|Hexe]); simpl in E; try lia;
          by apply elem_of_nil in Hexe. }
    apply String.eqb_neq in H1, H2. by rewrite H1, H2.
Qed.

Lemma path_qualified_executable_fails_validation_witness :
  validate_ffmpeg_command Scenarios.everything_is_there Scenarios.quick_run_ok tt
    ["/usr/bin/ffmpeg"; "-i"; "in.mp4"; "out.mp4"]
  = ((false, "Command must start with ffmpeg or ffprobe"), tt).
Proof.
  apply (path_qualified_executable_fails_validation Scenarios.everything_is_there
           Scenarios.quick_run_ok tt "/usr/bin/" "ffmpeg" ["-i"; "in.mp4"; "out.mp4"]);
    [in_list | done].
Defined.

(** *** How a run ends, and how often the LLM is asked *)

Lemma shape_return_ends original attempts cmds res tr :
  run_shape original attempts cmds res tr ->
  forall pre a cs exit_code post,
    tr = pre ++ EvExecute a cs (Returned exit_code) :: post ->
    post = [] /\ res = Return exit_code cs.
Proof.
  shape_induction; intros pre a' cs' code' post E.
  - by destruct pre.
  - rewrite <- (app_nil_r evs) in E.
    eapply split_after_prefix in E as (mid & _ & E);
      [|done|apply execution_not_validation].
    by destruct mid.
  - eapply split_after_prefix in E as (mid & _ & E);
      [|done|apply execution_not_validation].
    by eapply IH.
  - eapply split_after_prefix in E as (mid & _ & E);
      [|done|apply execution_not_validation].
    destruct mid as [|? [|? ?]]; simplify_eq/=. done.
  - eapply split_after_prefix in E as (mid & _ & E);
      [|done|apply execution_not_validation].
    destruct mid as [|? [|? ?]]; simplify_eq/=.
  - eapply split_after_prefix in E as (mid & _ & E);
      [|done|apply execution_not_validation].
    destruct mid as [|? [|? ?]]; simplify_eq/=.
  - eapply split_after_prefix in E as (mid & _ & E);
      [|done|apply execution_not_validation].
    destruct mid as [|? [|? [|? ?]]]; simplify_eq/=.
  - eapply split_after_prefix in E as (mid & _ & E);
      [|done|apply execution_not_validation].
    destruct mid as [|? [|? mid]]; simplify_eq/=.
    by eapply IH.
Qed.

(** When [executor_func] returns an exit code, zero or not, the run ends
    there: nothing is validated, regenerated or executed afterwards, and the
    result is that exit code with the commands that were executed. *)
Theorem executor_return_ends_the_run
    {World Plan : Type}
    (path_exists : World -> string -> bool)
    (subprocess_run : World -> list string -> quick_outcome * World)
    (llm_pipeline : World -> string -> option (list (list string) * Plan) * World)
    (executor_func : World -> list (list string) -> executor_outcome * World)
    (original_prompt : string) (commands : list (list string))
    (plan : Plan) (w : World) :
  let run := execute_with_retry path_exists subprocess_run llm_pipeline
               executor_func original_prompt commands plan w in
  forall pre a cs exit_code post,
    snd (fst run) = pre ++ EvExecute a cs (Returned exit_code) :: post ->
    post = [] /\ fst (fst run) = Return exit_code cs.
Proof.
  intros run.
  exact (shape_return_ends _ _ _ _ _
           (attempt_loop_shape path_exists subprocess_run llm_pipeline
              executor_func original_prompt commands
              (seq 1 MAX_RETRY_ATTEMPTS) commands plan w)).
Qed.

Lemma executor_return_ends_the_run_witness :
  fst (fst (execute_with_retry Scenarios.nothing_exists Scenarios.quick_run_ok
              Scenarios.same_plan_again Scenarios.executor_reports_success
              "convert" Scenarios.missing_input_commands tt tt))
  = Return 0 Scenarios.missing_input_commands.
Proof.
  apply (executor_return_ends_the_run Scenarios.nothing_exists Scenarios.quick_run_ok
           Scenarios.same_plan_again Scenarios.executor_reports_success
           "convert" Scenarios.missing_input_commands tt tt
           [EvValidate 1 ["ffmpeg"; "-i"; "missing.mp4"; "out.mp4"] false;
            EvRegenerate 1 "Input file(s) not found: missing.mp4" true;
            EvValidate 2 ["ffmpeg"; "-i"; "missing.mp4"; "out.mp4"] false;
            EvRegenerate 2 "Input file(s) not found: missing.mp4" true;
            EvValidate 3 ["ffmpeg"; "-i"; "missing.mp4"; "out.mp4"] false]
           3 Scenarios.missing_input_commands 0%Z []).
  by vm_compute.
Defined.

Section Count.
Context {World Plan : Type}.
Variable path_exists : World -> string -> bool.
Variable subprocess_run : World -> list string -> quick_outcome * World.
Variable llm_pipeline : World -> string -> option (list (list string) * Plan) * World.
Variable executor_func : World -> list (list string) -> executor_outcome * World.
Variable original_prompt : string.
Variable commands : list (list string).

Local Abbreviation validate :=
  (validate_commands path_exists subprocess_run llm_pipeline original_prompt).
Local Abbreviation loop :=
  (attempt_loop path_exists subprocess_run llm_pipeline executor_func
     original_prompt commands).

Lemma validate_commands_regenerations (a : nat) (cmds : list (list string)) :
  forall w : World,
    match fst (fst (validate a cmds w)) with
    | LoopCompleted => regenerations (snd (fst (validate a cmds w))) = []
    | _ => List.length (regenerations (snd (fst (validate a cmds w)))) = 1
           /\ a < MAX_RETRY_ATTEMPTS
    end.
Proof.
  induction cmds as [|cmd rest IH]; intros w; simpl; [done|].
  destruct (validate_ffmpeg_command path_exists subprocess_run w cmd)
    as [[is_valid msg] w1].
  destruct (negb is_valid && (a <? MAX_RETRY_ATTEMPTS)%nat) eqn:E.
  - apply andb_true_iff in E as [_ E]. apply Nat.ltb_lt in E.
    by destruct (regenerate_commands llm_pipeline w1 original_prompt msg)
      as [[[c p]|] w2].
  - specialize (IH w1). by destruct (validate a rest w1) as [[[] evs] w2].
Qed.

Lemma regenerations_app (l1 l2 : list event) :
  regenerations (l1 ++ l2) = regenerations l1 ++ regenerations l2.
Proof. apply List.filter_app. Qed.

Lemma attempt_loop_regenerations (attempts : list nat) :
  forall (cmds : list (list string)) (plan : Plan) (w : World),
    List.length (regenerations (snd (fst (loop attempts cmds plan w))))
    <= below_bound attempts.
Proof.
  induction attempts as [|a later IH]; intros cmds plan w; simpl; [done|].
  pose proof (validate_commands_regenerations a cmds w) as Hv.
  destruct (validate a cmds w) as [[exit evs] w1]. simpl in Hv.
  unfold below_bound in *. simpl.
  destruct exit as [|cmds' plan'|].
  - destruct (executor_func w1 cmds) as [[code|msg|name] w2]; simpl;
      rewrite ?regenerations_app, ?length_app, ?Hv; simpl; try lia.
    destruct (a <? MAX_RETRY_ATTEMPTS)%nat eqn:E; simpl.
    + destruct (regenerate_commands llm_pipeline w2 original_prompt msg)
        as [[[cmds' plan']|] w3].
      * specialize (IH cmds' plan' w3).
        destruct (loop later cmds' plan' w3) as [[res tr] w4]. simpl in *.
        rewrite regenerations_app, length_app, Hv. simpl. lia.
      * simpl. rewrite regenerations_app, length_app, Hv. simpl. lia.
    + rewrite regenerations_app, length_app, Hv. simpl. lia.
  - destruct Hv as [Hv Ha]. apply Nat.ltb_lt in Ha. rewrite Ha. simpl.
    specialize (IH cmds' plan' w1).
    destruct (loop later cmds' plan' w1) as [[res tr] w2]. simpl in *.
    rewrite regenerations_app, length_app, Hv. lia.
  - destruct Hv as [Hv Ha]. apply Nat.ltb_lt in Ha. rewrite Ha. simpl. lia.
Qed.

End Count.

(** A call of [execute_with_retry] asks the LLM to regenerate at most
    twice, one time less than the bound on attempts. *)
Theorem at_most_two_regenerations
    {World Plan : Type}
    (path_exists : World -> string -> bool)
    (subprocess_run : World -> list string -> quick_outcome * World)
    (llm_pipeline : World -> string -> option (list (list string) * Plan) * World)
    (executor_func : World -> list (list string) -> executor_outcome * World)
    (original_prompt : string) (commands : list (list string))
    (plan : Plan) (w : World) :
  List.length (regenerations
                 (snd (fst (execute_with_retry path_exists subprocess_run
                              llm_pipeline executor_func original_prompt
                              commands plan w))))
  <= MAX_RETRY_ATTEMPTS - 1.
Proof.
  exact (attempt_loop_regenerations path_exists subprocess_run llm_pipeline
           executor_func original_prompt commands (seq 1 MAX_RETRY_ATTEMPTS)
           commands plan w).
Qed.

End RetryMoreSpec.

(** ** The extraction of the JSON text *)

Module JsonTextMoreSpec.
Import Re JsonText TextParts PyFacts JsonTextSpec MoreFacts.

Lemma part_of_refl (s : string) : part_of s s.
Proof. exists "", "". by rewrite append_nil_r. Qed.

Lemma part_of_trans (a b c : string) : part_of a b -> part_of b c -> part_of a c.
Proof.
  intros (p1 & q1 & ->) (p2 & q2 & ->). exists (p2 +:+ p1), (q1 +:+ q2).
  by rewrite !append_assoc.
Qed.

Lemma part_of_contains (x s : string) : part_of x s <-> Py.contains x s = true.
Proof.
  split; [intros (pre & post & ->); apply contains_intro | apply contains_inv].
Qed.

Lemma part_of_strip (s : string) : part_of (Py.strip s) s.
Proof. destruct (strip_inside s) as (l & r & H). by exists l, r. Qed.

Lemma take_drop_string (n : nat) (s : string) : s = Py.take n s +:+ Py.drop n s.
Proof.
  revert s. induction n as [|n IH]; intros s; [by destruct s|].
  destruct s as [|c s]; [done|]. simpl. by rewrite append_cons, <- IH.
Qed.

Lemma part_of_take (n : nat) (s : string) : part_of (Py.take n s) s.
Proof. exists "", (Py.drop n s). apply take_drop_string. Qed.

Lemma part_of_drop (n : nat) (s : string) : part_of (Py.drop n s) s.
Proof.
  exists (Py.take n s), "". rewrite append_nil_r. apply take_drop_string.
Qed.

Lemma part_of_slice (s : string) (i j : Z) : part_of (Py.slice s i j) s.
Proof.
  unfold Py.slice. eapply part_of_trans; [apply part_of_take|apply part_of_drop].
Qed.

Lemma end_of_refl (s : string) : end_of s s.
Proof. by exists "". Qed.

Lemma end_of_trans (a b c : string) : end_of a b -> end_of b c -> end_of a c.
Proof. intros [x ->] [y ->]. exists (y +:+ x). by rewrite append_assoc. Qed.

Lemma end_of_part (t s : string) : end_of t s -> part_of t s.
Proof. intros [x ->]. exists x, "". by rewrite append_nil_r. Qed.

Lemma rep_sound (greedy : bool) (p : ascii -> bool) (s : string) :
  forall lo hi pv k res,
    rep greedy p lo hi pv s k = Some res ->
    exists pv' s', k pv' s' = Some res /\ end_of s' s.
Proof.
  induction s as [|c t IH]; intros lo hi pv k res H.
  - exists pv, "". split; [|apply end_of_refl].
    destruct greedy, lo; cbn in H; try done.
    by destruct (k pv "").
  - simpl in H.
    assert (forall r', (if hi_allows hi && p c
                        then rep greedy p (Nat.pred lo) (hi_pred hi) (Some c) t k
                        else None) = Some r' ->
              exists pv' s', k pv' s' = Some r' /\ end_of s' (String c t)) as Hmore.
    { intros r' Hr. destruct (hi_allows hi && p c); [|done].
      destruct (IH _ _ _ _ _ Hr) as (pv' & s' & Hk & [x ->]).
      exists pv', s'. split; [done|]. by exists (String c x). }
    assert (forall r', match lo with 0 => k pv (String c t) | S _ => None end = Some r' ->
              exists pv' s', k pv' s' = Some r' /\ end_of s' (String c t)) as Hstop.
    { intros r' Hr. destruct lo; [|done]. exists pv, (String c t).
      split; [done|apply end_of_refl]. }
    destruct greedy.
    + destruct (if hi_allows hi && p c then _ else None) as [r'|] eqn:E.
      * injection H as <-. by apply Hmore.
      * by apply Hstop.
    + destruct (match lo with 0 => _ | S _ => None end) as [r'|] eqn:E.
      * injection H as <-. by apply Hstop.
      * by apply Hmore.
Qed.

Lemma rmatch_sound (r : regex) :
  forall st k res,
    rmatch r st k = Some res ->
    exists st', k st' = Some res
                /\ end_of (rest st') (rest st)
                /\ (grp st' = grp st \/ group_in (rest st) (grp st')).
Proof.
  induction r as [|p| | |r1 IH1 r2 IH2|g lo hi p|r1 IH1]; intros st k res H; simpl in H.
  - exists st. split; [done|]. split; [apply end_of_refl|by left].
  - destruct (rest st) as [|c t] eqn:E; [done|]. destruct (p c); [|done].
    eexists. split; [exact H|]. simpl. split; [by exists (String c "")|by left].
  - destruct (at_word_boundary _ _); [|done].
    exists st. split; [done|]. split; [apply end_of_refl|by left].
  - destruct (at_end _); [|done].
    exists st. split; [done|]. split; [apply end_of_refl|by left].
  - destruct (IH1 _ _ _ H) as (st1 & H1 & He1 & Hg1).
    destruct (IH2 _ _ _ H1) as (st2 & H2 & He2 & Hg2).
    exists st2. split; [done|]. split; [by eapply end_of_trans|].
    destruct Hg2 as [->|Hg2]; [done|]. right.
    destruct (grp st2) as [x|]; [|done]. simpl in *.
    eapply part_of_trans; [exact Hg2|by apply end_of_part].
  - destruct (rep_sound _ _ _ _ _ _ _ _ H) as (pv' & s' & Hk & He).
    eexists. split; [exact Hk|]. simpl. split; [done|by left].
  - destruct (IH1 _ _ _ H) as (st1 & H1 & He1 & Hg1).
    eexists. split; [exact H1|]. simpl. split; [done|]. right.
    apply part_of_take.
Qed.

Lemma search_from_sound (r : regex) (s : string) :
  forall pv m, search_from r pv s = Some m -> group_in s (grp m).
Proof.
  induction s as [|c t IH]; intros pv m H; simpl in H.
  - destruct (match_at r pv "") as [st|] eqn:E; [|done]. injection H as ->.
    unfold match_at in E. destruct (rmatch_sound _ _ _ _ E) as (st' & [= ->] & _ & Hg).
    by destruct Hg as [->|Hg].
  - destruct (match_at r pv (String c t)) as [st|] eqn:E.
    + injection H as ->. unfold match_at in E.
      destruct (rmatch_sound _ _ _ _ E) as (st' & [= ->] & _ & Hg).
      by destruct Hg as [->|Hg].
    + specialize (IH _ _ H). destruct (grp m) as [x|]; [|done]. simpl in *.
      eapply part_of_trans; [exact IH|]. exists (String c ""), "".
      by rewrite append_nil_r.
Qed.

Lemma group1_part (r : regex) (s : string) (m : mstate) :
  search r s = Some m -> part_of (group1 m) s.
Proof.
  intros H. apply search_from_sound in H. unfold group1.
  destruct (grp m); [done|]. by exists "", s.
Qed.

Lemma extract_markdown_sound (patterns : list regex) (text e : string) :
  extract_markdown patterns text = Some e ->
  Py.startswith e "{" = true /\ part_of e text.
Proof.
  induction patterns as [|pattern later IH]; [done|]. cbn [extract_markdown].
  destruct (search pattern text) as [m|] eqn:E; [|exact IH].
  destruct (Py.startswith (Py.strip (group1 m)) "{") eqn:S; [|exact IH].
  intros [= <-]. split; [done|].
  eapply part_of_trans; [apply part_of_strip|by eapply group1_part].
Qed.


(** *** The brace strategy *)

Lemma has_brace_pair_pair_in (text : string) :
  has_brace_pair text = true <-> pair_in "{" "}" text.
Proof.
  rewrite has_brace_pair_spec. unfold pair_in.
  split; intros (pre & mid & post & ->); exists pre, mid, post;
    by rewrite !append_cons, !append_nil_l.
Qed.

Lemma pair_in_lstrip (a b : ascii) (s : string) :
  Py.isspace a = false -> pair_in a b s -> pair_in a b (Py.lstrip s).
Proof.
  intros Ha. induction s as [|c t IH]; [done|]. intros H. simpl.
  destruct (Py.isspace c) eqn:Ec; [|done]. apply IH.
  destruct H as (pre & mid & post & H). destruct pre as [|c' pre].
  - rewrite append_nil_l in H. injection H as -> _. congruence.
  - rewrite append_cons in H. injection H as _ ->. by exists pre, mid, post.
Qed.

Lemma pair_in_rev (a b : ascii) (s : string) :
  pair_in a b s -> pair_in b a (Py.rev s).
Proof.
  intros (pre & mid & post & ->). exists (Py.rev post), (Py.rev mid), (Py.rev pre).
  rewrite rev_app, rev_cons, rev_app, rev_cons.
  by rewrite !append_assoc, !append_cons, !append_nil_l.
Qed.

Lemma pair_in_strip (a b : ascii) (s : string) :
  Py.isspace a = false -> Py.isspace b = false ->
  pair_in a b s -> pair_in a b (Py.strip s).
Proof.
  intros Ha Hb H. unfold Py.strip, Py.rstrip.
  apply pair_in_rev, pair_in_lstrip; [done|]. apply pair_in_rev.
  by apply pair_in_lstrip.
Qed.

(** [find] gives the first occurrence and [rfind] the last one. *)
Lemma find_first (c : ascii) (s : string) :
  Py.find c s <> (-1)%Z ->
  exists pre post, s = pre +:+ String c post
                   /\ Z.of_nat (String.length pre) = Py.find c s
                   /\ Py.contains (String c "") pre = false.
Proof.
  induction s as [|a t IH]; [done|]. simpl.
  destruct (Py.eqc a c) eqn:E.
  - intros _. apply eqc_true in E as ->. by exists "", t.
  - destruct (Py.find c t =? -1)%Z eqn:F; [done|]. intros _.
    apply Z.eqb_neq in F. destruct (IH F) as (pre & post & -> & Hl & Hc).
    exists (String a pre), post. rewrite append_cons. split; [done|].
    split; [simpl; lia|]. rewrite contains_unfold. simpl.
    rewrite eqc_sym, E. simpl. exact Hc.
Qed.

Lemma rfind_lower (c : ascii) (s : string) : (-1 <= Py.rfind c s)%Z.
Proof.
  induction s as [|a t IH]; [done|]. simpl.
  destruct (Py.rfind c t =? -1)%Z eqn:F; [by destruct (Py.eqc a c)|lia].
Qed.

Lemma rfind_none (c : ascii) (s : string) :
  Py.rfind c s = (-1)%Z -> Py.contains (String c "") s = false.
Proof.
  induction s as [|a t IH]; [done|]. simpl.
  destruct (Py.rfind c t =? -1)%Z eqn:F.
  - apply Z.eqb_eq in F. destruct (Py.eqc a c) eqn:E; [done|]. intros _.
    rewrite eqc_sym, E. simpl. by apply IH.
  - pose proof (rfind_lower c t). apply Z.eqb_neq in F. lia.
Qed.

Lemma rfind_last (c : ascii) (s : string) :
  Py.rfind c s <> (-1)%Z ->
  exists pre post, s = pre +:+ String c post
                   /\ Z.of_nat (String.length pre) = Py.rfind c s
                   /\ Py.contains (String c "") post = false.
Proof.
  induction s as [|a t IH]; [done|]. simpl.
  destruct (Py.rfind c t =? -1)%Z eqn:F.
  - apply Z.eqb_eq in F. destruct (Py.eqc a c) eqn:E; [|done]. intros _.
    apply eqc_true in E as ->. exists "", t. by rewrite (rfind_none _ _ F).
  - intros _. apply Z.eqb_neq in F. destruct (IH F) as (pre & post & -> & Hl & Hc).
    exists (String a pre), post. rewrite append_cons. split; [done|].
    split; [simpl; lia|done].
Qed.

Lemma find_upper (c : ascii) (pre post : string) :
  (0 <= Py.find c (pre +:+ String c post) <= Z.of_nat (String.length pre))%Z.
Proof.
  induction pre as [|a pre IH].
  - rewrite append_nil_l. simpl. by rewrite eqc_refl.
  - rewrite append_cons. simpl. destruct (Py.eqc a c); [lia|].
    destruct (Py.find c (pre +:+ String c post) =? -1)%Z eqn:F; [|lia].
    apply Z.eqb_eq in F. lia.
Qed.

Lemma rfind_above (c : ascii) (pre post : string) :
  (Z.of_nat (String.length pre) <= Py.rfind c (pre +:+ String c post))%Z.
Proof.
  induction pre as [|a pre IH].
  - rewrite append_nil_l. simpl. pose proof (rfind_lower c post).
    destruct (Py.rfind c post =? -1)%Z; [by rewrite eqc_refl|lia].
  - rewrite append_cons. simpl.
    destruct (Py.rfind c (pre +:+ String c post) =? -1)%Z eqn:F; [|lia].
    apply Z.eqb_eq in F. lia.
Qed.

Lemma pair_in_brace_span (s : string) :
  pair_in "{" "}" s -> is_Some (brace_span s).
Proof.
  intros (pre & mid & post & ->). unfold brace_span.
  pose proof (find_upper "{" pre (mid +:+ String "}" post)) as Hf.
  pose proof (rfind_above "}" (pre +:+ String "{" mid) post) as Hl.
  rewrite append_assoc, append_cons, append_length in Hl. simpl in Hl.
  set (f := Py.find _ _) in *. set (l := Py.rfind _ _) in *.
  destruct (f =? -1)%Z eqn:E1; [apply Z.eqb_eq in E1; lia|].
  destruct (l =? -1)%Z eqn:E2; [apply Z.eqb_eq in E2; lia|].
  destruct (f <? l)%Z eqn:E3; [by eexists|]. apply Z.ltb_ge in E3. lia.
Qed.

(** The brace strategy applies exactly to the texts that hold a brace
    pair. *)
Lemma brace_span_iff (text : string) :
  is_Some (brace_span (Py.strip text)) <-> has_brace_pair text = true.
Proof.
  split; [apply brace_span_has_pair|]. intros H.
  apply pair_in_brace_span, pair_in_strip; [done|done|].
  by apply has_brace_pair_pair_in.
Qed.

Lemma take_app_exact (a b : string) (n : nat) :
  Py.take (String.length a + n) (a +:+ b) = a +:+ Py.take n b.
Proof.
  induction a as [|c a IH]; [by rewrite !append_nil_l|].
  rewrite !append_cons. simpl. by rewrite IH.
Qed.

Lemma drop_app_exact (a b : string) :
  Py.drop (String.length a) (a +:+ b) = b.
Proof.
  induction a as [|c a IH]; [by rewrite append_nil_l|].
  rewrite append_cons. simpl. exact IH.
Qed.

(** The slice from the first opening brace to the last closing brace. *)
Lemma brace_slice (s : string) (f l : Z) :
  brace_span s = Some (f, l) ->
  exists pre mid post,
    s = pre +:+ String "{" (mid +:+ String "}" post)
    /\ Py.contains "{" pre = false
    /\ Py.contains "}" post = false
    /\ Py.slice s f (l + 1) = String "{" (mid +:+ "}").
Proof.
  unfold brace_span.
  destruct (Py.find "{" s =? -1)%Z eqn:E1; [done|].
  destruct (Py.rfind "}" s =? -1)%Z eqn:E2; [done|].
  destruct (Py.find "{" s <? Py.rfind "}" s)%Z eqn:E3; [|done].
  simpl. intros [= <- <-].
  apply Z.eqb_neq in E1, E2. apply Z.ltb_lt in E3.
  destruct (find_first _ _ E1) as (pre & post1 & Hs1 & Hl1 & Hc1).
  destruct (rfind_last _ _ E2) as (pre2 & post & Hs2 & Hl2 & Hc2).
  assert (String.length pre < String.length pre2) as Hlt by lia.
  assert (pre +:+ String "{" post1 = pre2 +:+ String "}" post) as Heq by congruence.
  destruct (append_split _ _ _ _ _ _ Heq Hlt) as [mid ->].
  exists pre, mid, post. split; [done|]. split; [done|]. split; [done|].
  assert (String.length pre2 = String.length pre + 1 + String.length mid) as Hlen.
  { apply (f_equal String.length) in Heq.
    rewrite !append_length in Heq. simpl in Heq. rewrite append_length in Heq.
    simpl in Heq. lia. }
  unfold Py.slice. rewrite <- Hl1, <- Hl2, Hs1.
  replace (Z.to_nat (Z.of_nat (String.length pre))) with (String.length pre) by lia.
  rewrite drop_app_exact.
  replace (Z.to_nat (Z.of_nat (String.length pre2) + 1 - Z.of_nat (String.length pre)))
    with (S (String.length mid + 1)) by lia.
  simpl. by rewrite take_app_exact.
Qed.

(** A stripped text that starts with an opening brace and ends with a
    closing one is an opening brace, a middle and a closing brace. *)
Lemma braced_text (s : string) :
  Py.startswith s "{" = true -> Py.endswith s "}" = true ->
  exists mid, s = String "{" (mid +:+ "}").
Proof.
  intros Hs He. apply startswith_inv in Hs as [t ->].
  apply endswith_spec in He as [p Hp]. rewrite append_cons, append_nil_l in Hp.
  destruct p as [|c p].
  - by rewrite append_nil_l in Hp.
  - rewrite append_cons in Hp. injection Hp as <- ->. by exists p.
Qed.

(** whatever branch is taken, [extract_json_from_text] returns a
    contiguous part of the response it was given: the extraction adds and
    reorders nothing. *)
Theorem extracted_text_is_part_of_response (text : string) :
  Py.contains (extract_json_from_text text) text = true.
Proof.
  apply part_of_contains. unfold extract_json_from_text.
  destruct (negb (Py.nonempty text)); [apply part_of_refl|].
  destruct (Py.startswith _ "{" && Py.endswith _ "}"); [apply part_of_strip|].
  destruct (extract_markdown _ _) as [e|] eqn:M.
  { apply extract_markdown_sound in M as [_ M].
    eapply part_of_trans; [exact M|apply part_of_strip]. }
  destruct (brace_span _) as [[f l]|]; [|apply part_of_strip].
  eapply part_of_trans; [apply part_of_slice|apply part_of_strip].
Qed.

(** when the stripped response is already braced, or no fenced block
    gives an object, a response holding a brace pair is cut from its first
    opening brace to its last closing brace: the result is the brace, what
    stands between, and the brace, with no opening brace before and no
    closing brace after in the stripped response. *)
Theorem brace_pair_is_cut_first_to_last (text : string) :
  Py.startswith (Py.strip text) "{" && Py.endswith (Py.strip text) "}" = true
  \/ extract_markdown MARKDOWN_PATTERNS (Py.strip text) = None ->
  has_brace_pair text = true ->
  exists pre mid post,
    Py.strip text = pre +:+ String "{" (mid +:+ String "}" post)
    /\ Py.contains "{" pre = false
    /\ Py.contains "}" post = false
    /\ extract_json_from_text text = String "{" (mid +:+ "}").
Proof.
  intros Hmd Hpair. unfold extract_json_from_text.
  destruct text as [|c0 t0]; [done|]. cbn [Py.nonempty negb].
  set (s := Py.strip (String c0 t0)) in *.
  destruct (Py.startswith s "{" && Py.endswith s "}") eqn:E.
  { apply andb_true_iff in E as [Hs He].
    destruct (braced_text _ Hs He) as [mid Hmid].
    exists "", mid, "". by rewrite append_nil_l. }
  destruct Hmd as [|Hmd]; [done|]. rewrite Hmd.
  destruct (proj2 (brace_span_iff _) Hpair) as [[f l] Hspan]. fold s in Hspan.
  rewrite Hspan. exact (brace_slice _ _ _ Hspan).
Qed.

Lemma brace_pair_is_cut_first_to_last_witness :
  exists pre mid post,
    Py.strip "  plan: {a: {b}} done }?  "
      = pre +:+ String "{" (mid +:+ String "}" post)
    /\ Py.contains "{" pre = false
    /\ Py.contains "}" post = false
    /\ extract_json_from_text "  plan: {a: {b}} done }?  " = String "{" (mid +:+ "}").
Proof.
  apply (brace_pair_is_cut_first_to_last "  plan: {a: {b}} done }?  ").
  - right. vm_compute. reflexivity.
  - vm_compute. reflexivity.
Defined.

(** the result of [extract_json_from_text] starts with an opening
    brace, unless the response holds no brace pair and the result is the
    stripped response. *)
Theorem extraction_starts_with_brace_or_gives_up (text : string) :
  Py.startswith (extract_json_from_text text) "{" = true
  \/ (has_brace_pair text = false
      /\ extract_json_from_text text = Py.strip text).
Proof.
  unfold extract_json_from_text.
  destruct text as [|c0 t0]; [by right|]. cbn [Py.nonempty negb].
  set (s := Py.strip (String c0 t0)) in *.
  destruct (Py.startswith s "{" && Py.endswith s "}") eqn:E.
  { left. by apply andb_true_iff in E as [Hs _]. }
  destruct (extract_markdown _ _) as [e|] eqn:M.
  { left. by apply extract_markdown_sound in M as [M _]. }
  destruct (brace_span s) as [[f l]|] eqn:B.
  - left. destruct (brace_slice _ _ _ B) as (pre & mid & post & _ & _ & _ & ->).
    done.
  - right. split; [|done].
    destruct (has_brace_pair (String c0 t0)) eqn:P; [|done].
    apply brace_span_iff in P. fold s in P. rewrite B in P. by destruct P.
Qed.

End JsonTextMoreSpec.

(** ** The cleaning of path values *)

Module CleanPathSpec.
Import Re Json JsonRepair TextParts PathShapes PyFacts JsonTextSpec JsonRepairSpec.
Import MoreFacts JsonTextMoreSpec.

Lemma all_chars_end (P : ascii -> bool) (s' s : string) :
  end_of s' s -> all_chars P s = true -> all_chars P s' = true.
Proof.
  intros [x ->]. induction x as [|c x IH]; [done|].
  rewrite append_cons. simpl. intros [_ H]%andb_true_iff. by apply IH.
Qed.

Lemma all_chars_app (P : ascii -> bool) (a b : string) :
  all_chars P (a +:+ b) = all_chars P a && all_chars P b.
Proof.
  induction a as [|c a IH]; [done|]. rewrite append_cons. simpl.
  by rewrite IH, andb_assoc.
Qed.

Lemma all_chars_rev (P : ascii -> bool) (s : string) :
  all_chars P (Py.rev s) = all_chars P s.
Proof.
  induction s as [|c s IH]; [done|]. rewrite rev_cons, all_chars_app, IH. simpl.
  by rewrite andb_true_r, andb_comm.
Qed.

Lemma all_chars_impl (P Q : ascii -> bool) (s : string) :
  (forall c, P c = true -> Q c = true) ->
  all_chars P s = true -> all_chars Q s = true.
Proof.
  intros HPQ. induction s as [|c s IH]; [done|]. simpl.
  intros [Hc Hs]%andb_true_iff. by rewrite (HPQ _ Hc), IH.
Qed.

Lemma all_chars_lower (P : ascii -> bool) (s : string) :
  (forall c, P (Py.lower_char c) = P c) ->
  all_chars P (Py.lower s) = all_chars P s.
Proof.
  intros HP. induction s as [|c s IH]; [done|]. simpl. by rewrite HP, IH.
Qed.

Lemma isspace_lower_char (c : ascii) :
  Py.isspace (Py.lower_char c) = Py.isspace c.
Proof. destruct c as [[] [] [] [] [] [] [] []]; reflexivity. Qed.

Lemma strip_nonspace (s : string) :
  all_chars nonspace s = true -> Py.strip s = s.
Proof.
  intros H. apply strip_id.
  - intros c t ->. simpl in H. apply andb_true_iff in H as [H _].
    by apply negb_true_iff in H.
  - intros c t E. rewrite <- all_chars_rev, E in H. simpl in H.
    apply andb_true_iff in H as [H _]. by apply negb_true_iff in H.
Qed.

(** A quantified class fails when what follows it fails wherever the
    class may stop. *)
Lemma rep_none (greedy : bool) (p : ascii -> bool) (s : string) :
  forall lo hi pv k,
    (forall pv' s', end_of s' s -> k pv' s' = None) ->
    rep greedy p lo hi pv s k = None.
Proof.
  induction s as [|c t IH]; intros lo hi pv k Hk.
  - cbn. rewrite (Hk pv ""); [|apply end_of_refl]. by destruct greedy, lo.
  - cbn. rewrite (Hk pv (String c t)); [|apply end_of_refl].
    rewrite IH.
    + by destruct greedy, lo, (hi_allows hi && p c).
    + intros pv' s' [x ->]. apply Hk. by exists (String c x).
Qed.

(** A class that must take a character fails on a text whose first
    character is outside it. *)
Lemma rep_needs_one (greedy : bool) (p : ascii -> bool) (lo : nat)
    (hi : option nat) (pv : option ascii) (s : string)
    (k : option ascii -> string -> option mstate) :
  all_chars (fun c => negb (p c)) s = true ->
  rep greedy p (S lo) hi pv s k = None.
Proof.
  destruct s as [|c t]; cbn; [by destruct greedy|].
  intros [Hc _]%andb_true_iff. apply negb_true_iff in Hc. rewrite Hc, andb_false_r.
  by destruct greedy.
Qed.

(** [re.sub] changes nothing where the pattern matches nowhere. *)
Lemma remove_matches_none (r : regex) (s : string) :
  (forall pv s', end_of s' s -> match_at r pv s' = None) ->
  remove_matches r s = s.
Proof.
  unfold remove_matches. generalize (S (String.length s)) as fuel.
  generalize (@None ascii) as pv. intros pv fuel. revert pv s.
  induction fuel as [|fuel IH]; intros pv s H; [done|].
  cbn [remove_matches_from]. rewrite (H pv s); [|apply end_of_refl].
  destruct s as [|c t]; [done|]. rewrite IH; [done|].
  intros pv' s' [x ->]. apply H. by exists (String c x).
Qed.


Lemma plain_nonspace (s : string) :
  all_chars plain_char s = true -> all_chars nonspace s = true.
Proof.
  apply all_chars_impl. intros c. unfold plain_char, nonspace.
  by intros [H _]%andb_true_iff.
Qed.

Lemma plain_not_space (s : string) :
  all_chars plain_char s = true ->
  all_chars (fun c => negb (Py.isspace c)) s = true.
Proof. apply plain_nonspace. Qed.

Lemma plain_head (c : ascii) (t : string) :
  all_chars plain_char (String c t) = true ->
  Py.eqc "(" c = false /\ Py.eqc "#" c = false /\ Py.eqc "/" c = false
  /\ all_chars plain_char t = true.
Proof.
  simpl. intros [Hc Ht]%andb_true_iff. unfold plain_char in Hc.
  apply andb_true_iff in Hc as [_ Hc]. unfold none_of, one_of in Hc.
  apply negb_true_iff in Hc. cbn in Hc.
  rewrite !andb_true_r, !orb_false_r in Hc.
  apply orb_false_iff in Hc as [H1 Hc]. apply orb_false_iff in Hc as [H2 H3].
  rewrite (eqc_sym "(" c), (eqc_sym "#" c), (eqc_sym "/" c).
  by rewrite H1, H2, H3.
Qed.

(** No [patterns_to_remove] pattern matches anywhere in a plain name. *)
Lemma plain_no_trailing_comment (pattern : regex) (pv : option ascii) (s : string) :
  pattern ∈ PATTERNS_TO_REMOVE ->
  all_chars plain_char s = true ->
  match_at pattern pv s = None.
Proof.
  intros Hp Hs. unfold PATTERNS_TO_REMOVE in Hp.
  repeat (apply elem_of_cons in Hp as [->|Hp]); [..|by apply elem_of_nil in Hp];
    cbn; apply rep_none; intros pv' s' He;
    pose proof (all_chars_end _ _ _ He Hs) as Hs';
    (destruct s' as [|c t]; [done|]);
    destruct (plain_head _ _ Hs') as (H1 & H2 & H3 & Ht); cbn;
    rewrite ?H1, ?H2, ?H3; try done.
  - destruct (Py.eqc "-" c); [|done]. by apply rep_needs_one, plain_not_space.
  - destruct (Py.eqc ":" c); [|done]. by apply rep_needs_one, plain_not_space.
Qed.

Lemma plain_patterns_keep (patterns : list regex) (s : string) :
  (forall pattern, pattern ∈ patterns -> pattern ∈ PATTERNS_TO_REMOVE) ->
  all_chars plain_char s = true ->
  fold_left (fun s pattern => remove_matches pattern s) patterns s = s.
Proof.
  intros Hsub Hs. induction patterns as [|pattern later IH]; [done|]. simpl.
  rewrite remove_matches_none.
  - apply IH. intros q Hq. apply Hsub. by right.
  - intros pv s' He. apply plain_no_trailing_comment; [apply Hsub; by left|].
    by eapply all_chars_end.
Qed.

(** a plain file name with an extension (no blank, no parenthesis,
    hash or slash) passes [_clean_path_string] unchanged, unless its
    lower-cased text is the name of a workspace file or occurs in the
    lower-cased path of one: then the first such workspace file, in the
    order videos, audios, images, subtitle files, is returned. *)
Theorem plain_name_is_kept_or_resolved (path_str : string) (ws : workspace) :
  all_chars plain_char path_str = true ->
  matches HAS_EXTENSION path_str = true ->
  clean_path_string path_str ws =
    match List.find (resolves_to (Py.lower path_str)) (workspace_files ws) with
    | Some ws_file_str => ws_file_str
    | None => path_str
    end.
Proof.
  intros Hplain Hext. unfold clean_path_string.
  destruct path_str as [|c0 t0]; [done|]. cbn [Py.nonempty negb].
  set (p := String c0 t0) in *.
  rewrite plain_patterns_keep by done. rewrite Hext. cbn [negb].
  rewrite (strip_nonspace (Py.lower p)), (strip_nonspace p).
  - unfold workspace_files, resolves_to. cbn [List.concat].
    by rewrite app_nil_r.
  - by apply plain_nonspace.
  - rewrite all_chars_lower; [by apply plain_nonspace|].
    intros c. unfold nonspace. by rewrite isspace_lower_char.
Qed.


(** *** Blank values *)

Lemma blank_head (c : ascii) (t : string) :
  all_chars Py.isspace (String c t) = true ->
  Py.isspace c = true /\ all_chars Py.isspace t = true.
Proof. simpl. by intros ?%andb_true_iff. Qed.

Lemma space_is_no_trigger (c : ascii) :
  Py.isspace c = true ->
  Py.eqc "-" c = false /\ Py.eqc "(" c = false /\ Py.eqc "#" c = false
  /\ Py.eqc "/" c = false /\ Py.eqc ":" c = false /\ Py.eqc "." c = false.
Proof. destruct c as [[] [] [] [] [] [] [] []]; intros H; try done. Qed.

Lemma blank_no_trailing_comment (pattern : regex) (pv : option ascii) (s : string) :
  pattern ∈ PATTERNS_TO_REMOVE ->
  all_chars Py.isspace s = true ->
  match_at pattern pv s = None.
Proof.
  intros Hp Hs. unfold PATTERNS_TO_REMOVE in Hp.
  repeat (apply elem_of_cons in Hp as [->|Hp]); [..|by apply elem_of_nil in Hp];
    cbn; apply rep_none; intros pv' s' He;
    pose proof (all_chars_end _ _ _ He Hs) as Hs';
    (destruct s' as [|c t]; [done|]);
    destruct (blank_head _ _ Hs') as [Hc Ht];
    destruct (space_is_no_trigger _ Hc) as (H1 & H2 & H3 & H4 & H5 & H6); cbn;
    by rewrite ?H1, ?H2, ?H3, ?H4, ?H5.
Qed.

Lemma blank_patterns_keep (patterns : list regex) (s : string) :
  (forall pattern, pattern ∈ patterns -> pattern ∈ PATTERNS_TO_REMOVE) ->
  all_chars Py.isspace s = true ->
  fold_left (fun s pattern => remove_matches pattern s) patterns s = s.
Proof.
  intros Hsub Hs. induction patterns as [|pattern later IH]; [done|]. simpl.
  rewrite remove_matches_none.
  - apply IH. intros q Hq. apply Hsub. by right.
  - intros pv s' He. apply blank_no_trailing_comment; [apply Hsub; by left|].
    by eapply all_chars_end.
Qed.

Lemma search_from_none (r : regex) (s : string) :
  forall pv, (forall pv' s', end_of s' s -> match_at r pv' s' = None) ->
             search_from r pv s = None.
Proof.
  induction s as [|c t IH]; intros pv H; cbn [search_from];
    rewrite (H pv _ (end_of_refl _)); [done|].
  apply IH. intros pv' s' [x ->]. apply H. by exists (String c x).
Qed.

Lemma blank_has_no_extension (s : string) :
  all_chars Py.isspace s = true ->
  matches HAS_EXTENSION s = false
  /\ search FILENAME_WITH_EXTENSION s = None.
Proof.
  intros Hs. unfold matches, search. rewrite !search_from_none; [done|..].
  - intros pv' s' He. pose proof (all_chars_end _ _ _ He Hs) as Hs'. cbn.
    apply rep_needs_one. revert Hs'. apply all_chars_impl.
    intros c Hc. unfold nonspace. by rewrite Hc.
  - intros pv' s' He. pose proof (all_chars_end _ _ _ He Hs) as Hs'.
    destruct s' as [|c t]; [done|]. destruct (blank_head _ _ Hs') as [Hc _].
    destruct (space_is_no_trigger _ Hc) as (_ & _ & _ & _ & _ & H6). cbn.
    by rewrite H6.
Qed.

Lemma lstrip_blank (s : string) :
  all_chars Py.isspace s = true -> Py.lstrip s = "".
Proof.
  induction s as [|c t IH]; [done|]. simpl.
  intros [Hc Ht]%andb_true_iff. rewrite Hc. by apply IH.
Qed.

Lemma strip_blank (s : string) :
  all_chars Py.isspace s = true -> Py.strip s = "".
Proof. intros H. unfold Py.strip. by rewrite lstrip_blank. Qed.

(** a value that is not empty but holds only blanks is replaced by
    the first file of the workspace (videos, then audios, images and
    subtitle files), whatever that file is: the empty text left after
    stripping occurs in every path. *)
Theorem blank_path_becomes_first_workspace_file
    (path_str ws_file_str : string) (others : list string) (ws : workspace) :
  Py.nonempty path_str = true ->
  all_chars Py.isspace path_str = true ->
  workspace_files ws = ws_file_str :: others ->
  clean_path_string path_str ws = ws_file_str.
Proof.
  intros Hne Hblank Hws. unfold clean_path_string. rewrite Hne. cbn [negb].
  rewrite blank_patterns_keep by done.
  destruct (blank_has_no_extension _ Hblank) as [-> ->]. cbn [negb].
  rewrite strip_blank.
  - cbn [List.concat]. rewrite app_nil_r. unfold workspace_files in Hws.
    rewrite Hws. cbn [List.find]. replace (String.eqb "" _ || _) with true; [done|].
    symmetry. apply orb_true_iff. right. by destruct (Py.lower ws_file_str).
  - rewrite all_chars_lower; [done|]. apply isspace_lower_char.
Qed.

Lemma blank_path_becomes_first_workspace_file_witness :
  clean_path_string "  " (Workspace [] ["song.mp3"; "talk.wav"] ["cover.png"] [])
  = "song.mp3".
Proof.
  apply (blank_path_becomes_first_workspace_file "  " "song.mp3"
           ["talk.wav"; "cover.png"]); reflexivity.
Defined.

Lemma plain_name_is_kept_or_resolved_witness :
  clean_path_string "Clip-2.MP4" (Workspace ["/data/intro.mp4"; "/data/clip-2.mp4"] [] [] [])
  = match List.find (resolves_to (Py.lower "Clip-2.MP4"))
            (workspace_files (Workspace ["/data/intro.mp4"; "/data/clip-2.mp4"] [] [] []))
    with
    | Some ws_file_str => ws_file_str
    | None => "Clip-2.MP4"
    end.
Proof.
  apply plain_name_is_kept_or_resolved; vm_compute; reflexivity.
Defined.

(** *** [sanitize_path_values], field by field *)

Lemma clean_path_string_empty (ws : workspace) : clean_path_string "" ws = "".
Proof. reflexivity. Qed.

Lemma sanitize_path_field_same (ws : workspace) (d : dict) (f : string) :
  sanitize_path_field ws d f !! f =
    match d !! f with
    | Some (JStr value) => Some (JStr (clean_path_string value ws))
    | other => other
    end.
Proof.
  unfold sanitize_path_field.
  destruct (d !! f) as [[| | | |value| |]|] eqn:E; rewrite ?E; try done.
  destruct value as [|c t]; cbn [Py.nonempty]; [by rewrite E|].
  destruct (String.eqb _ _) eqn:Q; cbn [negb].
  - apply String.eqb_eq in Q. by rewrite Q, E.
  - by rewrite lookup_insert_eq.
Qed.

(** [sanitize_path_values] acts field by field. A string under
    "output", "subtitle_path" or "overlay_path" is replaced by its cleaned
    form; a list under "inputs" has each string item replaced by its
    cleaned form, the other items kept, in place; every other field, every
    value of another type and every absent field is left as it was. *)
Theorem sanitize_path_values_field_by_field (data : dict) (ws : workspace) (k : string) :
  sanitize_path_values data ws !! k =
    match data !! k with
    | Some (JStr value) =>
        if bool_decide (k ∈ ["output"; "subtitle_path"; "overlay_path"])
        then Some (JStr (clean_path_string value ws))
        else Some (JStr value)
    | Some (JList inputs) =>
        if bool_decide (k = "inputs")
        then Some (JList (map (clean_item ws) inputs))
        else Some (JList inputs)
    | other => other
    end.
Proof.
  unfold sanitize_path_values. simpl fold_left.
  set (d1 := sanitize_path_field ws data "output").
  set (d2 := sanitize_path_field ws d1 "subtitle_path").
  set (d3 := sanitize_path_field ws d2 "overlay_path").
  assert (d3 !! "inputs" = data !! "inputs") as Hin.
  { subst d3 d2 d1. by rewrite !sanitize_path_field_other. }
  assert (d3 !! k =
          match data !! k with
          | Some (JStr value) =>
              if bool_decide (k ∈ ["output"; "subtitle_path"; "overlay_path"])
              then Some (JStr (clean_path_string value ws))
              else Some (JStr value)
          | other => other
          end) as H3.
  { subst d3 d2 d1.
    destruct (decide (k = "overlay_path")) as [->|N3].
    { rewrite sanitize_path_field_same, !sanitize_path_field_other by done.
      by destruct (data !! "overlay_path") as [[]|]. }
    rewrite sanitize_path_field_other by done.
    destruct (decide (k = "subtitle_path")) as [->|N2].
    { rewrite sanitize_path_field_same, !sanitize_path_field_other by done.
      by destruct (data !! "subtitle_path") as [[]|]. }
    rewrite sanitize_path_field_other by done.
    destruct (decide (k = "output")) as [->|N1].
    { rewrite sanitize_path_field_same.
      by destruct (data !! "output") as [[]|]. }
    rewrite sanitize_path_field_other by done.
    destruct (data !! k) as [[| | | |value| |]|]; try done.
    rewrite bool_decide_eq_false_2; [done|].
    intros H. repeat (apply elem_of_cons in H as [->|H]); try done.
    by apply elem_of_nil in H. }
  destruct (decide (k = "inputs")) as [->|Nin].
  - rewrite Hin. destruct (data !! "inputs") as [[| | | |value|l|]|] eqn:E;
      rewrite ?lookup_insert_eq, ?H3, ?Hin, ?E; try done.
  - assert (match d3 !! "inputs" with
            | Some (JList inputs) =>
                <["inputs" := JList (map (fun inp => match inp with
                                                    | JStr s => JStr (clean_path_string s ws)
                                                    | _ => inp
                                                    end) inputs)]> d3
            | _ => d3
            end !! k = d3 !! k) as ->.
    { destruct (d3 !! "inputs") as [[| | | | |l|]|]; try done.
      by rewrite lookup_insert_ne. }
    rewrite H3. destruct (data !! k) as [[| | | |value|l|]|]; try done.
    by rewrite bool_decide_eq_false_2.
Qed.

End CleanPathSpec.

(** ** Durations in decimal notation *)

Module FfprobeMoreSpec.
Import Json FfprobeAnalyzer PyFacts JsonTextSpec.
Import TextParts PathShapes CleanPathSpec.

Lemma digits_tail_digits (a : string) :
  all_chars Py.isdigit a = true -> forall r, digits_tail (a +:+ r) = digits_tail r.
Proof.
  induction a as [|c a IH]; [done|]. simpl.
  intros [Hc Ha]%andb_true_iff r. rewrite Hc. by apply IH.
Qed.

Lemma digit_facts (c : ascii) :
  Py.isdigit c = true ->
  Py.isspace c = false /\ Py.eqc c "+" = false /\ Py.eqc c "-" = false
  /\ Py.eqc c "_" = false /\ Py.lower_char c = c
  /\ Ascii.eqb c "i" = false /\ Ascii.eqb c "n" = false.
Proof. destruct c as [[] [] [] [] [] [] [] []]; intros H; try done. Qed.

Lemma digits_nonspace (a : string) :
  all_chars Py.isdigit a = true -> all_chars Re.nonspace a = true.
Proof.
  apply all_chars_impl. intros c Hc. unfold Re.nonspace.
  by destruct (digit_facts _ Hc) as (-> & _).
Qed.

Lemma float_isspace_isspace (c : ascii) :
  float_isspace c = true -> Py.isspace c = true.
Proof. destruct c as [[] [] [] [] [] [] [] []]; reflexivity || discriminate. Qed.

Lemma skip_blanks_nonspace (s : string) :
  (forall c t, s = String c t -> Py.isspace c = false) -> skip_blanks s = s.
Proof.
  destruct s as [|c t]; [done|]. intros H. simpl.
  destruct (float_isspace c) eqn:E; [|done].
  apply float_isspace_isspace in E. by rewrite (H c t eq_refl) in E.
Qed.

(** What [float] strips leaves a text without blanks as it is. *)
Lemma float_strip_nonspace (s : string) :
  all_chars Re.nonspace s = true -> float_strip s = s.
Proof.
  intros H. unfold float_strip.
  rewrite (skip_blanks_nonspace s).
  - rewrite skip_blanks_nonspace; [apply rev_involutive|].
    intros c t E. rewrite <- all_chars_rev, E in H. simpl in H.
    apply andb_true_iff in H as [H _]. by apply negb_true_iff in H.
  - intros c t ->. simpl in H. apply andb_true_iff in H as [H _].
    by apply negb_true_iff in H.
Qed.

(** The decimal notation ffprobe prints, digits, a point and digits, is a
    text [float] accepts. *)
Lemma decimal_is_float_literal (whole frac : string) :
  Py.nonempty whole = true -> all_chars Py.isdigit whole = true ->
  Py.nonempty frac = true -> all_chars Py.isdigit frac = true ->
  is_float_literal (whole +:+ "." +:+ frac) = true.
Proof.
  intros Hw1 Hw2 Hf1 Hf2. unfold is_float_literal.
  rewrite float_strip_nonspace.
  2:{ rewrite !all_chars_app. rewrite (digits_nonspace _ Hw2), (digits_nonspace _ Hf2).
      done. }
  destruct whole as [|c w]; [done|]. simpl in Hw2.
  apply andb_true_iff in Hw2 as [Hc Hw2].
  destruct (digit_facts _ Hc) as (_ & Hp & Hm & _ & Hl & Hi & Hn).
  rewrite append_cons. cbn [skip_sign]. rewrite Hp, Hm. cbn [orb Py.lower existsb].
  rewrite Hl. cbn [String.eqb]. rewrite Hi, Hn. cbn [orb digitpart]. rewrite Hc.
  rewrite digits_tail_digits by done. rewrite append_cons, append_nil_l.
  cbn [digits_tail]. replace (Py.isdigit ".") with false by reflexivity.
  replace (Py.eqc "." "_") with false by reflexivity.
  replace (Py.eqc "." ".") with true by reflexivity.
  destruct frac as [|d f]; [done|]. simpl in Hf2.
  apply andb_true_iff in Hf2 as [Hd Hf2]. cbn [digitpart]. rewrite Hd.
  rewrite <- (append_nil_r f), digits_tail_digits by done. reflexivity.
Qed.

(** Where the probe prints the duration in decimal notation, digits, a
    point and digits, the reader returns that number. *)
Theorem decimal_duration_is_returned
    (json_loads : string -> option value) (stdout whole frac : string) (d f : dict) :
  (N.of_nat (String.length stdout) <= MAX_FFPROBE_OUTPUT_SIZE)%N ->
  json_loads stdout = Some (JDict d) ->
  d !! "format" = Some (JDict f) ->
  f !! "duration" = Some (JStr (whole +:+ "." +:+ frac)) ->
  Py.nonempty whole = true -> all_chars Py.isdigit whole = true ->
  Py.nonempty frac = true -> all_chars Py.isdigit frac = true ->
  ffprobe_duration json_loads true (ProbeCompleted stdout)
  = ReturnFloat (FloatOfText (whole +:+ "." +:+ frac)).
Proof.
  intros Hsize Hd Hf Hs Hw1 Hw2 Hf1 Hf2. unfold ffprobe_duration. simpl negb. cbv iota.
  apply N.ltb_ge in Hsize. rewrite Hsize, Hd. unfold get_or.
  rewrite Hf, Hs. cbn [float_of]. by rewrite decimal_is_float_literal.
Qed.

Lemma decimal_duration_is_returned_witness :
  ffprobe_duration
    (fun _ => Some (JDict {[ "format" := JDict {[ "duration" := JStr "12.345000" ]} ]}))
    true (ProbeCompleted "{}")
  = ReturnFloat (FloatOfText "12.345000").
Proof.
  apply (decimal_duration_is_returned _ "{}" "12" "345000"
           {[ "format" := JDict {[ "duration" := JStr "12.345000" ]} ]}
           {[ "duration" := JStr "12.345000" ]}); by vm_compute.
Defined.

End FfprobeMoreSpec.

(** ** What [main] does with a raising body *)

Module MainMoreSpec.
Import Main.

(** When the body of [main] raises, [main] never returns normally: it
    exits with one of the codes 1 to 7 or 130, never with 0, or it lets
    the exception through, and it lets through only what is neither an
    [Exception] nor a [KeyboardInterrupt]. *)
Theorem raising_body_never_exits_cleanly (c : exc_class) :
  (exists exit_code, main (Raised c) = SysExit exit_code
                     /\ exit_code ∈ [1; 2; 3; 4; 5; 6; 7; 130]%Z)
  \/ (main (Raised c) = Propagates c
      /\ issubclass c Exception = false
      /\ issubclass c KeyboardInterrupt = false).
Proof.
  unfold main, handler_for.
  destruct (List.find _ HANDLERS) as [[h exit_code]|] eqn:E.
  - left. exists exit_code. split; [done|].
    apply List.find_some in E as [E _]. unfold HANDLERS in E.
    repeat (destruct E as [[= <- <-]|E]; [PyFacts.in_list|]). done.
  - right. split; [done|].
    pose proof (List.find_none _ _ E) as H.
    split.
    + apply (H (Exception, 1%Z)). vm_compute. tauto.
    + apply (H (KeyboardInterrupt, 130%Z)). vm_compute. tauto.
Qed.

End MainMoreSpec.

(** ** The programmatic interface *)

Module ApiSpec.
Import Api PyFacts.

Section Plan.
Context {World W L Intent Plan : Type}.
Variable discover_media : string -> World -> (W + foreign) * World.
Variable import_ollama : World -> (unit + foreign) * World.
Variable new_llm : string -> string -> World -> (L + foreign) * World.
Variable parse_query : L -> string -> W -> Z -> World -> (Intent + foreign) * World.
Variable dispatch_task :
  Intent -> list string -> option string -> World -> (Plan + foreign) * World.
Variable construct_operations :
  Plan -> bool -> World -> (list (list string) + foreign) * World.
Variable unbound_local_text : string.

Local Abbreviation plan_of :=
  (generate_plan discover_media import_ollama new_llm parse_query dispatch_task
     unbound_local_text).
Local Abbreviation commands_of :=
  (generate_commands discover_media import_ollama new_llm parse_query dispatch_task
     construct_operations unbound_local_text).
Local Abbreviation init_llm := (initialize_llm (W := W) import_ollama new_llm).

Lemma valid_request_passes (request : string) (s : @state World W L) :
  valid_request request = true -> validate_request request s = (inl tt, s).
Proof.
  unfold valid_request, validate_request. intros [H1 H2]%andb_true_iff.
  rewrite H1. destruct request as [|c t]; [done|]. cbn [Py.nonempty negb orb].
  apply N.leb_le in H2. apply N.ltb_ge in H2. by rewrite H2.
Qed.

Lemma invalid_request_raises (request : string) (s : @state World W L) :
  valid_request request = false ->
  exists message, validate_request request s = (inr (NewValidationError message), s).
Proof.
  unfold valid_request, validate_request. intros H.
  destruct (negb (Py.nonempty request) || negb (Py.nonempty (Py.strip request))) eqn:E.
  - by eexists.
  - apply orb_false_iff in E as [_ E]. apply negb_false_iff in E.
    rewrite E in H. simpl in H. apply N.leb_gt in H. apply N.ltb_lt in H.
    rewrite H. by eexists.
Qed.

(** A request that is empty, blank or longer than 10000 characters is
    refused with a [ValidationError] before anything else happens: no
    directory is scanned, no model is set up or asked, and the object is
    left as it was; [generate_commands] refuses it the same way. *)
Theorem invalid_request_is_refused_first
    (request : string) (output_dir : option string) (assume_yes : bool)
    (s : @state World W L) :
  valid_request request = false ->
  exists message,
    plan_of request output_dir s = (inr (NewValidationError message), s)
    /\ commands_of request assume_yes output_dir s
       = (inr (NewValidationError message), s).
Proof.
  intros H. destruct (invalid_request_raises request s H) as [message Hm].
  exists message. unfold generate_commands, generate_plan, bind. by rewrite Hm.
Qed.

(** Where [import ollama] raises, [_initialize_llm] raises
    [UnboundLocalError] for the name [ollama_module], whatever was raised:
    the clause that would report a missing package as a [ConfigError] is
    never reached. Seen from [generate_plan], with a valid request, a
    workspace at hand and no model yet, the failure comes out as a
    [RuntimeError] and the model is not constructed. *)
Theorem failed_import_is_not_a_config_error
    (obj : media_llm W L) (w w' : World) (tr : list (event W)) (f : foreign) :
  import_ollama w = (inr f, w') ->
  init_llm (ollama_host obj) (model_name obj) (obj, w, tr)
  = (inr (NewUnboundLocalError "ollama_module" (Foreign f)),
     (obj, w', tr ++ [EvImport false]))
  /\ (forall request output_dir ws,
        valid_request request = true ->
        workspace obj = Some ws -> llm obj = None ->
        plan_of request output_dir (obj, w, tr)
        = (inr (NewRuntimeError
                  ("Failed to generate plan for request: '" +:+ Py.take 100 request
                   +:+ "...'. Error: " +:+ unbound_local_text)
                  (Some (NewUnboundLocalError "ollama_module" (Foreign f)))),
           (obj, w', tr ++ [EvImport false]))).
Proof.
  intros Himp.
  assert (init_llm (ollama_host obj) (model_name obj) (obj, w, tr)
          = (inr (NewUnboundLocalError "ollama_module" (Foreign f)),
             (obj, w', tr ++ [EvImport false]))) as Hinit.
  { unfold initialize_llm, call. by rewrite Himp. }
  split; [exact Hinit|]. intros request output_dir ws Hv Hws Hllm.
  unfold generate_plan, bind at 1. rewrite valid_request_passes by done.
  unfold try_except, bind at 1, ensure_workspace, bind at 1, self at 1.
  cbn [fst snd]. rewrite Hws. unfold ret at 1.
  unfold bind at 1, get_llm, bind at 1, self at 1. cbn [fst snd]. rewrite Hllm.
  unfold bind at 1. rewrite Hinit. reflexivity.
Qed.

(** What leaves [generate_plan] as an exception is a [ValidationError] for
    an invalid request; or an exception from outside that tests as a
    [TranslationError], a [ValidationError] or a [ConfigError], or that is
    no [Exception]; or a [ConfigError] made from a failure to construct the
    model; or a [RuntimeError] made from any other [Exception]. No other
    [Exception] from outside comes through as it is. *)
Theorem generate_plan_errors_are_classified
    (request : string) (output_dir : option string) (s : @state World W L)
    (e : exception) :
  fst (plan_of request output_dir s) = inr e ->
  match e with
  | NewValidationError _ => valid_request request = false
  | Foreign f =>
      valid_request request = true
      /\ (is_translation_error f || is_validation_error f || is_config_error f = true
          \/ is_exception f = false)
  | NewConfigError _ (Foreign f) =>
      valid_request request = true
      /\ is_response_error f || is_connect_error f || is_timeout_exception f
         || is_import_error f = true
  | NewRuntimeError _ (Some cause) =>
      valid_request request = true
      /\ isinstance_exception cause = true
      /\ isinstance_translation cause = false
      /\ isinstance_validation cause = false
      /\ isinstance_config cause = false
  | _ => False
  end.
Proof.
  unfold generate_plan, bind at 1.
  destruct (valid_request request) eqn:Hv.
  2:{ destruct (invalid_request_raises request s Hv) as [message ->].
      cbn [fst]. by intros [= <-]. }
  rewrite valid_request_passes by done.
  destruct s as [[obj w] tr].
  unfold try_except, bind, ensure_workspace, get_llm, initialize_llm, self, update,
    ret, raise, call, bind, try_except, generate_plan_handler, initialize_llm_handler,
    raise.
  cbn [fst snd].
  destruct (workspace obj) as [ws|];
    [|destruct (discover_media _ w) as [[ws|f] w1]]; cbn [fst snd];
    repeat match goal with
    | |- context [match llm ?o with _ => _ end] => destruct (llm o); cbn [fst snd]
    | |- context [import_ollama ?x] => destruct (import_ollama x) as [[[]|?] ?]; cbn [fst snd]
    | |- context [new_llm ?a ?b ?x] => destruct (new_llm a b x) as [[?|?] ?]; cbn [fst snd]
    | |- context [parse_query ?a ?b ?c ?d ?x] =>
        destruct (parse_query a b c d x) as [[?|?] ?]; cbn [fst snd]
    | |- context [dispatch_task ?a ?b ?c ?x] =>
        destruct (dispatch_task a b c x) as [[?|?] ?]; cbn [fst snd]
    | |- context [if is_response_error ?f then _ else _] =>
        destruct (is_response_error f) eqn:?; cbn [fst snd]
    | |- context [if is_connect_error ?f then _ else _] =>
        destruct (is_connect_error f) eqn:?; cbn [fst snd]
    | |- context [if is_timeout_exception ?f then _ else _] =>
        destruct (is_timeout_exception f) eqn:?; cbn [fst snd]
    | |- context [if is_import_error ?f then _ else _] =>
        destruct (is_import_error f) eqn:?; cbn [fst snd]
    | |- context [if is_exception ?f then _ else _] =>
        destruct (is_exception f) eqn:?; cbn [fst snd]
    | |- context [if is_translation_error ?f then _ else _] =>
        destruct (is_translation_error f) eqn:?; cbn [fst snd]
    | |- context [is_validation_error ?f || is_config_error ?f] =>
        destruct (is_validation_error f) eqn:?, (is_config_error f) eqn:?; cbn [fst snd orb]
    | _ => progress cbn [isinstance_translation isinstance_validation
                         isinstance_config isinstance_exception orb fst snd]
    end;
    try done; intros [= <-]; cbn;
    repeat match goal with H : _ = true |- _ => rewrite H | H : _ = false |- _ => rewrite H end;
    cbn; try done; try tauto; rewrite ?orb_true_r; try done; try tauto.
Qed.

(** *** The two caches *)

Local Abbreviation perform_call :=
  (perform discover_media import_ollama new_llm parse_query dispatch_task
     construct_operations unbound_local_text).
Local Abbreviation session_of :=
  (session discover_media import_ollama new_llm parse_query dispatch_task
     construct_operations unbound_local_text).

Lemma scans_app (l1 l2 : list (event W)) : scans (l1 ++ l2) = scans l1 ++ scans l2.
Proof. apply List.filter_app. Qed.

Lemma constructions_app (l1 l2 : list (event W)) :
  constructions (l1 ++ l2) = constructions l1 ++ constructions l2.
Proof. apply List.filter_app. Qed.

Lemma parsed_workspaces_app (l1 l2 : list (event W)) :
  parsed_workspaces (l1 ++ l2) = parsed_workspaces l1 ++ parsed_workspaces l2.
Proof.
  induction l1 as [|ev l1 IH]; [done|]. destruct ev; simpl; by rewrite ?IH.
Qed.

Ltac split_calls :=
  repeat (cbn [fst snd workspace llm working_dir timeout ollama_host model_name];
  match goal with
  | |- context [match workspace ?o with _ => _ end] =>
      destruct (workspace o) eqn:?
  | |- context [match llm ?o with _ => _ end] => destruct (llm o) eqn:?
  | |- context [discover_media ?a ?x] =>
      destruct (discover_media a x) as [[?|?] ?]
  | |- context [import_ollama ?x] => destruct (import_ollama x) as [[[]|?] ?]
  | |- context [new_llm ?a ?b ?x] => destruct (new_llm a b x) as [[?|?] ?]
  | |- context [parse_query ?a ?b ?c ?d ?x] =>
      destruct (parse_query a b c d x) as [[?|?] ?]
  | |- context [dispatch_task ?a ?b ?c ?x] =>
      destruct (dispatch_task a b c x) as [[?|?] ?]
  | |- context [construct_operations ?a ?b ?x] =>
      destruct (construct_operations a b x) as [[?|?] ?]
  | |- context [if ?b then _ else _] => destruct b
  end).

Ltac effect_done :=
  eexists; split; [repeat rewrite <- app_assoc; try reflexivity;
                   by rewrite app_nil_r|];
  cbn; split; eauto 10.

Lemma perform_effect (c : api_call) (s : @state World W L) :
  is_scan c = false -> step_effect s (perform_call c s).
Proof.
  intros Hc. destruct s as [[obj w] tr].
  destruct c as [request output_dir|request assume_yes output_dir| | |directory];
    [| | | |done]; unfold perform, step_effect;
    unfold generate_commands, generate_plan, get_workspace, try_except, bind,
      ensure_workspace, get_llm, initialize_llm, self, update,
      ret, raise, call, bind, try_except, generate_plan_handler,
      initialize_llm_handler, raise;
    try (destruct (valid_request request) eqn:Hv;
         [rewrite (valid_request_passes request _ Hv)
         |destruct (invalid_request_raises request (obj, w, tr) Hv) as [message ->]]).
  all: split_calls.
  all: try congruence.
  all: effect_done.
Qed.

Lemma step_keeps_workspace_cache (s s' : @state World W L) :
  step_effect s s' -> workspace_cache_ok s -> workspace_cache_ok s'.
Proof.
  destruct s as [[obj w] tr], s' as [[obj' w'] tr']. unfold step_effect, workspace_cache_ok.
  intros (added & -> & Hw & _). rewrite scans_app, parsed_workspaces_app.
  destruct (workspace obj) as [ws|].
  - destruct Hw as (-> & -> & Hp). rewrite app_nil_r. intros [H1 H2].
    split; [done|]. by apply Forall_app.
  - intros [-> ->]. destruct Hw as [(-> & -> & ->)|(ws & ev & -> & -> & Hp)]; [done|].
    split; [simpl; lia|done].
Qed.

Lemma step_keeps_llm_cache (s s' : @state World W L) :
  step_effect s s' -> llm_cache_ok s -> llm_cache_ok s'.
Proof.
  destruct s as [[obj w] tr], s' as [[obj' w'] tr']. unfold step_effect, llm_cache_ok.
  intros (added & -> & _ & Hl). rewrite constructions_app.
  destruct (llm obj) as [l|].
  - destruct Hl as (-> & ->). by rewrite app_nil_r.
  - intros ->. destruct Hl as [(-> & ->)|(l & ev & -> & ->)]; [done|]. simpl. lia.
Qed.

Lemma step_keeps_given_workspace (s s' : @state World W L) (ws : W) :
  step_effect s s' ->
  workspace s.1.1 = Some ws /\ scans s.2 = []
    /\ Forall (fun x => x = ws) (parsed_workspaces s.2) ->
  workspace s'.1.1 = Some ws /\ scans s'.2 = []
    /\ Forall (fun x => x = ws) (parsed_workspaces s'.2).
Proof.
  destruct s as [[obj w] tr], s' as [[obj' w'] tr']. unfold step_effect. cbn [fst snd].
  intros (added & -> & Hw & _) (Hws & Hs & Hp). rewrite Hws in Hw.
  destruct Hw as (-> & Ha & Hpa). rewrite scans_app, parsed_workspaces_app, Hs, Ha.
  split; [done|]. split; [done|]. by apply Forall_app.
Qed.

Lemma step_keeps_given_llm (s s' : @state World W L) (l : L) :
  step_effect s s' ->
  llm s.1.1 = Some l /\ constructions s.2 = [] ->
  llm s'.1.1 = Some l /\ constructions s'.2 = [].
Proof.
  destruct s as [[obj w] tr], s' as [[obj' w'] tr']. unfold step_effect. cbn [fst snd].
  intros (added & -> & _ & Hl) (Hll & Hc). rewrite Hll in Hl.
  destruct Hl as (-> & Ha). by rewrite constructions_app, Hc, Ha.
Qed.

Lemma session_keeps (I : @state World W L -> Prop) (calls : list api_call) :
  (forall s s', step_effect s s' -> I s -> I s') ->
  Forall (fun c => is_scan c = false) calls ->
  forall s, I s -> I (session_of calls s).
Proof.
  intros Hstep. induction 1 as [|c calls Hc _ IH]; intros s Hs; [done|].
  simpl. apply IH. eapply Hstep; [|exact Hs]. by apply perform_effect.
Qed.

(** Over any sequence of uses of the object without [scan_workspace],
    starting with no call made: [discover_media] returns at most once and
    the model is constructed at most once; every request is parsed against
    the same workspace; a workspace given at the start is never scanned
    over and stays in place, and so does a model given at the start. *)
Theorem caches_are_filled_once
    (calls : list api_call) (obj : media_llm W L) (w : World) :
  Forall (fun c => is_scan c = false) calls ->
  let s' := session_of calls (obj, w, []) in
  List.length (scans s'.2) <= 1
  /\ List.length (constructions s'.2) <= 1
  /\ (forall x y, x ∈ parsed_workspaces s'.2 -> y ∈ parsed_workspaces s'.2 -> x = y)
  /\ (forall ws, workspace obj = Some ws ->
        workspace s'.1.1 = Some ws /\ scans s'.2 = []
        /\ Forall (fun x => x = ws) (parsed_workspaces s'.2))
  /\ (forall l, llm obj = Some l ->
        llm s'.1.1 = Some l /\ constructions s'.2 = []).
Proof.
  intros Hcalls s'.
  assert (workspace_cache_ok s') as Hw.
  { apply (session_keeps workspace_cache_ok); [apply step_keeps_workspace_cache|done|].
    cbn. destruct (workspace obj); split; auto. }
  assert (llm_cache_ok s') as Hl.
  { apply (session_keeps llm_cache_ok); [apply step_keeps_llm_cache|done|].
    cbn. destruct (llm obj); auto. }
  destruct s' as [[obj' w'] tr'] eqn:Es. cbn [fst snd].
  unfold workspace_cache_ok in Hw. unfold llm_cache_ok in Hl.
  split; [|split; [|split; [|split]]].
  - destruct (workspace obj'); [tauto|]. destruct Hw as [-> _]. simpl. lia.
  - destruct (llm obj'); [done|]. rewrite Hl. simpl. lia.
  - intros x y Hx Hy. destruct (workspace obj') as [ws|].
    + destruct Hw as [_ Hw]. rewrite Forall_forall in Hw.
      by rewrite (Hw x Hx), (Hw y Hy).
    + destruct Hw as [_ Hw]. rewrite Hw in Hx. by apply elem_of_nil in Hx.
  - intros ws Hws.
    pose proof (session_keeps
                  (fun s => workspace s.1.1 = Some ws /\ scans s.2 = []
                            /\ Forall (fun x => x = ws) (parsed_workspaces s.2))
                  calls (fun s s' => step_keeps_given_workspace s s' ws) Hcalls
                  (obj, w, [])) as H.
    fold s' in H. rewrite Es in H. apply H. by cbn.
  - intros l Hll.
    pose proof (session_keeps
                  (fun s => llm s.1.1 = Some l /\ constructions s.2 = [])
                  calls (fun s s' => step_keeps_given_llm s s' l) Hcalls
                  (obj, w, [])) as H.
    fold s' in H. rewrite Es in H. apply H. by cbn.
Qed.

End Plan.

Lemma invalid_request_is_refused_first_witness :
  exists message,
    generate_plan ApiScenarios.finds_one_video ApiScenarios.import_works
      ApiScenarios.model_named ApiScenarios.parse_echoes ApiScenarios.dispatch_echoes
      "unbound" "   " None (ApiScenarios.fresh, tt, [])
    = (inr (NewValidationError message), (ApiScenarios.fresh, tt, []))
    /\ generate_commands ApiScenarios.finds_one_video ApiScenarios.import_works
         ApiScenarios.model_named ApiScenarios.parse_echoes
         ApiScenarios.dispatch_echoes ApiScenarios.one_command
         "unbound" "   " true None (ApiScenarios.fresh, tt, [])
       = (inr (NewValidationError message), (ApiScenarios.fresh, tt, [])).
Proof.
  apply (invalid_request_is_refused_first ApiScenarios.finds_one_video
           ApiScenarios.import_works ApiScenarios.model_named
           ApiScenarios.parse_echoes ApiScenarios.dispatch_echoes
           ApiScenarios.one_command "unbound" "   " None true).
  reflexivity.
Defined.

Lemma failed_import_is_not_a_config_error_witness :
  generate_plan ApiScenarios.finds_one_video ApiScenarios.import_fails
    ApiScenarios.model_named ApiScenarios.parse_echoes ApiScenarios.dispatch_echoes
    "unbound" "convert a.mp4 to gif" None (ApiScenarios.with_workspace, tt, [])
  = (inr (NewRuntimeError
            ("Failed to generate plan for request: '"
             +:+ Py.take 100 "convert a.mp4 to gif" +:+ "...'. Error: " +:+ "unbound")
            (Some (NewUnboundLocalError "ollama_module"
                     (Foreign ApiScenarios.module_not_found)))),
     (ApiScenarios.with_workspace, tt, [] ++ [EvImport false])).
Proof.
  apply (proj2 (failed_import_is_not_a_config_error ApiScenarios.finds_one_video
                  ApiScenarios.import_fails ApiScenarios.model_named
                  ApiScenarios.parse_echoes ApiScenarios.dispatch_echoes "unbound"
                  ApiScenarios.with_workspace tt tt [] ApiScenarios.module_not_found
                  eq_refl)
           "convert a.mp4 to gif" None ["/media/a.mp4"]); reflexivity.
Defined.

Lemma generate_plan_errors_are_classified_witness :
  valid_request "convert a.mp4 to gif" = true
  /\ isinstance_exception (Foreign ApiScenarios.broken_pipe) = true
  /\ isinstance_translation (Foreign ApiScenarios.broken_pipe) = false
  /\ isinstance_validation (Foreign ApiScenarios.broken_pipe) = false
  /\ isinstance_config (Foreign ApiScenarios.broken_pipe) = false.
Proof.
  apply (generate_plan_errors_are_classified ApiScenarios.finds_one_video
           ApiScenarios.import_works ApiScenarios.model_named
           ApiScenarios.parse_breaks ApiScenarios.dispatch_echoes "unbound"
           "convert a.mp4 to gif" None (ApiScenarios.fresh, tt, [])
           (NewRuntimeError
              ("Failed to generate plan for request: '"
               +:+ Py.take 100 "convert a.mp4 to gif" +:+ "...'. Error: "
               +:+ "broken pipe")
              (Some (Foreign ApiScenarios.broken_pipe)))).
  reflexivity.
Defined.

Lemma caches_are_filled_once_witness :
  let s' := session ApiScenarios.finds_one_video ApiScenarios.import_works
              ApiScenarios.model_named ApiScenarios.parse_echoes
              ApiScenarios.dispatch_echoes ApiScenarios.one_command "unbound"
              [GeneratePlan "convert a.mp4 to gif" None; WorkspaceProperty;
               GenerateCommands "mute a.mp4" true None; GetWorkspace]
              (ApiScenarios.fresh, tt, []) in
  List.length (scans s'.2) <= 1
  /\ List.length (constructions s'.2) <= 1
  /\ (forall x y, x ∈ parsed_workspaces s'.2 -> y ∈ parsed_workspaces s'.2 -> x = y)
  /\ (forall ws, workspace ApiScenarios.fresh = Some ws ->
        workspace s'.1.1 = Some ws /\ scans s'.2 = []
        /\ Forall (fun x => x = ws) (parsed_workspaces s'.2))
  /\ (forall l, llm ApiScenarios.fresh = Some l ->
        llm s'.1.1 = Some l /\ constructions s'.2 = []).
Proof.
  apply (caches_are_filled_once ApiScenarios.finds_one_video ApiScenarios.import_works
           ApiScenarios.model_named ApiScenarios.parse_echoes
           ApiScenarios.dispatch_echoes ApiScenarios.one_command "unbound").
  repeat constructor.
Defined.

End ApiSpec.

(** ** The directory scan *)

Module MediaScanSpec.
Import Json FfprobeAnalyzer MediaScan.

Section Discover.
Variable json_loads : string -> option value.
Variable ffprobe_found : bool.
Variable probe : string -> probe_outcome.
Variable suffix_lower : string -> string.
Variable size_of : string -> option Z.
Variable video_exts audio_exts image_exts : list string.
Variable current_dir : string.

Local Abbreviation info_of := (build_info json_loads ffprobe_found probe size_of).
Local Abbreviation raises := (duration_raises json_loads ffprobe_found probe).
Local Abbreviation discover :=
  (discover_media_extended json_loads ffprobe_found probe suffix_lower size_of
     video_exts audio_exts image_exts current_dir).

Lemma build_info_raises (paths : list string) :
  existsb raises paths = true ->
  exists before p after e,
    paths = before ++ p :: after
    /\ existsb raises before = false
    /\ ffprobe_duration json_loads ffprobe_found (probe p) = Raises e
    /\ info_of paths = inr e.
Proof.
  induction paths as [|p later IH]; [done|]. cbn [existsb build_info].
  unfold duration_raises at 1.
  destruct (ffprobe_duration json_loads ffprobe_found (probe p)) as [|f|e] eqn:E.
  - cbn [orb]. intros H. destruct (IH H) as (before & q & after & e & -> & Hb & Hq & Hi).
    exists (p :: before), q, after, e. rewrite Hi. repeat split; try done.
    cbn [existsb]. unfold duration_raises at 1. by rewrite E.
  - cbn [orb]. intros H. destruct (IH H) as (before & q & after & e & -> & Hb & Hq & Hi).
    exists (p :: before), q, after, e. rewrite Hi. repeat split; try done.
    cbn [existsb]. unfold duration_raises at 1. by rewrite E.
  - intros _. by exists [], p, later, e.
Qed.

Lemma build_info_returns (paths : list string) :
  existsb raises paths = false ->
  exists infos,
    info_of paths = inl infos
    /\ map info_path infos = paths
    /\ map info_size infos = map size_of paths
    /\ Forall (fun i =>
                 match ffprobe_duration json_loads ffprobe_found (probe (info_path i)) with
                 | ReturnFloat f => info_duration i = Some f
                 | _ => info_duration i = None
                 end) infos.
Proof.
  induction paths as [|p later IH]; [by exists []|]. cbn [existsb build_info].
  unfold duration_raises at 1.
  destruct (ffprobe_duration json_loads ffprobe_found (probe p)) as [|f|e] eqn:E;
    [| |done]; cbn [orb]; intros H;
    destruct (IH H) as (infos & -> & H1 & H2 & H3); eexists; (split; [done|]);
    cbn [map info_path info_size]; rewrite H1, H2; repeat split; try done;
    constructor; try done; cbn [info_path info_duration]; by rewrite E.
Qed.

(** The scan of a directory reads the duration of each of its video and
    audio files, and one duration that raises, such as a duration of "N/A",
    makes the whole scan raise that exception: of the first such file among
    the videos followed by the audios, itself a video or an audio file of
    the directory. The durations of the files before it were read without
    an exception, and nothing is returned. *)
Theorem unreadable_duration_aborts_the_scan
    (cwd : option string) (entries : list (string * bool)) (p : string) :
  (p, true) ∈ entries ->
  has_ext suffix_lower video_exts p || has_ext suffix_lower audio_exts p = true ->
  raises p = true ->
  let files := map fst (List.filter snd entries) in
  let videos := List.filter (has_ext suffix_lower video_exts) files in
  let audios := List.filter (has_ext suffix_lower audio_exts) files in
  exists before q after e,
    videos ++ audios = before ++ q :: after
    /\ Forall (fun x => raises x = false) before
    /\ (q, true) ∈ entries
    /\ has_ext suffix_lower video_exts q || has_ext suffix_lower audio_exts q = true
    /\ ffprobe_duration json_loads ffprobe_found (probe q) = Raises e
    /\ discover cwd entries = inr e.
Proof.
  intros Hp Hext Hr files videos audios. unfold discover_media_extended.
  fold files. fold videos audios.
  assert (forall x, x ∈ files <-> (x, true) ∈ entries) as Hfiles.
  { intros x. subst files. rewrite list_elem_of_fmap. split.
    - intros ([y b] & -> & Hy). apply list_elem_of_In, List.filter_In in Hy as [Hy Hb].
      simpl in Hb. subst b. by apply list_elem_of_In.
    - intros Hx. exists (x, true). split; [done|].
      apply list_elem_of_In, List.filter_In. split; [by apply list_elem_of_In|done]. }
  assert (p ∈ videos ++ audios) as Hin.
  { apply elem_of_app. apply orb_true_iff in Hext as [H|H]; [left|right];
      apply list_elem_of_In, List.filter_In; (split; [|done]);
      by apply list_elem_of_In, Hfiles. }
  assert (existsb raises (videos ++ audios) = true) as Hex.
  { apply existsb_exists. exists p. split; [by apply list_elem_of_In|done]. }
  destruct (build_info_raises (videos ++ audios) Hex)
    as (before & q & after & e & Hm & Hb & Hq & Hi).
  exists before, q, after, e. rewrite Hi.
  assert (q ∈ videos ++ audios) as Hqm.
  { rewrite Hm. apply elem_of_app. right. by left. }
  split; [done|]. split.
  { apply Forall_forall. intros x Hx.
    destruct (raises x) eqn:Ex; [|done].
    assert (existsb raises before = true) as Hc; [|by rewrite Hb in Hc].
    apply existsb_exists. exists x. split; [by apply list_elem_of_In|done]. }
  assert ((q, true) ∈ entries
          /\ has_ext suffix_lower video_exts q || has_ext suffix_lower audio_exts q = true)
    as [H1 H2]; [|done].
  apply elem_of_app in Hqm as [H|H];
    apply list_elem_of_In, List.filter_In in H as [H Hx];
    (split; [by apply Hfiles, list_elem_of_In|]); rewrite Hx; by rewrite ?orb_true_r.
Qed.

(** Where no duration raises, the scan returns: the videos, audios and
    images are the files of the directory with an extension of the kind,
    in directory order, and [info] has one entry for each video and then
    each audio, with its path, its size and the duration that was read. *)
Theorem readable_scan_lists_every_media_file
    (cwd : option string) (entries : list (string * bool)) :
  (forall p, (p, true) ∈ entries ->
             has_ext suffix_lower video_exts p || has_ext suffix_lower audio_exts p = true ->
             raises p = false) ->
  exists s,
    discover cwd entries = inl s
    /\ scan_cwd s = match cwd with Some c => c | None => current_dir end
    /\ (forall p, p ∈ scan_videos s <->
                  (p, true) ∈ entries /\ has_ext suffix_lower video_exts p = true)
    /\ (forall p, p ∈ scan_audios s <->
                  (p, true) ∈ entries /\ has_ext suffix_lower audio_exts p = true)
    /\ (forall p, p ∈ scan_images s <->
                  (p, true) ∈ entries /\ has_ext suffix_lower image_exts p = true)
    /\ map info_path (scan_info s) = scan_videos s ++ scan_audios s
    /\ map info_size (scan_info s) = map size_of (scan_videos s ++ scan_audios s).
Proof.
  intros Hok. unfold discover_media_extended.
  set (files := map fst (List.filter snd entries)).
  assert (forall x, x ∈ files <-> (x, true) ∈ entries) as Hfiles.
  { intros x. subst files. rewrite list_elem_of_fmap. split.
    - intros ([y b] & -> & Hy). apply list_elem_of_In, List.filter_In in Hy as [Hy Hb].
      simpl in Hb. subst b. by apply list_elem_of_In.
    - intros Hx. exists (x, true). split; [done|].
      apply list_elem_of_In, List.filter_In. split; [by apply list_elem_of_In|done]. }
  assert (forall exts x, x ∈ List.filter (has_ext suffix_lower exts) files <->
                         (x, true) ∈ entries /\ has_ext suffix_lower exts x = true) as Hf.
  { intros exts x. rewrite <- Hfiles. split.
    - intros H. apply list_elem_of_In, List.filter_In in H as [H1 H2].
      split; [by apply list_elem_of_In|done].
    - intros [H1 H2]. apply list_elem_of_In, List.filter_In.
      split; [by apply list_elem_of_In|done]. }
  set (media := List.filter (has_ext suffix_lower video_exts) files
                ++ List.filter (has_ext suffix_lower audio_exts) files).
  assert (existsb raises media = false) as Hex.
  { destruct (existsb raises media) eqn:E; [|done].
    apply existsb_exists in E as (x & Hx & Hr). apply list_elem_of_In in Hx.
    subst media. apply elem_of_app in Hx as [Hx|Hx]; apply Hf in Hx as [H1 H2];
      rewrite (Hok x) in Hr; try done; rewrite H2; by rewrite ?orb_true_r. }
  destruct (build_info_returns media Hex) as (infos & -> & H1 & H2 & _).
  eexists. split; [done|]. cbn.
  split; [done|]. split; [apply Hf|]. split; [apply Hf|]. split; [apply Hf|]. done.
Qed.

End Discover.

Lemma unreadable_duration_aborts_the_scan_witness :
  exists before q after e,
    ["talk.MP4"; "song.mp3"] = before ++ q :: after
    /\ Forall (fun x => duration_raises Scenarios.loads_na_probe true
                          MediaScanScenarios.na_probe x = false) before
    /\ (q, true) ∈ MediaScanScenarios.directory
    /\ has_ext MediaScanScenarios.from_last_dot [".mp4"; ".mkv"] q
       || has_ext MediaScanScenarios.from_last_dot [".mp3"] q = true
    /\ ffprobe_duration Scenarios.loads_na_probe true (MediaScanScenarios.na_probe q)
       = Raises e
    /\ discover_media_extended Scenarios.loads_na_probe true MediaScanScenarios.na_probe
         MediaScanScenarios.from_last_dot MediaScanScenarios.no_size
         [".mp4"; ".mkv"] [".mp3"] [".png"] "/media" None MediaScanScenarios.directory
       = inr e.
Proof.
  apply (unreadable_duration_aborts_the_scan Scenarios.loads_na_probe true
           MediaScanScenarios.na_probe MediaScanScenarios.from_last_dot
           MediaScanScenarios.no_size [".mp4"; ".mkv"] [".mp3"] [".png"] "/media"
           None MediaScanScenarios.directory "song.mp3").
  - PyFacts.in_list.
  - vm_compute. reflexivity.
  - vm_compute. reflexivity.
Defined.

Lemma readable_scan_lists_every_media_file_witness :
  exists s,
    discover_media_extended Scenarios.loads_na_probe true
      MediaScanScenarios.timed_out_probe MediaScanScenarios.from_last_dot
      MediaScanScenarios.no_size [".mp4"; ".mkv"] [".mp3"] [".png"] "/media"
      (Some "/data") MediaScanScenarios.directory = inl s
    /\ scan_cwd s = "/data"
    /\ (forall p, p ∈ scan_videos s <->
                  (p, true) ∈ MediaScanScenarios.directory
                  /\ has_ext MediaScanScenarios.from_last_dot [".mp4"; ".mkv"] p = true)
    /\ (forall p, p ∈ scan_audios s <->
                  (p, true) ∈ MediaScanScenarios.directory
                  /\ has_ext MediaScanScenarios.from_last_dot [".mp3"] p = true)
    /\ (forall p, p ∈ scan_images s <->
                  (p, true) ∈ MediaScanScenarios.directory
                  /\ has_ext MediaScanScenarios.from_last_dot [".png"] p = true)
    /\ map info_path (scan_info s) = scan_videos s ++ scan_audios s
    /\ map info_size (scan_info s)
       = map MediaScanScenarios.no_size (scan_videos s ++ scan_audios s).
Proof.
  apply (readable_scan_lists_every_media_file Scenarios.loads_na_probe true
           MediaScanScenarios.timed_out_probe MediaScanScenarios.from_last_dot
           MediaScanScenarios.no_size [".mp4"; ".mkv"] [".mp3"] [".png"] "/media"
           (Some "/data") MediaScanScenarios.directory).
  intros p _ _. reflexivity.
Defined.

End MediaScanSpec.

(** ** Where validation gives the benefit of the doubt *)

Module ValidationLeniencySpec.
Import CommandExecutor CommandRetry PyFacts.

(** Validation accepts where the dry run gives no verdict. A command that
    starts with "ffprobe" and misses no input file is accepted without any
    process being started; a command that starts with "ffmpeg" and misses
    no input file is accepted when the dry run times out or fails with an
    exception other than a missing executable. *)
Theorem inconclusive_dry_run_accepts {World : Type}
    (path_exists : World -> string -> bool)
    (subprocess_run : World -> list string -> quick_outcome * World)
    (w : World) (cmd : list string) :
  missing_files path_exists w cmd = [] ->
  (head cmd = Some "ffprobe"
   \/ (head cmd = Some "ffmpeg"
       /\ forall q, build_quick_validation_cmd cmd = Some q ->
                    fst (subprocess_run w q) = QuickTimeoutExpired
                    \/ fst (subprocess_run w q) = QuickOtherException)) ->
  fst (validate_ffmpeg_command path_exists subprocess_run w cmd) = (true, "")
  /\ (head cmd = Some "ffprobe" ->
      validate_ffmpeg_command path_exists subprocess_run w cmd = ((true, ""), w)).
Proof.
  intros Hmiss Hhead. unfold validate_ffmpeg_command, check_input_files.
  rewrite Hmiss. destruct cmd as [|exe rest]; [by destruct Hhead as [|[]]|].
  cbn [head] in Hhead. cbn [Py.nonempty].
  destruct Hhead as [[= ->]|[[= ->] Hrun]].
  - by cbn.
  - cbn [String.eqb Ascii.eqb Bool.eqb orb negb andb].
    destruct (build_quick_validation_cmd ("ffmpeg" :: rest)) as [[|a q]|] eqn:E;
      [by split|..|by split].
    destruct (Hrun _ eq_refl) as [H|H];
      destruct (subprocess_run w (a :: q)) as [out w']; cbn [fst] in H; subst out;
      cbn; (split; [done|intros [=]]).
Qed.

Lemma inconclusive_dry_run_accepts_witness :
  fst (validate_ffmpeg_command Scenarios.everything_is_there
         (fun (w : unit) (_ : list string) => (QuickTimeoutExpired, w)) tt
         ["ffmpeg"; "-i"; "in.mp4"; "out.webm"]) = (true, "")
  /\ (head ["ffmpeg"; "-i"; "in.mp4"; "out.webm"] = Some "ffprobe" ->
      validate_ffmpeg_command Scenarios.everything_is_there
        (fun (w : unit) (_ : list string) => (QuickTimeoutExpired, w)) tt
        ["ffmpeg"; "-i"; "in.mp4"; "out.webm"] = ((true, ""), tt)).
Proof.
  apply (inconclusive_dry_run_accepts Scenarios.everything_is_there
           (fun (w : unit) (_ : list string) => (QuickTimeoutExpired, w)) tt
           ["ffmpeg"; "-i"; "in.mp4"; "out.webm"]).
  - reflexivity.
  - right. split; [reflexivity|]. intros q _. by left.
Defined.

End ValidationLeniencySpec.

(** ** The size of the retry prompt *)

Module PromptSizeSpec.
Import CommandRetry PromptSize PyFacts JsonTextSpec.
Import MoreFacts JsonTextMoreSpec.

Lemma weight_split (sep : ascii) (s : string) :
  weight (Py.split sep s) = S (String.length s).
Proof.
  induction s as [|c t IH]; [done|]. cbn [Py.split].
  destruct (Py.eqc c sep).
  - cbn [weight String.length]. rewrite IH. simpl. lia.
  - destruct (Py.split sep t) as [|w ws]; [done|].
    cbn [weight String.length] in *. lia.
Qed.

Lemma join_length (sep : ascii) (lines : list string) :
  String.length (Py.join (String sep "") lines) = Nat.pred (weight lines).
Proof.
  induction lines as [|a lines IH]; [done|].
  destruct lines as [|b lines].
  - cbn. lia.
  - change (Py.join (String sep "") (a :: b :: lines))
      with (a +:+ String sep "" +:+ Py.join (String sep "") (b :: lines)).
    rewrite !append_length, IH. cbn [weight String.length Nat.pred]. lia.
Qed.

Lemma weight_take (n : nat) (lines : list string) :
  weight (take n lines) <= weight lines.
Proof.
  revert n. induction lines as [|a lines IH]; intros [|n]; cbn; try lia.
  specialize (IH n). lia.
Qed.

Lemma weight_omap (f : string -> option string) (lines : list string) :
  (forall x y, f x = Some y -> String.length y <= String.length x) ->
  weight (omap f lines) <= weight lines.
Proof.
  intros Hf. induction lines as [|a lines IH]; [done|]. cbn [omap list_omap].
  destruct (f a) as [y|] eqn:E; cbn [weight]; [|lia].
  specialize (Hf _ _ E). lia.
Qed.

Lemma strip_length (s : string) : String.length (Py.strip s) <= String.length s.
Proof.
  destruct (strip_inside s) as (l & r & H).
  apply (f_equal String.length) in H. rewrite !append_length in H. lia.
Qed.

Lemma take_length (n : nat) (s : string) : String.length (Py.take n s) <= String.length s.
Proof.
  revert s. induction n as [|n IH]; intros [|c t]; cbn; try lia.
  specialize (IH t). lia.
Qed.

(** The summary of an error message is never longer than the message, and
    the retry prompt is the original prompt, the summary and a fixed text:
    it is never longer than the prompt and the message together plus that
    text, of 307 characters, whatever the message holds. *)
Theorem retry_prompt_is_bounded (original_prompt error_message : string) :
  String.length (extract_error_summary error_message) <= String.length error_message
  /\ String.length (build_retry_prompt original_prompt error_message)
     = String.length original_prompt
       + String.length (extract_error_summary error_message) + RETRY_PROMPT_FRAME
  /\ String.length (build_retry_prompt original_prompt error_message)
     <= String.length original_prompt + String.length error_message + RETRY_PROMPT_FRAME
  /\ RETRY_PROMPT_FRAME = 307.
Proof.
  assert (String.length (extract_error_summary error_message)
          <= String.length error_message) as Hsum.
  { unfold extract_error_summary.
    set (f := fun line : string => _).
    pose proof (weight_omap f (Py.split (ascii_of_nat 10) error_message)) as Hw.
    destruct (omap f _) as [|r rs] eqn:E; [apply take_length|].
    unfold nl. rewrite join_length.
    pose proof (weight_take 3 (r :: rs)) as Ht.
    rewrite weight_split in Hw.
    assert (weight (r :: rs) <= S (String.length error_message)) as Hle.
    { apply Hw. intros x y. subst f. cbv beta.
      destruct (existsb _ _); [intros [= <-]; apply strip_length|].
      destruct (Py.contains _ _); [intros [= <-]; apply strip_length|done]. }
    lia. }
  assert (String.length (build_retry_prompt original_prompt error_message)
          = String.length original_prompt
            + String.length (extract_error_summary error_message) + RETRY_PROMPT_FRAME)
    as Hlen.
  { unfold build_retry_prompt. rewrite !append_length.
    replace RETRY_PROMPT_FRAME with (String.length (build_retry_prompt "" ""))
      by reflexivity.
    unfold build_retry_prompt. rewrite !append_length.
    replace (String.length (extract_error_summary "")) with 0 by reflexivity.
    cbn [String.length]. lia. }
  split; [done|]. split; [done|]. split; [lia|reflexivity].
Qed.

End PromptSizeSpec.
